(** * web-editor: workspace file system, sync engine and sandbox sessions

    A shallow embedding of the backend of the web-editor repository:

    - [NodePath]: the parts of Node's POSIX [path] module the backend calls
      ([path.resolve], [path.join], [path.normalize], [path.dirname]);
    - [HostFs]: the host working copy, with the [fs] calls the backend makes;
    - [FileModel]: the [File] collection of [models/fileModel.js];
    - [AuthUtils]: [utils/authUtils.js];
    - [WorkspaceFs]: the workspace file-system controller;
    - [FileCtl]: [controllers/fileController.js];
    - [CodeExec]: the two sync directions of the code-execution controller;
    - [DockerCtl] and [Terminal]: the container registry and the terminal
      socket handler.

    Definitions come first; the properties of the specification follow,
    and after them further properties of the code. *)

From Stdlib Require Import String Ascii ZArith Lia Bool.
From stdpp Require Import base option list gmap strings.

Set Warnings "-register-all".

Open Scope string_scope.

(** ** JavaScript strings, as far as the backend uses them

    A string is the sequence of the UTF-8 bytes of the JavaScript string;
    the operations below that search for ASCII characters act on it as
    they do on the UTF-16 code units. *)

Module JsString.

(** [s.split(c)]: never empty, the pieces do not contain [c]. *)
Fixpoint split (c : ascii) (s : string) : list string :=
  match s with
  | EmptyString => [EmptyString]
  | String a rest =>
      if Ascii.eqb a c then EmptyString :: split c rest
      else match split c rest with
           | [] => [String a EmptyString]
           | seg :: segs => String a seg :: segs
           end
  end.

(** [l.join(sep)]. *)
Fixpoint join (sep : string) (l : list string) : string :=
  match l with
  | [] => EmptyString
  | [x] => x
  | x :: rest => x ++ sep ++ join sep rest
  end.

(** [s.startsWith(p)]. *)
Definition startsWith (s p : string) : bool := String.prefix p s.

(** [s.includes(p)]. *)
Fixpoint includes (s p : string) : bool :=
  String.prefix p s ||
  match s with
  | EmptyString => false
  | String _ rest => includes rest p
  end.

(** The first character is a slash. *)
Definition leading_slash (s : string) : bool :=
  match s with
  | String "/" _ => true
  | _ => false
  end.

(** The last character is a slash. *)
Fixpoint trailing_slash (s : string) : bool :=
  match s with
  | EmptyString => false
  | String a EmptyString => Ascii.eqb a "/"
  | String _ rest => trailing_slash rest
  end.

(** [s.replace(/^\//, '')]: one leading slash is removed. *)
Definition strip_leading_slash (s : string) : string :=
  match s with
  | String "/" rest => rest
  | _ => s
  end.

Definition rev_string (s : string) : string :=
  string_of_list_ascii (rev (list_ascii_of_string s)).

(** A string holds the UTF-8 bytes of the JavaScript string. *)
Definition utf8 (bytes : list nat) : string :=
  string_of_list_ascii (List.map ascii_of_nat bytes).

(** The white space and the line terminators of ECMAScript, which [trim]
    strips: U+0009 to U+000D and U+0020, then U+00A0, U+1680, U+2000 to
    U+200A, U+2028, U+2029, U+202F, U+205F, U+3000 and U+FEFF. *)
Definition white_space : list string :=
  List.map utf8
    ([[9]; [10]; [11]; [12]; [13]; [32]; [194; 160]; [225; 154; 128]]
     ++ List.map (fun n => [226; 128; n]) (seq 128 11)
     ++ [[226; 128; 168]; [226; 128; 169]; [226; 128; 175]; [226; 129; 159];
         [227; 128; 128]; [239; 187; 191]]).

(** [s] without its prefix [p], when it starts with [p]. *)
Fixpoint drop_prefix (p s : string) : option string :=
  match p, s with
  | EmptyString, _ => Some s
  | String a p', String b s' => if Ascii.eqb a b then drop_prefix p' s' else None
  | String _ _, EmptyString => None
  end.

(** [s] without the one of [spaces] it starts with. *)
Definition strip_space (spaces : list string) (s : string) : option string :=
  List.fold_right
    (fun sp found =>
       match drop_prefix sp s with
       | Some rest => Some rest
       | None => found
       end)
    None spaces.

(** The leading [spaces] are removed one after the other; there are at
    most [fuel] of them. *)
Fixpoint strip_spaces (spaces : list string) (fuel : nat) (s : string) : string :=
  match fuel with
  | O => s
  | S fuel' =>
      match strip_space spaces s with
      | Some rest => strip_spaces spaces fuel' rest
      | None => s
      end
  end.

Definition trim_start (s : string) : string :=
  strip_spaces white_space (String.length s) s.

Definition trim_end (s : string) : string :=
  rev_string
    (strip_spaces (List.map rev_string white_space) (String.length s)
       (rev_string s)).

(** [s.trim()]. *)
Definition trim (s : string) : string := trim_end (trim_start s).

(** JavaScript truthiness of a string: only the empty string is falsy. *)
Definition truthy (s : string) : bool :=
  match s with
  | EmptyString => false
  | _ => true
  end.

(** [a || b] on strings. *)
Definition or_else (a b : string) : string := if truthy a then a else b.

Definition lower (a : ascii) : ascii :=
  let n := nat_of_ascii a in
  if (65 <=? n)%nat && (n <=? 90)%nat then ascii_of_nat (n + 32) else a.

(** [s.toLowerCase()], on the ASCII letters. *)
Fixpoint toLowerCase (s : string) : string :=
  match s with
  | EmptyString => EmptyString
  | String a rest => String (lower a) (toLowerCase rest)
  end.

(** The double quote, for messages. *)
Definition dquote : string := String (ascii_of_nat 34) EmptyString.

(** Truthiness of a value that may be [undefined]. *)
Definition truthy_opt (o : option string) : bool :=
  match o with
  | Some s => truthy s
  | None => false
  end.

End JsString.

(** ** Node's POSIX [path] module *)

Module NodePath.
Import JsString.

(** [normalizeString]: the segments of the path are pushed on a stack (its
    top is the head of [stack]); empty and [.] segments are dropped, [..]
    pops a segment, and is kept only when [allowAboveRoot]. *)
Fixpoint norm_stack (allowAboveRoot : bool) (stack segs : list string)
  : list string :=
  match segs with
  | [] => stack
  | seg :: rest =>
      if (seg =? EmptyString) || (seg =? ".") then norm_stack allowAboveRoot stack rest
      else if seg =? ".." then
        match stack with
        | top :: below =>
            if top =? ".." then
              norm_stack allowAboveRoot
                (if allowAboveRoot then ".." :: stack else stack) rest
            else norm_stack allowAboveRoot below rest
        | [] =>
            norm_stack allowAboveRoot
              (if allowAboveRoot then [".."] else []) rest
        end
      else norm_stack allowAboveRoot (seg :: stack) rest
  end.

Definition normalizeString (p : string) (allowAboveRoot : bool) : string :=
  join "/" (rev (norm_stack allowAboveRoot [] (split "/" p))).

(** The loop of [path.resolve], from the last argument to the first, until
    an absolute path has been built. *)
Fixpoint resolve_loop (rargs : list string) (resolvedPath : string)
  : string * bool :=
  match rargs with
  | [] => (resolvedPath, false)
  | p :: rest =>
      if negb (truthy p) then resolve_loop rest resolvedPath
      else
        let resolvedPath' := p ++ "/" ++ resolvedPath in
        if leading_slash p then (resolvedPath', true)
        else resolve_loop rest resolvedPath'
  end.

(** [path.resolve(...args)], in a process whose working directory is
    [cwd]. *)
Definition resolve (cwd : string) (args : list string) : string :=
  let '(resolvedPath, resolvedAbsolute) := resolve_loop (rev (cwd :: args)) EmptyString in
  let n := normalizeString resolvedPath (negb resolvedAbsolute) in
  if resolvedAbsolute then "/" ++ n
  else if truthy n then n else ".".

(** [path.normalize(p)]. *)
Definition normalize (p : string) : string :=
  if negb (truthy p) then "."
  else
    let isAbsolute := leading_slash p in
    let trailingSeparator := trailing_slash p in
    let n := normalizeString p (negb isAbsolute) in
    if negb (truthy n) then
      if isAbsolute then "/" else if trailingSeparator then "./" else "."
    else
      let n' := if trailingSeparator then n ++ "/" else n in
      if isAbsolute then "/" ++ n' else n'.

(** [path.join(...args)]. *)
Definition join_paths (args : list string) : string :=
  match filter (fun a => truthy a = true) args with
  | [] => "."
  | parts => normalize (join "/" parts)
  end.

(** [path.dirname(p)]: the trailing slashes are dropped, then the last
    segment. [rchars] is the path read from its end, first character
    excluded. *)
Fixpoint drop_slashes (rchars : list ascii) : list ascii :=
  match rchars with
  | a :: rest => if Ascii.eqb a "/" then drop_slashes rest else rchars
  | [] => []
  end.

Fixpoint drop_segment (rchars : list ascii) : option (list ascii) :=
  match rchars with
  | a :: rest => if Ascii.eqb a "/" then Some rest else drop_segment rest
  | [] => None
  end.

Definition dirname (p : string) : string :=
  match p with
  | EmptyString => "."
  | String c0 tl =>
      let hasRoot := Ascii.eqb c0 "/" in
      match drop_segment (drop_slashes (rev (list_ascii_of_string tl))) with
      | None => if hasRoot then "/" else "."
      | Some rest =>
          (* [rest] is what precedes the slash that was found *)
          if hasRoot && match rest with [] => true | _ => false end then "//"
          else String c0 (string_of_list_ascii (rev rest))
      end
  end.

End NodePath.

(** ** Exceptions and state

    A JavaScript call returns, throws an [Error] with a message, or does not
    come back at all (a recursion that never ends); what it did to the state
    before throwing stays done. *)

Inductive result (A : Type) : Type :=
| Ok (a : A)
| Throw (message : string)
| Diverges.
Arguments Ok {A} a.
Arguments Throw {A} message.
Arguments Diverges {A}.

Definition M (S A : Type) : Type := S -> result A * S.

Definition ret {S A} (a : A) : M S A := fun s => (Ok a, s).

Definition throw {S A} (message : string) : M S A := fun s => (Throw message, s).

Definition bind {S A B} (m : M S A) (k : A -> M S B) : M S B :=
  fun s =>
    match m s with
    | (Ok a, s') => k a s'
    | (Throw e, s') => (Throw e, s')
    | (Diverges, s') => (Diverges, s')
    end.

(** [try { m } catch (e) { h(e.message) }]. *)
Definition try_catch {S A} (m : M S A) (h : string -> M S A) : M S A :=
  fun s =>
    match m s with
    | (Throw e, s') => h e s'
    | other => other
    end.

Definition get {S} : M S S := fun s => (Ok s, s).
Definition put {S} (s : S) : M S unit := fun _ => (Ok tt, s).
Definition gets {S A} (f : S -> A) : M S A := fun s => (Ok (f s), s).
Definition modify {S} (f : S -> S) : M S unit := fun s => (Ok tt, f s).

(** Run a computation on a component of the state. *)
Definition zoom {S T A} (proj : S -> T) (upd : T -> S -> S) (m : M T A) : M S A :=
  fun s => let '(r, t) := m (proj s) in (r, upd t s).

Declare Scope js_scope.
Delimit Scope js_scope with js.
Notation "x <- m ;; k" := (bind m (fun x => k))
  (at level 100, m at next level, right associativity) : js_scope.
Notation "m ;;; k" := (bind m (fun _ => k))
  (at level 100, right associativity) : js_scope.
Open Scope js_scope.

(** ** The host working copy *)

Module HostFs.
Import JsString NodePath.

(** Regular files and directories; a path is the list of its segments
    below [/]. The root directory is not stored: it always exists. *)
Inductive hnode : Type :=
| HFile (content : string)
| HDir.

Abbreviation fs := (gmap (list string) hnode).

(** The segments a path string names, and whether it ends in a slash. *)
Definition locate (p : string) : list string * bool :=
  (rev (norm_stack false [] (split "/" p)), trailing_slash p).

Definition key_of (p : string) : list string := (locate p).1.

Definition node_at (m : fs) (k : list string) : option hnode :=
  match k with
  | [] => Some HDir
  | _ => m !! k
  end.

Definition parent_of (k : list string) : list string := removelast k.

(** The path [p] names [root] or something below it. *)
Definition within (root p : string) : Prop := key_of root `prefix_of` key_of p.

(** [existsSync(p)]: a regular file is not found through a trailing
    slash. *)
Definition existsSync (m : fs) (p : string) : bool :=
  let '(k, t) := locate p in
  match node_at m k with
  | Some HDir => true
  | Some (HFile _) => negb t
  | None => false
  end.

(** [mkdir(p, { recursive: true })]: every missing directory on the way is
    created; a regular file on the way makes it fail. *)
Fixpoint mkdir_from (pre rest : list string) (m : fs) : result unit * fs :=
  match rest with
  | [] => (Ok tt, m)
  | s :: r =>
      let k := (pre ++ [s])%list in
      match m !! k with
      | Some HDir => mkdir_from k r m
      | Some (HFile _) =>
          (Throw (match r with
                  | [] => "EEXIST: file already exists, mkdir"
                  | _ => "ENOTDIR: not a directory, mkdir"
                  end), m)
      | None => mkdir_from k r (<[k := HDir]> m)
      end
  end.

Definition mkdir_recursive (p : string) : M fs unit :=
  fun m => mkdir_from [] (key_of p) m.

(** [chmod(p, mode)]: modes are not part of the model, only the failure on
    a missing path is. *)
Definition chmod (p : string) : M fs unit :=
  fun m =>
    if existsSync m p then (Ok tt, m)
    else (Throw "ENOENT: no such file or directory, chmod", m).

(** [writeFile(p, content)]: creates or overwrites a regular file in an
    existing directory. *)
Definition writeFile (p content : string) : M fs unit :=
  fun m =>
    let '(k, t) := locate p in
    match k with
    | [] => (Throw "EISDIR: illegal operation on a directory, open", m)
    | _ =>
        match node_at m (parent_of k) with
        | None => (Throw "ENOENT: no such file or directory, open", m)
        | Some (HFile _) => (Throw "ENOTDIR: not a directory, open", m)
        | Some HDir =>
            match m !! k with
            | Some HDir =>
                (Throw "EISDIR: illegal operation on a directory, open", m)
            | Some (HFile _) =>
                if t then (Throw "ENOTDIR: not a directory, open", m)
                else (Ok tt, <[k := HFile content]> m)
            | None =>
                if t then
                  (Throw "EISDIR: illegal operation on a directory, open", m)
                else (Ok tt, <[k := HFile content]> m)
            end
        end
    end.

(** [readFile(p, 'utf8')]. *)
Definition readFile (p : string) : M fs string :=
  fun m =>
    let '(k, t) := locate p in
    match node_at m k with
    | Some (HFile c) =>
        if t then (Throw "ENOTDIR: not a directory, open", m) else (Ok c, m)
    | Some HDir => (Throw "EISDIR: illegal operation on a directory, read", m)
    | None => (Throw "ENOENT: no such file or directory, open", m)
    end.

(** [(await stat(p)).isDirectory()]. *)
Definition stat_isDirectory (p : string) : M fs bool :=
  fun m =>
    let '(k, t) := locate p in
    match node_at m k with
    | Some HDir => (Ok true, m)
    | Some (HFile _) =>
        if t then (Throw "ENOTDIR: not a directory, stat", m) else (Ok false, m)
    | None => (Throw "ENOENT: no such file or directory, stat", m)
    end.

(** [readdir(p, { withFileTypes: true })]: the names in a directory, each
    with [isDirectory()]. *)
Definition readdir (p : string) : M fs (list (string * bool)) :=
  fun m =>
    let k := key_of p in
    match node_at m k with
    | Some HDir =>
        (Ok (omap (fun '(k', n) =>
                     if decide (k' ≠ [] ∧ parent_of k' = k) then
                       Some (List.last k' EmptyString,
                             match n with HDir => true | HFile _ => false end)
                     else None)
                  (map_to_list m)), m)
    | Some (HFile _) => (Throw "ENOTDIR: not a directory, scandir", m)
    | None => (Throw "ENOENT: no such file or directory, scandir", m)
    end.

(** [rm(p, { recursive: true, force: true })]: the path and everything
    below it; a missing path is not an error. *)
Definition rm_recursive_force (p : string) : M fs unit :=
  fun m =>
    let '(k, t) := locate p in
    match node_at m k with
    | None => (Ok tt, m)
    | Some (HFile _) =>
        if t then (Throw "ENOTDIR: not a directory, rm", m)
        else (Ok tt, delete k m)
    | Some HDir =>
        (Ok tt, filter (fun kv => ¬ (k `prefix_of` kv.1)) m)
    end.

Definition has_child (m : fs) (k : list string) : bool :=
  existsb (fun kv => bool_decide (kv.1 ≠ k ∧ k `prefix_of` kv.1))
          (map_to_list m).

Definition rekey (ko kn k : list string) : list string :=
  (kn ++ drop (length ko) k)%list.

(** [rename(old, new)], as rename(2). *)
Definition rename (old new : string) : M fs unit :=
  fun m =>
    let '(ko, to) := locate old in
    let '(kn, tn) := locate new in
    match node_at m ko, ko with
    | None, _ => (Throw "ENOENT: no such file or directory, rename", m)
    | _, [] => (Throw "EBUSY: resource busy or locked, rename", m)
    | Some src, _ =>
        match src, to || tn with
        | HFile _, true => (Throw "ENOTDIR: not a directory, rename", m)
        | _, _ =>
            match kn, node_at m (parent_of kn) with
            | [], _ => (Throw "EBUSY: resource busy or locked, rename", m)
            | _, None => (Throw "ENOENT: no such file or directory, rename", m)
            | _, Some (HFile _) => (Throw "ENOTDIR: not a directory, rename", m)
            | _, Some HDir =>
                if decide (ko = kn) then (Ok tt, m)
                else if decide (ko `prefix_of` kn) then
                  (Throw "EINVAL: invalid argument, rename", m)
                else
                  let moved : fs :=
                    list_to_map
                      (omap (fun '(k, n) =>
                               if decide (ko `prefix_of` k)
                               then Some (rekey ko kn k, n) else None)
                            (map_to_list m)) in
                  let kept : fs :=
                    filter (fun kv => ¬ (ko `prefix_of` kv.1) ∧
                                      ¬ (kn `prefix_of` kv.1)) m in
                  match src, m !! kn with
                  | _, None => (Ok tt, moved ∪ kept)
                  | HFile _, Some (HFile _) => (Ok tt, moved ∪ kept)
                  | HFile _, Some HDir =>
                      (Throw "EISDIR: illegal operation on a directory, rename", m)
                  | HDir, Some (HFile _) =>
                      (Throw "ENOTDIR: not a directory, rename", m)
                  | HDir, Some HDir =>
                      if has_child m kn then
                        (Throw "ENOTEMPTY: directory not empty, rename", m)
                      else (Ok tt, moved ∪ kept)
                  end
            end
        end
    end.

End HostFs.

(** ** models/fileModel.js *)

Module FileModel.

(** [type: { enum: ['file', 'folder'] }]. *)
Inductive ftype : Type := file | folder.

(** [permission: { enum: ['read', 'write'] }]. *)
Inductive perm : Type := read | write.

#[export] Instance ftype_eq_dec : EqDecision ftype.
Proof. solve_decision. Defined.
#[export] Instance perm_eq_dec : EqDecision perm.
Proof. solve_decision. Defined.

(** An entry of [sharedWith]. *)
Record sharedUser : Type := mkShared {
  user : string;
  permission : perm
}.

(** A document of the collection. [_id] is the ObjectId, [userId] the
    owner, [updatedAt] a time in milliseconds. *)
Record File : Type := mkFile {
  _id : nat;
  name : string;
  type : ftype;
  content : string;
  parentId : option nat;
  userId : string;
  isTemplate : bool;
  sharedWith : list sharedUser;
  updatedAt : Z
}.

#[export] Instance sharedUser_eq_dec : EqDecision sharedUser.
Proof. solve_decision. Defined.
#[export] Instance File_eq_dec : EqDecision File.
Proof. solve_decision. Defined.

(** The collection in its natural order, and the next ObjectId: an id is
    never handed out twice, also after a deletion. *)
Record collection : Type := mkColl {
  docs : list File;
  next_id : nat
}.

(** [File.findOne(q)]: the first match. *)
Definition findOne (q : File -> bool) (c : collection) : option File :=
  List.find q (docs c).

(** [File.find(q)]: all matches. *)
Definition findMany (q : File -> bool) (c : collection) : list File :=
  List.filter q (docs c).

(** [File.findById(id)]. *)
Definition findById (id : nat) (c : collection) : option File :=
  findOne (fun d => bool_decide (_id d = id)) c.

Fixpoint remove_first (q : File -> bool) (l : list File) : list File :=
  match l with
  | [] => []
  | d :: rest => if q d then rest else d :: remove_first q rest
  end.

(** [File.deleteOne({ _id: id })]. *)
Definition deleteOne (id : nat) (c : collection) : collection :=
  mkColl (remove_first (fun d => bool_decide (_id d = id)) (docs c)) (next_id c).

(** [new File(fields).save()]: the document gets the next id and goes to
    the end of the collection. *)
Definition insert (fields : nat -> File) (c : collection) : File * collection :=
  let d := fields (next_id c) in
  (d, mkColl (docs c ++ [d])%list (S (next_id c))).

(** [d.save()] for a document read from the collection. *)
Definition save (d : File) (c : collection) : collection :=
  mkColl (List.map (fun d' => if bool_decide (_id d' = _id d) then d else d')
                   (docs c))
         (next_id c).

Definition set_content (d : File) (s : string) : File :=
  mkFile (_id d) (name d) (type d) s (parentId d) (userId d)
         (isTemplate d) (sharedWith d) (updatedAt d).

Definition set_name (d : File) (s : string) : File :=
  mkFile (_id d) s (type d) (content d) (parentId d) (userId d)
         (isTemplate d) (sharedWith d) (updatedAt d).

Definition set_updatedAt (d : File) (t : Z) : File :=
  mkFile (_id d) (name d) (type d) (content d) (parentId d) (userId d)
         (isTemplate d) (sharedWith d) t.

Definition set_parentId (d : File) (p : option nat) : File :=
  mkFile (_id d) (name d) (type d) (content d) p (userId d)
         (isTemplate d) (sharedWith d) (updatedAt d).

End FileModel.

(** ** The state of the server *)

Record world : Type := mkWorld {
  vfs : FileModel.collection;
  host : HostFs.fs;
  console : list string
}.

Definition with_vfs (c : FileModel.collection) (w : world) : world :=
  mkWorld c (host w) (console w).
Definition with_host (m : HostFs.fs) (w : world) : world :=
  mkWorld (vfs w) m (console w).

(** A call of [fs] on the host of the world. *)
Definition on_host {A} (m : M HostFs.fs A) : M world A := zoom host with_host m.

(** [console.error(line)], [console.warn(line)]. *)
Definition console_error (line : string) : M world unit :=
  modify (fun w => mkWorld (vfs w) (host w) (console w ++ [line])%list).

(** ** utils/authUtils.js *)

Module AuthUtils.
Import JsString FileModel.

(** The query for the root document of a project. *)
Definition is_project_root (projectOwnerId projectSlug : string) (d : File) : bool :=
  bool_decide (userId d = projectOwnerId) &&
  bool_decide (name d = projectSlug) &&
  bool_decide (parentId d = None) &&
  bool_decide (type d = folder) &&
  negb (isTemplate d).

Definition checkProjectPermission (c : collection)
    (loggedInUserId projectOwnerId projectSlug : string)
    (requiredPermission : perm) : result bool :=
  if negb (truthy loggedInUserId) || negb (truthy projectOwnerId)
     || negb (truthy projectSlug) then Ok false
  else if bool_decide (loggedInUserId = projectOwnerId) then Ok true
  else
    match findOne (is_project_root projectOwnerId projectSlug) c with
    | None =>
        Throw ("Project " ++ dquote ++ projectSlug ++ dquote
               ++ " not found or not accessible.")
    | Some projectRootVfs =>
        match List.find (fun s => bool_decide (user s = loggedInUserId))
                        (sharedWith projectRootVfs) with
        | None => Ok false
        | Some shareEntry =>
            match requiredPermission, permission shareEntry with
            | read, (read | write) => Ok true
            | write, write => Ok true
            | _, _ => Ok false
            end
        end
    end.

End AuthUtils.

Definition lift_result {S A} (r : result A) : M S A := fun s => (r, s).

(** ** The workspace file-system controller *)

Module WorkspaceFs.
Import JsString NodePath HostFs FileModel AuthUtils.

(** What the handlers read of a request: the authenticated user
    ([req.user._id.toString()]), the query and the body. A field that is
    absent is [None]. *)
Record request : Type := mkReq {
  req_user : string;
  q_userId : option string;
  q_projectSlug : option string;
  q_path : option string;
  b_userId : option string;
  b_projectSlug : option string;
  b_path : option string;
  b_content : option string;
  b_oldPath : option string;
  b_newName : option string;
  b_newPath : option string
}.

Inductive payload : Type :=
| Message (message : string)
| MessageError (message error : string)
| FileContent (content : string)
| Entries (files : list (string * ftype * string)).

Record response : Type := mkRes {
  status : nat;
  body : payload
}.

Definition or_opt (a b : option string) : option string :=
  if truthy_opt a then a else b.

Definition str (o : option string) : string := default EmptyString o.

Section Handlers.
(** [process.cwd()]. *)
Variable cwd : string.

Definition BASE_PROJECT_DIR : string := resolve cwd [cwd; "projects"].

Definition resolveUserProjectPath (userId projectSlug : string)
    (relativePathWithinProject : option string) : result string :=
  if negb (truthy userId) then
    Throw "User ID is required for path resolution."
  else if negb (truthy projectSlug) then
    Throw "Project slug is required for path resolution."
  else
    let relativePathWithinProject := str relativePathWithinProject in
    let specificProjectRootOnHost :=
      resolve cwd [BASE_PROJECT_DIR; userId; projectSlug] in
    let cleanRelativePath := strip_leading_slash relativePathWithinProject in
    let fullHostPath :=
      resolve cwd [specificProjectRootOnHost; cleanRelativePath] in
    if negb (startsWith fullHostPath specificProjectRootOnHost)
       && negb (bool_decide (fullHostPath = specificProjectRootOnHost)) then
      Throw ("Access Denied: Path traversal attempt. User: " ++ userId
             ++ ", Project: " ++ dquote ++ projectSlug ++ dquote
             ++ ", Relative Path: " ++ dquote ++ relativePathWithinProject
             ++ dquote ++ ", Resolved: " ++ dquote ++ fullHostPath ++ dquote)
    else Ok fullHostPath.

(** [await checkProjectPermission(...)] in a handler: the check of
    [utils/authUtils.js] on the collection of the world, with the two lines
    it writes with [console.warn]. *)
Definition checkPermission (loggedInUserId projectOwnerId projectSlug : string)
    (requiredPermission : perm) : M world bool :=
  if negb (truthy loggedInUserId) || negb (truthy projectOwnerId)
     || negb (truthy projectSlug) then
    console_error "AUTH_CHECK: Missing IDs or slug for permission check." ;;;
    ret false
  else if bool_decide (loggedInUserId = projectOwnerId) then ret true
  else
    projectRootVfs <-
      gets (fun w => findOne (is_project_root projectOwnerId projectSlug) (vfs w)) ;;
    match projectRootVfs with
    | None =>
        console_error ("AUTH_CHECK: Project VFS root not found for owner "
                       ++ projectOwnerId ++ ", slug " ++ projectSlug ++ ".") ;;;
        throw ("Project " ++ dquote ++ projectSlug ++ dquote
               ++ " not found or not accessible.")
    | Some projectRootVfs =>
        match List.find (fun s => bool_decide (user s = loggedInUserId))
                        (sharedWith projectRootVfs) with
        | None => ret false
        | Some shareEntry =>
            match requiredPermission, permission shareEntry with
            | read, (read | write) => ret true
            | write, write => ret true
            | _, _ => ret false
            end
        end
    end.

(** The [catch] block the handlers share: [console.error(label, error)],
    then the answer. Of the error the line keeps the message, not the
    stack. *)
Definition on_error (label failure : string) (message : string)
  : M world response :=
  console_error (label ++ " Error: " ++ message) ;;;
  if startsWith message "Access Denied" then ret (mkRes 403 (Message message))
  else ret (mkRes 500 (MessageError failure message)).

Definition hidden_entry (name : string) : bool :=
  bool_decide (name ∈ [".git"; "node_modules"; ".DS_Store"; ".vscode";
                       "__pycache__"])
  || startsWith name "~$".

Definition listFiles (req : request) : M world response :=
  try_catch
    (let loggedInUserId := req_user req in
     let projectOwnerId := q_userId req in
     let projectSlug := q_projectSlug req in
     let relativePathInProject := str (or_opt (q_path req) (Some EmptyString)) in
     if negb (truthy_opt projectOwnerId) || negb (truthy_opt projectSlug) then
       ret (mkRes 400 (Message
         "userId (owner) and projectSlug query parameters are required."))
     else
       allowed <- checkPermission loggedInUserId (str projectOwnerId)
                    (str projectSlug) read ;;
       if negb allowed then
         ret (mkRes 403 (Message
           "Forbidden: You don't have permission to view this project's files."))
       else
         fullHostPathToList <- lift_result
           (resolveUserProjectPath (str projectOwnerId) (str projectSlug)
              (Some relativePathInProject)) ;;
         present <- gets (fun w => existsSync (host w) fullHostPathToList) ;;
         if negb present then
           console_error ("FS_CTRL: listFiles - Path not found on host: "
                          ++ fullHostPathToList) ;;;
           ret (mkRes 200 (Entries []))
         else
           isDir <- on_host (stat_isDirectory fullHostPathToList) ;;
           if negb isDir then
             ret (mkRes 400 (Message "Target path is not a directory."))
           else
             entries <- on_host (readdir fullHostPathToList) ;;
             let files :=
               List.map (fun '(n, d) =>
                           (n, if d : bool then folder else file,
                            join_paths ["/"; relativePathInProject; n]))
                        entries in
             ret (mkRes 200 (Entries
               (List.filter (fun f => negb (hidden_entry f.1.1)) files))))
    (on_error "FS_CTRL: Error listing files:" "Failed to list files.").

Definition readFileContent (req : request) : M world response :=
  try_catch
    (let loggedInUserId := req_user req in
     let projectOwnerId := q_userId req in
     let projectSlug := q_projectSlug req in
     let relativePathInProject := q_path req in
     if negb (truthy_opt projectOwnerId) || negb (truthy_opt projectSlug)
        || negb (truthy_opt relativePathInProject) then
       ret (mkRes 400 (Message
         "userId (owner), projectSlug, and path query parameters are required."))
     else
       allowed <- checkPermission loggedInUserId (str projectOwnerId)
                    (str projectSlug) read ;;
       if negb allowed then
         ret (mkRes 403 (Message
           "Forbidden: You don't have permission to read this file."))
       else
         fullHostPath <- lift_result
           (resolveUserProjectPath (str projectOwnerId) (str projectSlug)
              relativePathInProject) ;;
         present <- gets (fun w => existsSync (host w) fullHostPath) ;;
         if negb present then
           ret (mkRes 404 (Message "File not found or is a directory."))
         else
           isDir <- on_host (stat_isDirectory fullHostPath) ;;
           if isDir then
             ret (mkRes 404 (Message "File not found or is a directory."))
           else
             content <- on_host (readFile fullHostPath) ;;
             ret (mkRes 200 (FileContent content)))
    (on_error "FS_CTRL: Error reading file:" "Failed to read file.").

Definition writeFileContent (req : request) : M world response :=
  try_catch
    (let loggedInUserId := req_user req in
     let projectOwnerId := q_userId req in
     let projectSlug := q_projectSlug req in
     let relativePathInProject := q_path req in
     match b_content req with
     | None =>
         ret (mkRes 400 (Message
           "userId (owner), projectSlug, path, and content are required."))
     | Some content =>
         if negb (truthy_opt projectOwnerId) || negb (truthy_opt projectSlug)
            || negb (truthy_opt relativePathInProject) then
           ret (mkRes 400 (Message
             "userId (owner), projectSlug, path, and content are required."))
         else
           allowed <- checkPermission loggedInUserId (str projectOwnerId)
                        (str projectSlug) write ;;
           if negb allowed then
             ret (mkRes 403 (Message
               "Forbidden: You don't have permission to write to this file."))
           else
             fullHostPath <- lift_result
               (resolveUserProjectPath (str projectOwnerId) (str projectSlug)
                  relativePathInProject) ;;
             let dirPath := dirname fullHostPath in
             present <- gets (fun w => existsSync (host w) dirPath) ;;
             (if negb present then
                on_host (mkdir_recursive dirPath) ;;; on_host (chmod dirPath)
              else ret tt) ;;;
             on_host (writeFile fullHostPath content) ;;;
             on_host (chmod fullHostPath) ;;;
             ret (mkRes 200 (Message "File saved successfully."))
     end)
    (on_error "FS_CTRL: Error writing file:" "Failed to write file.").

Definition createDirectory (req : request) : M world response :=
  try_catch
    (let loggedInUserId := req_user req in
     let projectOwnerId := or_opt (b_userId req) (q_userId req) in
     let projectSlug := or_opt (b_projectSlug req) (q_projectSlug req) in
     let relativePathInProject := b_path req in
     if negb (truthy_opt projectOwnerId) || negb (truthy_opt projectSlug)
        || negb (truthy_opt relativePathInProject) then
       ret (mkRes 400 (Message
         "Owner userId, projectSlug, and path are required."))
     else
       allowed <- checkPermission loggedInUserId (str projectOwnerId)
                    (str projectSlug) write ;;
       if negb allowed then
         ret (mkRes 403 (Message
           "Forbidden: You don't have permission to create directories in this project."))
       else
         fullHostPath <- lift_result
           (resolveUserProjectPath (str projectOwnerId) (str projectSlug)
              relativePathInProject) ;;
         present <- gets (fun w => existsSync (host w) fullHostPath) ;;
         if present then
           ret (mkRes 400 (Message "Directory or file already exists."))
         else
           on_host (mkdir_recursive fullHostPath) ;;;
           on_host (chmod fullHostPath) ;;;
           ret (mkRes 201 (Message "Directory created successfully.")))
    (on_error "FS_CTRL: Error creating directory:" "Failed to create directory.").

Definition deleteItem (req : request) : M world response :=
  try_catch
    (let loggedInUserId := req_user req in
     let projectOwnerId := q_userId req in
     let projectSlug := q_projectSlug req in
     let relativePathInProject := q_path req in
     if negb (truthy_opt projectOwnerId) || negb (truthy_opt projectSlug)
        || negb (truthy_opt relativePathInProject) then
       ret (mkRes 400 (Message
         "userId (owner), projectSlug, and path query parameters are required."))
     else
       allowed <- checkPermission loggedInUserId (str projectOwnerId)
                    (str projectSlug) read ;;
       if negb allowed then
         ret (mkRes 403 (Message
           "Forbidden: You don't have permission to read this file."))
       else
         fullHostPath <- lift_result
           (resolveUserProjectPath (str projectOwnerId) (str projectSlug)
              relativePathInProject) ;;
         present <- gets (fun w => existsSync (host w) fullHostPath) ;;
         if negb present then ret (mkRes 404 (Message "Item not found."))
         else
           let specificProjectRootOnHost :=
             resolve cwd [BASE_PROJECT_DIR; str projectOwnerId; str projectSlug] in
           if bool_decide (fullHostPath = specificProjectRootOnHost)
              && (bool_decide (str relativePathInProject = "/")
                  || bool_decide (str relativePathInProject = EmptyString)) then
             ret (mkRes 400 (Message
               "Cannot delete project root via this item endpoint."))
           else
             on_host (rm_recursive_force fullHostPath) ;;;
             ret (mkRes 200 (Message "Item deleted successfully.")))
    (on_error "FS_CTRL: Error deleting item:" "Failed to delete item.").

Definition renameItem (req : request) : M world response :=
  try_catch
    (let loggedInUserId := req_user req in
     let projectOwnerId := q_userId req in
     let projectSlug := q_projectSlug req in
     let relativePathInProject := q_path req in
     let oldPath := b_oldPath req in
     let newName := b_newName req in
     if negb (truthy_opt projectOwnerId) || negb (truthy_opt projectSlug)
        || negb (truthy_opt relativePathInProject) then
       ret (mkRes 400 (Message
         "userId (owner), projectSlug, and path query parameters are required."))
     else
       allowed <- checkPermission loggedInUserId (str projectOwnerId)
                    (str projectSlug) read ;;
       if negb allowed then
         ret (mkRes 403 (Message
           "Forbidden: You don't have permission to read this file."))
       else if negb (truthy_opt oldPath) || negb (truthy_opt newName) then
         ret (mkRes 400 (Message "Old path and new name are required."))
       else
         let trimmedNewName := trim (str newName) in
         if includes trimmedNewName "/" || includes trimmedNewName "\"
            || includes trimmedNewName ".." then
           ret (mkRes 400 (Message
             ("New name cannot contain path separators or " ++ dquote
              ++ ".." ++ dquote ++ " characters.")))
         else
           fullOldHostPath <- lift_result
             (resolveUserProjectPath (str projectOwnerId) (str projectSlug)
                oldPath) ;;
           present <- gets (fun w => existsSync (host w) fullOldHostPath) ;;
           if negb present then
             ret (mkRes 404 (Message "Item to rename not found."))
           else
             let parentDirOfOld := dirname fullOldHostPath in
             let fullNewHostPath := join_paths [parentDirOfOld; trimmedNewName] in
             let specificProjectRootOnHost :=
               resolve cwd [BASE_PROJECT_DIR; str projectOwnerId;
                            str projectSlug] in
             if negb (startsWith fullNewHostPath specificProjectRootOnHost) then
               throw ("Access Denied: New path for rename (" ++ dquote
                      ++ fullNewHostPath ++ dquote
                      ++ ") is outside project directory " ++ dquote
                      ++ specificProjectRootOnHost ++ dquote ++ ".")
             else
               taken <- gets (fun w => existsSync (host w) fullNewHostPath) ;;
               if taken then
                 ret (mkRes 400 (Message
                   ("An item named " ++ dquote ++ trimmedNewName ++ dquote
                    ++ " already exists.")))
               else
                 on_host (rename fullOldHostPath fullNewHostPath) ;;;
                 ret (mkRes 200 (Message "Item renamed successfully.")))
    (on_error "FS_CTRL: Error renaming item:" "Failed to rename item.").

Definition moveItem (req : request) : M world response :=
  try_catch
    (let loggedInUserId := req_user req in
     let projectOwnerId := q_userId req in
     let projectSlug := q_projectSlug req in
     let relativePathInProject := q_path req in
     let oldPath := b_oldPath req in
     let newPath := b_newPath req in
     if negb (truthy_opt projectOwnerId) || negb (truthy_opt projectSlug)
        || negb (truthy_opt relativePathInProject) then
       ret (mkRes 400 (Message
         "userId (owner), projectSlug, and path query parameters are required."))
     else
       allowed <- checkPermission loggedInUserId (str projectOwnerId)
                    (str projectSlug) read ;;
       if negb allowed then
         ret (mkRes 403 (Message
           "Forbidden: You don't have permission to read this file."))
       else if negb (truthy_opt oldPath) || negb (truthy_opt newPath) then
         ret (mkRes 400 (Message "Old path and new path are required."))
       else
         fullOldHostPath <- lift_result
           (resolveUserProjectPath (str projectOwnerId) (str projectSlug)
              oldPath) ;;
         fullNewHostPath <- lift_result
           (resolveUserProjectPath (str projectOwnerId) (str projectSlug)
              newPath) ;;
         present <- gets (fun w => existsSync (host w) fullOldHostPath) ;;
         if negb present then
           ret (mkRes 404 (Message "Item to move not found."))
         else
           taken <- gets (fun w => existsSync (host w) fullNewHostPath) ;;
           if taken then
             ret (mkRes 400 (Message "Target path already exists."))
           else
             let newParentDir := dirname fullNewHostPath in
             parentPresent <- gets (fun w => existsSync (host w) newParentDir) ;;
             (if negb parentPresent then
                on_host (mkdir_recursive newParentDir) ;;;
                on_host (chmod newParentDir)
              else ret tt) ;;;
             on_host (rename fullOldHostPath fullNewHostPath) ;;;
             ret (mkRes 200 (Message "Item moved successfully.")))
    (on_error "FS_CTRL: Error moving item:" "Failed to move item.").

End Handlers.

End WorkspaceFs.

(** ** controllers/fileController.js *)

Module FileCtl.
Import JsString FileModel.

(** A response of the controller: the status and, on success, the
    document sent back. Errors thrown under [asyncHandler] reach the
    client with the status set before the throw. *)
Inductive reply : Type :=
| Sent (status : nat) (document : File)
| Failed (status : nat) (message : string).

(** [v || fallback], for a field of the body that may be absent. *)
Definition or_undefined (v : option string) (fallback : string) : string :=
  match v with
  | Some s => or_else s fallback
  | None => fallback
  end.

(** [updateFile]: [id] is [req.params.id], [requester] is [req.user.id];
    [name] and [content] are the fields of the body. The [updatedAt] that
    [save] sets when a field has changed is left as it was. *)
Definition updateFile (id : nat) (requester : string)
    (name content : option string) (c : collection) : reply * collection :=
  match findById id c with
  | None => (Failed 404 "File not found", c)
  | Some f =>
      if negb (bool_decide (userId f = requester)) then
        (Failed 401 "Not authorized", c)
      else
        let f1 := set_name f (or_undefined name (FileModel.name f)) in
        let f2 := set_content f1 (or_undefined content (FileModel.content f1)) in
        (Sent 200 f2, save f2 c)
  end.

(** [moveFile]: [draggedId] and [targetId] are the fields of the body,
    [targetId || null] being [None] for the top level. Nothing is asked of
    the target. The schema has [timestamps: true]: a save that changes the
    document sets [updatedAt] to the time [now] of the call. *)
Definition moveFile (draggedId : nat) (targetId : option nat)
    (requester : string) (now : Z) (c : collection) : reply * collection :=
  match findById draggedId c with
  | None => (Failed 404 "File not found", c)
  | Some f =>
      if negb (bool_decide (userId f = requester)) then
        (Failed 401 "Not authorized", c)
      else
        let f' :=
          if bool_decide (parentId f = targetId) then f
          else set_updatedAt (set_parentId f targetId) now in
        (Sent 200 f', save f' c)
  end.

(** What [deleteFile] answers. *)
Inductive removal : Type :=
| Removed (message : string)
| Refused (status : nat) (message : string).

(** [deleteFile]: [file.deleteOne()] removes the document that was
    found. *)
Definition deleteFile (id : nat) (requester : string) (c : collection)
  : removal * collection :=
  match findById id c with
  | None => (Refused 404 "File not found", c)
  | Some f =>
      if negb (bool_decide (userId f = requester)) then
        (Refused 401 "Not authorized", c)
      else (Removed "File removed", deleteOne (_id f) c)
  end.

(** The objects [buildFileTree] builds: a document with its children. *)
Inductive tree : Type :=
| Node (doc : File) (children : list tree).

(** [buildFileTree(files, parentId)]. As in [getVfsDescendants], the
    recursion follows the [parentId] links; [fuel] bounds its depth and
    [None] stands for a recursion that does not end. *)
Fixpoint buildFileTree (fuel : nat) (files : list File) (parentId : option nat)
  : option (list tree) :=
  match fuel with
  | O => None
  | S fuel' =>
      (fix each (items : list File) : option (list tree) :=
         match items with
         | [] => Some []
         | f :: rest =>
             match buildFileTree fuel' files (Some (_id f)) with
             | None => None
             | Some children => option_map (cons (Node f children)) (each rest)
             end
         end)
        (List.filter (fun f => bool_decide (FileModel.parentId f = parentId)) files)
  end.

(** [getFiles]: the tree of the documents of the requester, from the top
    level. *)
Definition getFiles (fuel : nat) (requester : string) (c : collection)
  : option (list tree) :=
  buildFileTree fuel
    (findMany (fun f => bool_decide (userId f = requester)) c) None.

End FileCtl.

(** ** The code-execution controller: the two directions of the sync *)

Module CodeExec.
Import JsString NodePath HostFs FileModel.

(** *** VFS to host *)

(** The objects [getVfsDescendants] builds: a file with its content, a
    folder with its children. *)
Inductive child : Type :=
| FileChild (name : string) (_id : nat) (content : string)
| FolderChild (name : string) (_id : nat) (children : list child).

Definition child_name (item : child) : string :=
  match item with
  | FileChild n _ _ => n
  | FolderChild n _ _ => n
  end.

Definition children_query (userId : string) (parentId : option nat) (d : File)
  : bool :=
  bool_decide (FileModel.userId d = userId) &&
  bool_decide (FileModel.parentId d = parentId).

(** [getVfsDescendants(userId, parentId)]. The recursion follows the
    [parentId] links of the collection, which need not be well founded:
    [fuel] bounds its depth, and [None] stands for a walk that does not
    end. *)
Fixpoint getVfsDescendants (fuel : nat) (c : collection) (userId : string)
    (parentId : option nat) : option (list child) :=
  match fuel with
  | O => None
  | S fuel' =>
      (fix each (items : list File) : option (list child) :=
         match items with
         | [] => Some []
         | item :: rest =>
             match
               match type item with
               | folder =>
                   option_map (FolderChild (name item) (FileModel._id item))
                     (getVfsDescendants fuel' c userId
                        (Some (FileModel._id item)))
               | file =>
                   Some (FileChild (name item) (FileModel._id item)
                           (content item))
               end
             with
             | None => None
             | Some ch => option_map (cons ch) (each rest)
             end
         end)
        (findMany (children_query userId parentId) c)
  end.

Definition security_alert_pull (itemHostPath base : string) : string :=
  "SECURITY ALERT (VFS->Host): Attempt to write to " ++ dquote ++ itemHostPath
  ++ dquote ++ " outside base " ++ dquote ++ base ++ dquote.

(** The body of the loop of [createHostFilesRecursive], for one item. *)
Fixpoint createHostFile (item : child) (currentHostPath base : string)
    {struct item} : M world unit :=
  let itemHostPath := join_paths [currentHostPath; child_name item] in
  if negb (startsWith itemHostPath base) then
    console_error (security_alert_pull itemHostPath base)
  else
    match item with
    | FolderChild _ _ children =>
        present <- gets (fun w => existsSync (host w) itemHostPath) ;;
        (if negb present then
           on_host (mkdir_recursive itemHostPath) ;;;
           on_host (chmod itemHostPath)
         else ret tt) ;;;
        (fix loop (items : list child) : M world unit :=
           match items with
           | [] => ret tt
           | i :: rest => createHostFile i itemHostPath base ;;; loop rest
           end) children
    | FileChild _ _ content =>
        on_host (writeFile itemHostPath content) ;;;
        on_host (chmod itemHostPath)
    end.

Fixpoint createHostFilesRecursive (items : list child)
    (currentHostPath base : string) : M world unit :=
  match items with
  | [] => ret tt
  | item :: rest =>
      createHostFile item currentHostPath base ;;;
      createHostFilesRecursive rest currentHostPath base
  end.

(** [syncProjectFromVfsToHost]. The root id is [None] when [undefined],
    [Some None] when [null] (the user's top level). *)
Definition syncProjectFromVfsToHost (fuel : nat) (userId : string)
    (vfsProjectRootFolderId : option (option nat))
    (projectRootHostPath : string) : M world unit :=
  match vfsProjectRootFolderId with
  | None =>
      throw
        "VFS Project Root Folder ID is required (can be null for user's VFS root)."
  | Some parentId =>
      present <- gets (fun w => existsSync (host w) projectRootHostPath) ;;
      (if negb present then
         on_host (mkdir_recursive projectRootHostPath) ;;;
         on_host (chmod projectRootHostPath)
       else ret tt) ;;;
      vfsStructure <-
        (fun w =>
           match getVfsDescendants fuel (vfs w) userId parentId with
           | Some l => (Ok l, w)
           | None => (Diverges, w)
           end) ;;
      createHostFilesRecursive vfsStructure projectRootHostPath
        projectRootHostPath
  end.

(** *** Reading one file of the VFS *)

(** What [getFileContentFromVfs] returns or throws. *)
Inductive fetched : Type :=
| Content (content : string)
| RootIsDirectory
| NotAtRoot (path : string)
| FolderNotFound (part path : string)
| FileNotFound (path fileName : string) (parentId : option nat).

(** [{ userId, name, type, parentId }]. *)
Definition typed_query (userId name : string) (t : ftype) (parentId : option nat)
    (d : File) : bool :=
  bool_decide (FileModel.userId d = userId) &&
  bool_decide (FileModel.name d = name) &&
  bool_decide (type d = t) &&
  bool_decide (FileModel.parentId d = parentId).

(** The loop over [pathParts]: the id of the last folder, or the part that
    was not found. *)
Fixpoint descend (c : collection) (userId : string) (pathParts : list string)
    (parentId : option nat) : string + option nat :=
  match pathParts with
  | [] => inr parentId
  | part :: rest =>
      match findOne (typed_query userId part folder parentId) c with
      | None => inl part
      | Some d => descend c userId rest (Some (FileModel._id d))
      end
  end.

(** [getFileContentFromVfs(userId, vfsFullFilePath)]. *)
Definition getFileContentFromVfs (c : collection) (userId vfsFullFilePath : string)
  : fetched :=
  let parts :=
    List.filter (fun p => truthy p) (split "/" vfsFullFilePath) in
  match List.last (List.map Some parts) None with
  | None =>
      (* [pop()] of an empty array: [fileName] is [undefined] *)
      if bool_decide (vfsFullFilePath = "/") then RootIsDirectory
      else
        match findOne (typed_query userId vfsFullFilePath file None) c with
        | None => NotAtRoot vfsFullFilePath
        | Some fileAtRoot => Content (content fileAtRoot)
        end
  | Some fileName =>
      match descend c userId (removelast parts) None with
      | inl part => FolderNotFound part vfsFullFilePath
      | inr parentId =>
          match findOne (typed_query userId fileName file parentId) c with
          | None => FileNotFound vfsFullFilePath fileName parentId
          | Some d => Content (content d)
          end
      end
  end.

(** *** Host to VFS *)

(** What [readdir] and [readFile] report of the directory being pushed:
    regular files with their content, directories with their entries,
    and entries that are neither. The push does not write to the host. *)
Inductive hentry : Type :=
| HostFile (name content : string)
| HostDir (name : string) (entries : list hentry)
| HostOther (name : string).

Definition entry_name (e : hentry) : string :=
  match e with
  | HostFile n _ => n
  | HostDir n _ => n
  | HostOther n => n
  end.

(** The calls that write to the collection, recorded as they happen. *)
Inductive vfs_write : Type :=
| Deleted (id : nat)
| Created (id : nat)
| ContentSaved (id : nat)
| Touched (id : nat).

Definition ignored (name : string) : bool :=
  bool_decide (name ∈ ["node_modules"; ".git"; ".DS_Store"; ".env"; ".vscode"])
  || startsWith name "__pycache__".

(** [{ userId, name: entry.name, parentId: vfsParentId }]. *)
Definition entry_query (userId name : string) (parentId : option nat) (d : File)
  : bool :=
  bool_decide (FileModel.userId d = userId) &&
  bool_decide (FileModel.name d = name) &&
  bool_decide (FileModel.parentId d = parentId).

Definition new_folder (userId name : string) (parentId : option nat) (now : Z)
    (id : nat) : File :=
  mkFile id name folder EmptyString parentId userId false [] now.

Definition new_file (userId name content : string) (parentId : option nat)
    (now : Z) (id : nat) : File :=
  mkFile id name file content parentId userId false [] now.

Definition pstate : Type := collection * list vfs_write.

(** [if (vfsItem && vfsItem.type !== expectedType) { deleteOne; vfsItem = null }]. *)
Definition drop_mismatch (expectedType : ftype) (vfsItem : option File)
    (st : pstate) : option File * pstate :=
  match vfsItem with
  | Some d =>
      if bool_decide (type d = expectedType) then (Some d, st)
      else (None, (deleteOne (FileModel._id d) st.1,
                   (st.2 ++ [Deleted (FileModel._id d)])%list))
  | None => (None, st)
  end.

(** The body of the loop of [recursivelyScanHostAndUploadToVFS], for one
    entry; [now] is what the clock shows during the call. *)
Fixpoint scanEntry (userId : string) (now : Z) (entry : hentry)
    (currentHostDir : string) (vfsParentId : option nat)
    (projectRootHostPathForSecurity : string) (st : pstate) {struct entry}
  : pstate :=
  let hostEntryPath := join_paths [currentHostDir; entry_name entry] in
  if ignored (entry_name entry) then st
  else if negb (startsWith hostEntryPath projectRootHostPathForSecurity) then st
  else
    let vfsItem := findOne (entry_query userId (entry_name entry) vfsParentId) st.1 in
    match entry with
    | HostDir name entries =>
        let '(vfsItem, st) := drop_mismatch folder vfsItem st in
        let '(vfsItem, st) :=
          match vfsItem with
          | Some d => (d, st)
          | None =>
              let '(d, c) := insert (new_folder userId name vfsParentId now) st.1 in
              (d, (c, (st.2 ++ [Created (FileModel._id d)])%list))
          end in
        (fix loop (es : list hentry) (st : pstate) : pstate :=
           match es with
           | [] => st
           | e :: rest =>
               loop rest
                 (scanEntry userId now e hostEntryPath
                    (Some (FileModel._id vfsItem))
                    projectRootHostPathForSecurity st)
           end) entries st
    | HostFile name content =>
        let '(vfsItem, st) := drop_mismatch file vfsItem st in
        match vfsItem with
        | Some d =>
            if negb (bool_decide (FileModel.content d = content)) then
              (save (set_updatedAt (set_content d content) now) st.1,
               (st.2 ++ [ContentSaved (FileModel._id d)])%list)
            else if (1000 <? now - updatedAt d)%Z then
              (save (set_updatedAt d now) st.1,
               (st.2 ++ [Touched (FileModel._id d)])%list)
            else st
        | None =>
            let '(d, c) := insert (new_file userId name content vfsParentId now) st.1 in
            (c, (st.2 ++ [Created (FileModel._id d)])%list)
        end
    | HostOther _ => st
    end.

Fixpoint recursivelyScanHostAndUploadToVFS (userId : string) (now : Z)
    (entries : list hentry) (currentHostDir : string) (vfsParentId : option nat)
    (projectRootHostPathForSecurity : string) (st : pstate) : pstate :=
  match entries with
  | [] => st
  | e :: rest =>
      recursivelyScanHostAndUploadToVFS userId now rest currentHostDir
        vfsParentId projectRootHostPathForSecurity
        (scanEntry userId now e currentHostDir vfsParentId
           projectRootHostPathForSecurity st)
  end.

(** [syncWorkspaceToVfs]: [hostRoot] is [None] when the path does not
    exist, and the entries of the directory otherwise. The result is the
    collection after the call, with the writes the call made. *)
Definition syncWorkspaceToVfs (userId : string) (now : Z)
    (projectRootHostPath : string) (hostRoot : option (list hentry))
    (vfsProjectRootFolderId : option nat) (c : collection) : pstate :=
  match hostRoot with
  | None => (c, [])
  | Some entries =>
      recursivelyScanHostAndUploadToVFS userId now entries projectRootHostPath
        vfsProjectRootFolderId projectRootHostPath (c, [])
  end.

End CodeExec.

(** ** The container registry (dockerController.js) *)

Module DockerCtl.
Import JsString NodePath HostFs FileModel.

(** The value kept in [activeContainers] under the key
    [userId-terminalId]. *)
Record sessionInfo : Type := mkSession {
  container : nat;
  s_userId : string;
  terminalId : string;
  projectSlug : string;
  vfsProjectRootId : option nat
}.

(** What the server did, in order; the properties below read the order of
    the calls off this list. The lines the registry and the terminal write
    to the console are not recorded: the console of the world holds those
    of the pull and of the workspace handlers. *)
Inductive event : Type :=
| PullCompleted (hostPath : string)
| ContainerCreated (id : nat) (workspace : string)
| ContainerStarted (id : nat)
| ContainerRemoved (id : nat)
| SessionRegistered (key : string) (id : nat)
| ImagePulled (image : string).

Record server : Type := mkServer {
  base : world;
  activeContainers : gmap string sessionInfo;
  containerTimers : gset string;
  events : list event
}.

Definition with_base (w : world) (s : server) : server :=
  mkServer w (activeContainers s) (containerTimers s) (events s).
Definition with_containers (m : gmap string sessionInfo) (s : server) : server :=
  mkServer (base s) m (containerTimers s) (events s).
Definition with_timers (t : gset string) (s : server) : server :=
  mkServer (base s) (activeContainers s) t (events s).

Definition emit (e : event) : M server unit :=
  modify (fun s => mkServer (base s) (activeContainers s) (containerTimers s)
                     (events s ++ [e])%list).

Definition on_world {A} (m : M world A) : M server A := zoom base with_base m.

(** The configuration passed to [docker.createContainer], as far as it
    varies. *)
Record containerConfig : Type := mkConfig {
  Image : string;
  Binds : string;
  Memory : N;
  NanoCpus : N;
  label_user : string;
  label_terminalSession : string;
  label_projectSlug : string;
  label_vfsProjectId : option nat
}.

(** The answers of the Docker daemon: [None] and [false] are calls that
    throw. An error of [exec] is known by its message; its status code is
    not part of the model. *)
Record daemon : Type := mkDaemon {
  inspect : nat -> option (bool * bool);
  listed : string -> option bool;
  pull_image : string -> bool;
  create : containerConfig -> option nat;
  start : nat -> bool;
  exec : nat -> string -> string -> result string
}.

Definition LANGUAGE_IMAGES : list (string * string) :=
  [("javascript", "node:18-alpine"); ("python", "python:3.11-slim");
   ("cpp", "gcc:12-alpine"); ("java", "eclipse-temurin:17-jdk-alpine");
   ("php", "php:8.2-alpine"); ("ruby", "ruby:3.2-alpine");
   ("react", "node:18-alpine"); ("vue", "node:18-alpine");
   ("angular", "node:18-alpine"); ("express", "node:18-alpine");
   ("shell", "alpine:latest"); ("node", "node:18-alpine")].

(** Memory in MB and CPU in thousandths of a core. *)
Definition LANGUAGE_RESOURCES : list (string * (N * N)) :=
  [("javascript", (256, 500)); ("python", (256, 500)); ("cpp", (512, 1000));
   ("java", (1024, 2000)); ("php", (256, 500)); ("ruby", (256, 500));
   ("react", (512, 1000)); ("vue", (512, 1000)); ("angular", (512, 1000));
   ("express", (256, 500)); ("shell", (128, 250)); ("node", (256, 500));
   ("default", (256, 500))]%N.

Fixpoint assoc {A} (k : string) (l : list (string * A)) : option A :=
  match l with
  | [] => None
  | (k', v) :: rest => if bool_decide (k' = k) then Some v else assoc k rest
  end.

Definition session_key (userId terminalId : string) : string :=
  userId ++ "-" ++ terminalId.

(** [imageExists]: a failing [listImages] counts as an absent image. *)
Definition imageExists (d : daemon) (image : string) : bool :=
  default false (listed d image).

Definition resetContainerTimer (userId terminalId : string) : M server unit :=
  modify (fun s => with_timers ({[session_key userId terminalId]} ∪ containerTimers s) s).

Section Containers.
Variable cwd : string.
Variable d : daemon.

Definition BASE_PROJECT_DIR : string := resolve cwd [cwd; "projects"].

(** The first part of the [try] of [createDockerContainer]: a container
    registered for the session is returned when it runs or is paused, and
    removed otherwise. *)
Definition reuse_existing (userId terminalId : string) : M server (option nat) :=
  existingSessionInfo <-
    gets (fun s => activeContainers s !! session_key userId terminalId) ;;
  match existingSessionInfo with
  | Some info =>
      match inspect d (container info) with
      | Some (running, paused) =>
          if running || paused then
            resetContainerTimer userId terminalId ;;;
            ret (Some (container info))
          else emit (ContainerRemoved (container info)) ;;; ret None
      | None => emit (ContainerRemoved (container info)) ;;; ret None
      end
  | None => ret None
  end.

(** The workspace of the project on the host is created when missing.
    When it is there the source calls [chmod] on it and catches what that
    call throws, with a warning: on that branch nothing fails. *)
Definition ensure_workspace (projectWorkspaceOnHost : string) : M server unit :=
  present <- gets (fun s => existsSync (host (base s)) projectWorkspaceOnHost) ;;
  if negb present then
    on_world (on_host (mkdir_recursive projectWorkspaceOnHost)) ;;;
    on_world (on_host (chmod projectWorkspaceOnHost))
  else ret tt.

(** The image is pulled when it is not there. *)
Definition ensure_image (image : string) : M server unit :=
  if negb (imageExists d image) then
    if pull_image d image then emit (ImagePulled image)
    else throw ("pull of " ++ image ++ " failed")
  else ret tt.

(** [docker.createContainer], [newContainer.start()] and, after them,
    [activeContainers.set]. *)
Definition create_start_register (userId terminalId : string)
    (effectiveProjectSlug projectWorkspaceOnHost : string)
    (vfsProjectRootIdForSync : option nat) (config : containerConfig)
  : M server nat :=
  match create d config with
  | None => throw "createContainer failed"
  | Some newContainer =>
      emit (ContainerCreated newContainer projectWorkspaceOnHost) ;;;
      if start d newContainer then
        emit (ContainerStarted newContainer) ;;;
        modify (fun s =>
          with_containers
            (<[session_key userId terminalId :=
                 mkSession newContainer userId terminalId
                   effectiveProjectSlug vfsProjectRootIdForSync]>
               (activeContainers s)) s) ;;;
        emit (SessionRegistered (session_key userId terminalId) newContainer) ;;;
        resetContainerTimer userId terminalId ;;;
        ret newContainer
      else throw "container start failed"
  end.

(** [projectSlugForHost || userId.toString()]. *)
Definition effective_slug (userId : string) (projectSlugForHost : option string)
  : string :=
  if truthy_opt projectSlugForHost then default EmptyString projectSlugForHost
  else userId.

Definition workspace_of (userId : string) (projectSlugForHost : option string)
  : string :=
  resolve cwd [BASE_PROJECT_DIR; userId; effective_slug userId projectSlugForHost].

Definition config_for (userId terminalId language : string)
    (projectSlugForHost : option string) (vfsProjectRootIdForSync : option nat)
  : containerConfig :=
  let normalizedLang := toLowerCase language in
  let image := default "alpine:latest" (assoc normalizedLang LANGUAGE_IMAGES) in
  let resources :=
    default (256, 500)%N (assoc normalizedLang LANGUAGE_RESOURCES) in
  mkConfig image
    (workspace_of userId projectSlugForHost ++ ":/workspace:rw")
    (resources.1 * 1024 * 1024)%N (resources.2 * 1000000)%N
    userId terminalId (effective_slug userId projectSlugForHost)
    vfsProjectRootIdForSync.

(** The body of the [try] of [createDockerContainer]. *)
Definition createDockerContainer_try (userId terminalId language : string)
    (projectSlugForHost : option string) (vfsProjectRootIdForSync : option nat)
  : M server nat :=
  if negb (truthy userId) || negb (truthy terminalId) then
    throw "User ID and Terminal ID are required to create a container"
  else
    let config := config_for userId terminalId language projectSlugForHost
                    vfsProjectRootIdForSync in
    reused <- reuse_existing userId terminalId ;;
    match reused with
    | Some c => ret c
    | None =>
        ensure_workspace (workspace_of userId projectSlugForHost) ;;;
        ensure_image (Image config) ;;;
        create_start_register userId terminalId
          (effective_slug userId projectSlugForHost)
          (workspace_of userId projectSlugForHost)
          vfsProjectRootIdForSync config
    end.

(** [createDockerContainer]: its [catch] removes the entry of the session
    from the map and throws again. *)
Definition createDockerContainer (userId terminalId language : string)
    (projectSlugForHost : option string) (vfsProjectRootIdForSync : option nat)
  : M server nat :=
  try_catch
    (createDockerContainer_try userId terminalId language projectSlugForHost
       vfsProjectRootIdForSync)
    (fun message =>
       modify (fun s =>
         with_containers (delete (session_key userId terminalId)
                            (activeContainers s)) s) ;;;
       throw ("Failed to create container: " ++ message)).

(** [executeCommandInContainer], for commands outside a terminal;
    [projectSlug] and [vfsProjectId] are the fields of [options]. *)
Definition executeCommandInContainer (userId terminalId command : string)
    (workingDir language : string) (projectSlug : option string)
    (vfsProjectId : option nat) : M server string :=
  let key := session_key userId terminalId in
  sessionInfo <- gets (fun s => activeContainers s !! key) ;;
  let recreate : M server nat :=
    createDockerContainer userId terminalId language projectSlug vfsProjectId ;;;
    sessionInfo <- gets (fun s => activeContainers s !! key) ;;
    match sessionInfo with
    | None => throw "Failed to get session info after container creation for exec."
    | Some info => ret (container info)
    end in
  c <-
    match sessionInfo with
    | None => recreate
    | Some info =>
        match inspect d (container info) with
        | Some (true, _) => ret (container info)
        | Some (false, _) =>
            if start d (container info) then
              emit (ContainerStarted (container info)) ;;; ret (container info)
            else recreate
        | None => recreate
        end
    end ;;
  resetContainerTimer userId terminalId ;;;
  match exec d c command workingDir with
  | Ok output => ret output
  | Throw message =>
      (if includes (toLowerCase message) "no such container" then
         modify (fun s =>
           with_timers (containerTimers s ∖ {[key]})
             (with_containers (delete key (activeContainers s)) s))
       else ret tt) ;;;
      throw ("Command execution failed: " ++ message)
  | Diverges => fun s => (Diverges, s)
  end.

End Containers.

End DockerCtl.

(** ** The terminal socket (terminalController.js) *)

Module Terminal.
Import JsString NodePath HostFs FileModel CodeExec DockerCtl.

(** The payload of [initialize_pty]. *)
Record init_data : Type := mkInit {
  data_userId : option string;
  data_environment : option string;
  data_initialVfsPath : option string
}.

Definition project_query (userId name : string) (f : File) : bool :=
  bool_decide (FileModel.userId f = userId) &&
  bool_decide (FileModel.name f = name) &&
  bool_decide (parentId f = None) &&
  bool_decide (type f = folder).

Section Socket.
Variable cwd : string.
Variable d : daemon.
(** The depth allowed to the walk of the VFS. *)
Variable fuel : nat.

(** [prepareContainerForPty], up to the container it returns. *)
Definition prepareContainerForPty (userId ptySessionId environment : string)
    (projectSlugForHostDir : string) (vfsProjectRootId : option nat)
  : M server nat :=
  let language :=
    match assoc (toLowerCase environment) LANGUAGE_IMAGES with
    | Some _ => toLowerCase environment
    | None => "shell"
    end in
  createDockerContainer cwd d userId ptySessionId language
    (Some projectSlugForHostDir) vfsProjectRootId.

(** The project context of a terminal: the root document or [None],
    and the folder on the host. *)
Definition project_context (userId clientInitialVfsPath : string)
    (c : collection) : result (option File * string) :=
  if bool_decide (clientInitialVfsPath = "/") then Ok (None, userId)
  else
    match List.filter (fun p => truthy p) (split "/" clientInitialVfsPath) with
    | potentialProjectSlug :: _ =>
        match findOne (project_query userId potentialProjectSlug) c with
        | Some vfsProjectRootDoc =>
            Ok (Some vfsProjectRootDoc, potentialProjectSlug)
        | None => Ok (None, userId)
        end
    | [] => Throw "Invalid clientInitialVfsPath."
    end.

(** The handler of [initialize_pty] on the socket [socketId], up to the
    point where the shell is attached to the container it obtained. The
    result is the message emitted to the client. *)
Definition initialize_pty (socketId : string) (data : init_data)
  : M server string :=
  try_catch
    (let environment :=
       if truthy_opt (data_environment data)
       then default EmptyString (data_environment data) else "shell" in
     let clientInitialVfsPath :=
       if truthy_opt (data_initialVfsPath data)
       then normalize (default EmptyString (data_initialVfsPath data))
       else "/" in
     if negb (truthy_opt (data_userId data)) then throw "User ID is required."
     else
       let userId := default EmptyString (data_userId data) in
       ctx <- (fun s => (project_context userId clientInitialVfsPath
                           (vfs (base s)), s)) ;;
       let '(vfsProjectRootDoc, projectSlugForHostDir) := ctx in
       let projectRootHostPath :=
         resolve cwd [DockerCtl.BASE_PROJECT_DIR cwd; userId; projectSlugForHostDir] in
       let vfsProjectRootIdToSync := option_map FileModel._id vfsProjectRootDoc in
       on_world (syncProjectFromVfsToHost fuel userId
                   (Some vfsProjectRootIdToSync) projectRootHostPath) ;;;
       emit (PullCompleted projectRootHostPath) ;;;
       prepareContainerForPty userId socketId environment
         projectSlugForHostDir vfsProjectRootIdToSync ;;;
       resetContainerTimer userId socketId ;;;
       ret "pty_initialized")
    (fun message => ret ("pty_error: Failed to start PTY session: " ++ message)).

End Socket.

End Terminal.

(** * Properties *)

(** ** The monad *)

Lemma bind_ok {S A B} (m : M S A) (k : A -> M S B) s a s1 :
  m s = (Ok a, s1) -> bind m k s = k a s1.
Proof. unfold bind. intros ->. reflexivity. Qed.

Lemma bind_throw {S A B} (m : M S A) (k : A -> M S B) s e s1 :
  m s = (Throw e, s1) -> bind m k s = (Throw e, s1).
Proof. unfold bind. intros ->. reflexivity. Qed.

Lemma bind_diverges {S A B} (m : M S A) (k : A -> M S B) s s1 :
  m s = (Diverges, s1) -> bind m k s = (Diverges, s1).
Proof. unfold bind. intros ->. reflexivity. Qed.

(** The steps of a computation, unfolded. *)
Ltac run :=
  unfold on_host, console_error in *;
  unfold bind, ret, throw, gets, modify, get, put, lift_result, try_catch,
    zoom in *; cbn [fst snd] in *.

Lemma startsWith_app (p rest : string) : JsString.startsWith (p ++ rest) p = true.
Proof.
  unfold JsString.startsWith. induction p as [|a p IH]; simpl.
  - destruct rest; reflexivity.
  - destruct (ascii_dec a a); [exact IH|contradiction].
Qed.

(** ** PermissionGate: [checkProjectPermission] *)

Section PermissionGate.
Import JsString FileModel AuthUtils.

Lemma truthy_nonempty s : truthy s = true <-> s <> EmptyString.
Proof. destruct s; cbn; split; congruence. Qed.

(** The share entry the check reads: the first one for the actor. *)
Definition share_of (actor : string) (root : File) : option sharedUser :=
  List.find (fun s => bool_decide (user s = actor)) (sharedWith root).

(** An id of the actor or of the owner, or a slug, that is empty: the
    check answers [false], whatever the collection holds. No caller makes
    such a call: the handlers answer 400 for a request without owner or
    slug, and the actor is the user of the session. *)
Lemma checkProjectPermission_missing (c : collection) (actor owner slug : string)
    (level : perm) :
  truthy actor = false \/ truthy owner = false \/ truthy slug = false ->
  checkProjectPermission c actor owner slug level = Ok false.
Proof.
  unfold checkProjectPermission. intros [-> | [-> | ->]]; cbn [negb orb];
    rewrite ?orb_true_r; reflexivity.
Qed.

(** C4: for the actors, owners and slugs there are, which are not empty,
    the owner is always authorized; for another actor a missing project
    root is an error and not [false]; a [write] share grants both levels,
    a [read] share grants [read] only, no share grants nothing; and
    whenever [write] is granted so is [read]. *)
Theorem checkProjectPermission_spec (c : collection) (actor owner slug : string)
    (Hactor : truthy actor = true) (Howner : truthy owner = true)
    (Hslug : truthy slug = true) :
  (actor = owner ->
     forall level, checkProjectPermission c actor owner slug level = Ok true) /\
  (actor <> owner ->
     match findOne (is_project_root owner slug) c with
     | None =>
         forall level, exists message,
           checkProjectPermission c actor owner slug level = Throw message
     | Some root =>
         match share_of actor root with
         | None =>
             forall level,
               checkProjectPermission c actor owner slug level = Ok false
         | Some entry =>
             match permission entry with
             | write =>
                 forall level,
                   checkProjectPermission c actor owner slug level = Ok true
             | read =>
                 checkProjectPermission c actor owner slug read = Ok true /\
                 checkProjectPermission c actor owner slug write = Ok false
             end
         end
     end) /\
  (checkProjectPermission c actor owner slug write = Ok true ->
   checkProjectPermission c actor owner slug read = Ok true).
Proof.
  unfold checkProjectPermission, share_of.
  rewrite Hactor, Howner, Hslug. cbn [negb orb].
  split; [|split].
  - intros ->. intros level. rewrite bool_decide_eq_true_2; reflexivity.
  - intros Hne. rewrite bool_decide_eq_false_2 by assumption.
    destruct (findOne _ c) as [root|]; [|intros level; eauto].
    destruct (List.find _ (sharedWith root)) as [entry|]; [|reflexivity].
    destruct (permission entry); [split; reflexivity|].
    intros []; reflexivity.
  - destruct (bool_decide (actor = owner)); [reflexivity|].
    destruct (findOne _ c) as [root|]; [|discriminate].
    destruct (List.find _ (sharedWith root)) as [entry|]; [|discriminate].
    destruct (permission entry); [discriminate|reflexivity].
Qed.

Definition demo_root : File :=
  mkFile 1 "demo" folder EmptyString None "u1" false [mkShared "u2" read] 0.

Lemma checkProjectPermission_spec_witness :
  checkProjectPermission (mkColl [demo_root] 2) "u2" "u1" "demo" read = Ok true /\
  checkProjectPermission (mkColl [demo_root] 2) "u2" "u1" "demo" write = Ok false.
Proof.
  pose proof (checkProjectPermission_spec (mkColl [demo_root] 2) "u2" "u1" "demo"
                eq_refl eq_refl eq_refl) as (_ & H & _).
  apply H. discriminate.
Defined.

End PermissionGate.

(** ** [updateFile] *)

Section UpdateFile.
Import JsString FileModel FileCtl.

Lemma find_map_replace (id : nat) (f : File) (l : list File) :
  FileModel._id f = id ->
  is_Some (List.find (fun d => bool_decide (FileModel._id d = id)) l) ->
  List.find (fun d => bool_decide (FileModel._id d = id))
    (List.map (fun d' => if bool_decide (FileModel._id d' = FileModel._id f)
                         then f else d') l) = Some f.
Proof.
  intros Hid. induction l as [|d l IH]; cbn; intros Hsome.
  - destruct Hsome; discriminate.
  - rewrite Hid. destruct (bool_decide (FileModel._id d = id)) eqn:E.
    + rewrite bool_decide_eq_true_2 by assumption. reflexivity.
    + rewrite E. rewrite Hid in IH. apply IH. assumption.
Qed.

Lemma findById_save (c : collection) (f f' : File) :
  findById (FileModel._id f) c = Some f ->
  FileModel._id f' = FileModel._id f ->
  findById (FileModel._id f) (save f' c) = Some f'.
Proof.
  unfold findById, findOne, save. cbn. intros Hf Hid.
  apply find_map_replace; [assumption|]. rewrite Hf. eauto.
Qed.

Lemma findById_id (c : collection) (id : nat) (f : File) :
  findById id c = Some f -> FileModel._id f = id.
Proof.
  unfold findById, findOne. intros H. apply List.find_some in H as [_ H].
  apply bool_decide_eq_true in H. assumption.
Qed.

(** C10: on a file of the caller, an update whose content is the empty
    string is answered with success and leaves the stored content as it
    was; so does an empty or absent name with the stored name. *)
Theorem updateFile_empty_not_applied (c : collection) (id : nat) (f : File)
    (requester : string) (name content : option string)
    (Hfound : findById id c = Some f) (Hown : userId f = requester) :
  exists f',
    updateFile id requester name content c = (Sent 200 f', save f' c) /\
    findById id (save f' c) = Some f' /\
    (content = Some EmptyString -> FileModel.content f' = FileModel.content f) /\
    (name = Some EmptyString \/ name = None ->
     FileModel.name f' = FileModel.name f).
Proof.
  pose proof (findById_id _ _ _ Hfound) as Hid. subst id.
  unfold updateFile. rewrite Hfound.
  rewrite bool_decide_eq_true_2 by assumption. cbn [negb].
  eexists. split; [reflexivity|]. split.
  - apply findById_save; [assumption|reflexivity].
  - split.
    + intros ->. reflexivity.
    + intros [-> | ->]; reflexivity.
Qed.

Lemma updateFile_empty_not_applied_witness :
  exists f',
    updateFile 1 "u1" (Some EmptyString) (Some EmptyString)
      (mkColl [mkFile 1 "a.js" file "let x" None "u1" false [] 0] 2)
    = (Sent 200 f',
       save f' (mkColl [mkFile 1 "a.js" file "let x" None "u1" false [] 0] 2)) /\
    FileModel.content f' = "let x" /\ FileModel.name f' = "a.js".
Proof.
  destruct (updateFile_empty_not_applied
              (mkColl [mkFile 1 "a.js" file "let x" None "u1" false [] 0] 2)
              1 (mkFile 1 "a.js" file "let x" None "u1" false [] 0) "u1"
              (Some EmptyString) (Some EmptyString) eq_refl eq_refl)
    as (f' & Hrun & _ & Hc & Hn).
  exists f'. split; [exact Hrun|]. split; [apply Hc; reflexivity|].
  apply Hn. left. reflexivity.
Defined.

End UpdateFile.

(** ** PathResolver: [resolveUserProjectPath] *)

Section PathResolver.
Import JsString NodePath HostFs WorkspaceFs.

(** What the check of [resolveUserProjectPath] does establish: a path that
    is returned starts, as a string, with the root of the project. *)
Lemma resolveUserProjectPath_startsWith (cwd userId projectSlug : string)
    (rel : option string) (p : string) :
  resolveUserProjectPath cwd userId projectSlug rel = Ok p ->
  startsWith p (resolve cwd [BASE_PROJECT_DIR cwd; userId; projectSlug]) = true.
Proof.
  unfold resolveUserProjectPath.
  destruct (truthy userId); [|discriminate].
  destruct (truthy projectSlug); [|discriminate]. cbn [negb].
  set (root := resolve cwd [BASE_PROJECT_DIR cwd; userId; projectSlug]).
  set (full := resolve cwd [root; _]).
  destruct (startsWith full root) eqn:Hs; cbn [negb andb].
  - intros [= <-]. assumption.
  - destruct (bool_decide (full = root)) eqn:He; cbn [negb]; [|discriminate].
    intros [= <-]. apply bool_decide_eq_true in He.
    rewrite He in Hs. unfold startsWith in Hs.
    rewrite (proj2 (String.prefix_correct root root)) in Hs; [discriminate|].
    clear. induction root as [|a r IH]; [reflexivity|].
    cbn. rewrite IH. reflexivity.
Qed.

(** C1, at a failing input: for owner [u1] and project [demo], the
    relative path [../demo2/secret.txt] has a [..] segment and resolves
    outside the project root, and is returned instead of being refused:
    the check compares strings, and the root of [demo] is a prefix of
    the path of its sibling [demo2]. *)
Theorem resolveUserProjectPath_sibling_escape :
  resolveUserProjectPath "/srv/app" "u1" "demo" (Some "../demo2/secret.txt")
  = Ok "/srv/app/projects/u1/demo2/secret.txt" /\
  resolve "/srv/app" [BASE_PROJECT_DIR "/srv/app"; "u1"; "demo"]
  = "/srv/app/projects/u1/demo" /\
  ~ within "/srv/app/projects/u1/demo" "/srv/app/projects/u1/demo2/secret.txt".
Proof.
  split; [vm_compute; reflexivity|]. split; [vm_compute; reflexivity|].
  unfold within. apply (bool_decide_eq_false_1 _). vm_compute. reflexivity.
Qed.

(** An escape that leaves the family of the root's name is refused. *)
Example resolveUserProjectPath_refuses_etc :
  exists message,
    resolveUserProjectPath "/srv/app" "u1" "demo" (Some "../../../../../etc/passwd")
    = Throw message /\ startsWith message "Access Denied" = true.
Proof. eexists. split; vm_compute; reflexivity. Qed.

End PathResolver.

(** ** The file-system surface and its gate *)

Section Surface.
Import JsString NodePath HostFs FileModel AuthUtils WorkspaceFs.

Variable cwd : string.

(** What the check in a handler is: the value [checkProjectPermission]
    computes on the collection, and the world with the warning the check
    has written, if any. *)
Definition permission_warnings (c : collection)
    (loggedInUserId projectOwnerId projectSlug : string) : list string :=
  if negb (truthy loggedInUserId) || negb (truthy projectOwnerId)
     || negb (truthy projectSlug) then
    ["AUTH_CHECK: Missing IDs or slug for permission check."]
  else if bool_decide (loggedInUserId = projectOwnerId) then []
  else
    match findOne (is_project_root projectOwnerId projectSlug) c with
    | None =>
        ["AUTH_CHECK: Project VFS root not found for owner "
         ++ projectOwnerId ++ ", slug " ++ projectSlug ++ "."]
    | Some _ => []
    end.

Definition logged (lines : list string) (w : world) : world :=
  mkWorld (vfs w) (host w) (console w ++ lines).

Lemma logged_nil w : logged [] w = w.
Proof. destruct w. unfold logged. cbn. rewrite app_nil_r. reflexivity. Qed.

Lemma checkPermission_run actor owner slug level w :
  checkPermission actor owner slug level w
  = (checkProjectPermission (vfs w) actor owner slug level,
     logged (permission_warnings (vfs w) actor owner slug) w).
Proof.
  unfold checkPermission, checkProjectPermission, permission_warnings.
  destruct (negb (truthy actor) || negb (truthy owner) || negb (truthy slug));
    [reflexivity|].
  destruct (bool_decide (actor = owner)); [rewrite logged_nil; reflexivity|].
  unfold bind, gets. destruct (findOne _ (vfs w)) as [root|]; [|reflexivity].
  rewrite logged_nil.
  destruct (List.find _ (sharedWith root)) as [entry|]; [|reflexivity].
  destruct level, (permission entry); reflexivity.
Qed.

(** A check that answers [true] has written nothing. *)
Lemma checkPermission_true actor owner slug level w :
  checkProjectPermission (vfs w) actor owner slug level = Ok true ->
  checkPermission actor owner slug level w = (Ok true, w).
Proof.
  intros H. rewrite checkPermission_run, H. f_equal.
  unfold checkProjectPermission in H. unfold permission_warnings.
  destruct (negb (truthy actor) || negb (truthy owner) || negb (truthy slug));
    [discriminate H|].
  destruct (bool_decide (actor = owner)); [apply logged_nil|].
  destruct (findOne _ (vfs w)); [apply logged_nil|discriminate H].
Qed.

Lemma checkPermission_allowed actor owner slug level w w0 :
  checkPermission actor owner slug level w = (Ok true, w0) ->
  checkProjectPermission (vfs w) actor owner slug level = Ok true /\ w0 = w.
Proof.
  intros H. pose proof H as H'. rewrite checkPermission_run in H'.
  injection H' as Hv _. rewrite (checkPermission_true _ _ _ _ _ Hv) in H.
  injection H as <-. auto.
Qed.

(** The world after a check that answered [false]: the session gives the
    actor an id that is not empty, and then nothing was written; for an
    empty id the check has written its warning. *)
Definition refused (actor : string) (w : world) : world :=
  if truthy actor then w
  else logged ["AUTH_CHECK: Missing IDs or slug for permission check."] w.

Lemma checkPermission_false actor owner slug level w :
  truthy owner = true -> truthy slug = true ->
  checkProjectPermission (vfs w) actor owner slug level = Ok false ->
  checkPermission actor owner slug level w = (Ok false, refused actor w).
Proof.
  intros Ho Hs H. rewrite checkPermission_run, H. f_equal.
  unfold checkProjectPermission in H. unfold permission_warnings, refused.
  rewrite Ho, Hs in *. cbn [negb orb] in *. rewrite !orb_false_r in *.
  destruct (truthy actor); cbn [negb] in *; [|reflexivity].
  destruct (bool_decide (actor = owner)); [discriminate H|].
  destruct (findOne _ (vfs w)); [apply logged_nil|discriminate H].
Qed.

(** A request that names owner, project and path in its query. *)
Definition complete (req : request) : Prop :=
  truthy_opt (q_userId req) = true /\ truthy_opt (q_projectSlug req) = true /\
  truthy_opt (q_path req) = true.

Definition denied (level : perm) (req : request) (w : world) : Prop :=
  checkProjectPermission (vfs w) (req_user req) (str (q_userId req))
    (str (q_projectSlug req)) level = Ok false.

Lemma truthy_str o : truthy_opt o = true -> truthy (str o) = true.
Proof. destruct o; [auto|discriminate]. Qed.

Ltac gate Hc Hd :=
  let H1 := fresh in let H2 := fresh in let H3 := fresh in
  destruct Hc as (H1 & H2 & H3); cbv zeta;
  rewrite ?H1, ?H2, ?H3; cbn [negb orb];
  unfold denied in Hd; unfold try_catch, bind;
  rewrite (checkPermission_false _ _ _ _ _ (truthy_str _ H1) (truthy_str _ H2) Hd);
  cbn [negb]; unfold ret; eauto.

(** X1: [writeFileContent] refuses an actor who lacks [write] on the
    project: a request that names owner, project, path and content is
    answered with 403, and the world is left as it is (but for the
    warning of the check, should the id of the actor be empty). *)
Lemma writeFileContent_denied (req : request) (w : world) :
  complete req -> is_Some (b_content req) -> denied write req w ->
  exists message,
    writeFileContent cwd req w
    = (Ok (mkRes 403 (Message message)), refused (req_user req) w).
Proof.
  intros Hc [content Hb] Hd. unfold writeFileContent. rewrite Hb. gate Hc Hd.
Qed.

(** X2: [createDirectory] refuses an actor who lacks [write] on the
    project: a request that names owner and project, in its body or in its
    query, and the path in its body is answered with 403, and the world is
    left as it is (but for the warning of the check, should the id of the
    actor be empty). *)
Lemma createDirectory_denied (req : request) (w : world) :
  let projectOwnerId := or_opt (b_userId req) (q_userId req) in
  let projectSlug := or_opt (b_projectSlug req) (q_projectSlug req) in
  truthy_opt projectOwnerId = true -> truthy_opt projectSlug = true ->
  truthy_opt (b_path req) = true ->
  checkProjectPermission (vfs w) (req_user req) (str projectOwnerId)
    (str projectSlug) write = Ok false ->
  exists message,
    createDirectory cwd req w
    = (Ok (mkRes 403 (Message message)), refused (req_user req) w).
Proof.
  cbv zeta. intros Hu Hs Hp Hd. unfold createDirectory. cbv zeta.
  rewrite Hu, Hs, Hp. cbn [negb orb]. unfold try_catch, bind.
  rewrite (checkPermission_false _ _ _ _ _ (truthy_str _ Hu) (truthy_str _ Hs) Hd).
  cbn [negb]. unfold ret. eauto.
Qed.

(** The three others ask for [read]: they refuse an actor without any
    share. *)
Lemma deleteItem_denied (req : request) (w : world) :
  complete req -> denied read req w ->
  exists message,
    deleteItem cwd req w
    = (Ok (mkRes 403 (Message message)), refused (req_user req) w).
Proof. intros Hc Hd. unfold deleteItem. gate Hc Hd. Qed.

Lemma renameItem_denied (req : request) (w : world) :
  complete req -> denied read req w ->
  exists message,
    renameItem cwd req w
    = (Ok (mkRes 403 (Message message)), refused (req_user req) w).
Proof. intros Hc Hd. unfold renameItem. gate Hc Hd. Qed.

Lemma moveItem_denied (req : request) (w : world) :
  complete req -> denied read req w ->
  exists message,
    moveItem cwd req w
    = (Ok (mkRes 403 (Message message)), refused (req_user req) w).
Proof. intros Hc Hd. unfold moveItem. gate Hc Hd. Qed.

End Surface.

Section SurfaceScenario.
Import JsString NodePath HostFs FileModel AuthUtils WorkspaceFs.

(** Owner [u1] has shared the project [demo] with [u2] at [read]; the
    working copy holds [app.js]. *)
Definition demo_host : fs :=
  list_to_map
    [(["srv"], HDir); (["srv"; "app"], HDir);
     (["srv"; "app"; "projects"], HDir);
     (["srv"; "app"; "projects"; "u1"], HDir);
     (["srv"; "app"; "projects"; "u1"; "demo"], HDir);
     (["srv"; "app"; "projects"; "u1"; "demo"; "app.js"], HFile "console.log(1)")].

Definition demo_world : world := mkWorld (mkColl [demo_root] 2) demo_host [].

Definition app_js : list string := ["srv"; "app"; "projects"; "u1"; "demo"; "app.js"].

Definition by_u2 (oldPath newName newPath content : option string) : request :=
  mkReq "u2" (Some "u1") (Some "demo") (Some "app.js") None None None
    content oldPath newName newPath.

(** C2, at a failing input: [u2] holds a [read] share of [demo]. Writing
    a file is refused with 403 and reading succeeds, but deleting,
    renaming and moving [app.js] are answered with 200 and carried out
    on the working copy: these three handlers ask the gate for [read]. *)
Theorem read_share_deletes_renames_moves :
  checkProjectPermission (vfs demo_world) "u2" "u1" "demo" write = Ok false /\
  (writeFileContent "/srv/app" (by_u2 None None None (Some "x")) demo_world).1
  = Ok (mkRes 403
          (Message "Forbidden: You don't have permission to write to this file.")) /\
  (readFileContent "/srv/app" (by_u2 None None None None) demo_world).1
  = Ok (mkRes 200 (FileContent "console.log(1)")) /\
  (let '(r, w) := deleteItem "/srv/app" (by_u2 None None None None) demo_world in
   r = Ok (mkRes 200 (Message "Item deleted successfully.")) /\
   host demo_world !! app_js = Some (HFile "console.log(1)") /\
   host w !! app_js = None) /\
  (let '(r, w) :=
     renameItem "/srv/app" (by_u2 (Some "app.js") (Some "b.js") None None)
       demo_world in
   r = Ok (mkRes 200 (Message "Item renamed successfully.")) /\
   host w !! app_js = None /\
   host w !! ["srv"; "app"; "projects"; "u1"; "demo"; "b.js"]
   = Some (HFile "console.log(1)")) /\
  (let '(r, w) :=
     moveItem "/srv/app" (by_u2 (Some "app.js") None (Some "lib/app.js") None)
       demo_world in
   r = Ok (mkRes 200 (Message "Item moved successfully.")) /\
   host w !! app_js = None /\
   host w !! ["srv"; "app"; "projects"; "u1"; "demo"; "lib"; "app.js"]
   = Some (HFile "console.log(1)")).
Proof. vm_compute. repeat split. Qed.

End SurfaceScenario.

(** ** The host file system *)

Section HostFacts.
Import JsString NodePath HostFs.
Implicit Types m : fs.

(** [m'] has everything [m] has, and directories where [m] has nothing. *)
Definition grows (m m' : fs) : Prop :=
  forall k, m' !! k = m !! k \/ (m !! k = None /\ m' !! k = Some HDir).

Lemma grows_refl m : grows m m.
Proof. intros k. left. reflexivity. Qed.

Lemma grows_trans m1 m2 m3 : grows m1 m2 -> grows m2 m3 -> grows m1 m3.
Proof.
  intros H12 H23 k. destruct (H12 k) as [E|[E1 E2]], (H23 k) as [F|[F1 F2]].
  - left. congruence.
  - right. split; congruence.
  - right. split; congruence.
  - congruence.
Qed.

Lemma mkdir_from_grows rest : forall pre m r m',
  mkdir_from pre rest m = (r, m') -> r <> Diverges /\ grows m m'.
Proof.
  induction rest as [|seg rest IH]; intros pre m r m'; cbn.
  - intros [= <- <-]. split; [discriminate|apply grows_refl].
  - destruct (m !! (pre ++ [seg])%list) as [[c|]|] eqn:E.
    + intros [= <- <-]. split; [discriminate|apply grows_refl].
    + apply IH.
    + intros H. apply IH in H as [Hr Hg]. split; [assumption|].
      eapply grows_trans; [|exact Hg].
      intros k. destruct (decide (k = (pre ++ [seg])%list)) as [->|Hne].
      * right. split; [assumption|apply lookup_insert_eq].
      * left. apply lookup_insert_ne. congruence.
Qed.

Lemma mkdir_recursive_grows p m r m' :
  mkdir_recursive p m = (r, m') -> r <> Diverges /\ grows m m'.
Proof. apply mkdir_from_grows. Qed.

Lemma chmod_same p m r m' : chmod p m = (r, m') -> r <> Diverges /\ m' = m.
Proof.
  unfold chmod. destruct (existsSync m p); intros [= <- <-]; split; done.
Qed.

(** A write that succeeds puts the content at the key of the path; where
    there was a directory it fails; a write that fails changes nothing. *)
Lemma writeFile_spec p c m r m' :
  writeFile p c m = (r, m') ->
  match r with
  | Ok _ => m' = <[key_of p := HFile c]> m /\ m !! key_of p <> Some HDir
  | Throw _ => m' = m
  | Diverges => False
  end.
Proof.
  unfold writeFile, key_of. destruct (locate p) as [k t]. cbn [fst].
  destruct k as [|seg k]; [intros [= <- <-]; reflexivity|].
  destruct (node_at m _) as [[c'|]|]; try (intros [= <- <-]; reflexivity).
  destruct (m !! (seg :: k)) as [[c'|]|] eqn:E; try (intros [= <- <-]; reflexivity).
  - destruct t; intros [= <- <-]; [reflexivity|]. split; [reflexivity|discriminate].
  - destruct t; intros [= <- <-]; [reflexivity|]. split; [reflexivity|discriminate].
Qed.

End HostFacts.

(** ** SyncEngine: pull *)

Section Pull.
Import JsString NodePath HostFs FileModel CodeExec.

(** Induction on the objects of [getVfsDescendants], with the hypothesis
    for every child of a folder. *)
Lemma child_rect' (P : child -> Prop)
    (Hfile : forall n id c, P (FileChild n id c))
    (Hfolder : forall n id children, Forall P children -> P (FolderChild n id children)) :
  forall item, P item.
Proof.
  fix IH 1. intros [n id c|n id children]; [apply Hfile|].
  apply Hfolder. induction children as [|i rest IHrest]; constructor.
  - apply IH.
  - exact IHrest.
Qed.

(** The files a walk writes, in the order of the walk: the key of the host
    path computed for each [FileChild] that is reached and not skipped,
    with the content of the node. *)
Fixpoint targets_of (item : child) (currentHostPath base : string)
  : list (list string * string) :=
  let itemHostPath := join_paths [currentHostPath; child_name item] in
  if negb (startsWith itemHostPath base) then []
  else
    match item with
    | FileChild _ _ content => [(key_of itemHostPath, content)]
    | FolderChild _ _ children =>
        (fix loop (items : list child) : list (list string * string) :=
           match items with
           | [] => []
           | i :: rest => (targets_of i itemHostPath base ++ loop rest)%list
           end) children
    end.

Fixpoint targets (items : list child) (currentHostPath base : string)
  : list (list string * string) :=
  match items with
  | [] => []
  | i :: rest =>
      (targets_of i currentHostPath base ++ targets rest currentHostPath base)%list
  end.

(** The lines the walk logs: one for each entry it skips. *)
Fixpoint alerts_of (item : child) (currentHostPath base : string) : list string :=
  let itemHostPath := join_paths [currentHostPath; child_name item] in
  if negb (startsWith itemHostPath base) then
    [security_alert_pull itemHostPath base]
  else
    match item with
    | FileChild _ _ _ => []
    | FolderChild _ _ children =>
        (fix loop (items : list child) : list string :=
           match items with
           | [] => []
           | i :: rest => (alerts_of i itemHostPath base ++ loop rest)%list
           end) children
    end.

Fixpoint alerts (items : list child) (currentHostPath base : string) : list string :=
  match items with
  | [] => []
  | i :: rest =>
      (alerts_of i currentHostPath base ++ alerts rest currentHostPath base)%list
  end.

(** The content written last at a key. *)
Fixpoint last_write (ts : list (list string * string)) (k : list string)
  : option string :=
  match ts with
  | [] => None
  | (k', c) :: rest =>
      match last_write rest k with
      | Some c' => Some c'
      | None => if decide (k' = k) then Some c else None
      end
  end.

Lemma last_write_app ts1 ts2 k :
  last_write (ts1 ++ ts2) k =
  match last_write ts2 k with
  | Some c => Some c
  | None => last_write ts1 k
  end.
Proof.
  induction ts1 as [|[k' c] ts1 IH]; cbn.
  - destruct (last_write ts2 k); reflexivity.
  - rewrite IH. destruct (last_write ts2 k); reflexivity.
Qed.

Lemma last_write_none ts k : last_write ts k = None -> k ∉ ts.*1.
Proof.
  induction ts as [|[k' c] ts IH]; cbn; intros H Hin.
  - apply elem_of_nil in Hin. contradiction.
  - destruct (last_write ts k); [discriminate|].
    destruct (decide (k' = k)); [discriminate|].
    apply elem_of_cons in Hin as [->|Hin]; [contradiction|]. apply IH; trivial.
Qed.

Lemma last_write_some ts k : k ∈ ts.*1 -> is_Some (last_write ts k).
Proof.
  intros Hin. destruct (last_write ts k) eqn:E; [eauto|].
  apply last_write_none in E. contradiction.
Qed.

Lemma last_write_in ts k c : last_write ts k = Some c -> (k, c) ∈ ts.
Proof.
  induction ts as [|[k' c'] ts IH]; cbn; [discriminate|].
  destruct (last_write ts k) as [c''|].
  - intros [= ->]. right. apply IH. reflexivity.
  - destruct (decide (k' = k)) as [->|]; [|discriminate].
    intros [= ->]. left.
Qed.

Lemma last_write_nodup ts k c :
  NoDup ts.*1 -> (k, c) ∈ ts -> last_write ts k = Some c.
Proof.
  induction ts as [|[k' c'] ts IH]; cbn; intros Hnd Hin.
  - apply elem_of_nil in Hin. contradiction.
  - apply NoDup_cons in Hnd as [Hk' Hnd].
    apply elem_of_cons in Hin as [[= -> ->]|Hin].
    + destruct (last_write ts k') eqn:E.
      * exfalso. apply Hk'. apply last_write_in in E.
        apply list_elem_of_fmap. exists (k', s). split; [reflexivity|exact E].
      * rewrite decide_True; reflexivity.
    + rewrite IH by assumption. reflexivity.
Qed.

(** How a walk may change the host: outside the keys [T] it only adds
    directories where there was nothing; at a key of [T] it may also put a
    regular file where there was no directory. *)
Definition evolves (T : list (list string)) (m m' : fs) : Prop :=
  forall k,
    m' !! k = m !! k \/
    (m !! k = None /\ m' !! k = Some HDir) \/
    (k ∈ T /\ m !! k <> Some HDir /\ exists c, m' !! k = Some (HFile c)).

Lemma grows_evolves T m m' : grows m m' -> evolves T m m'.
Proof. intros H k. destruct (H k) as [E|E]; [left|right; left]; exact E. Qed.

Lemma evolves_refl T m : evolves T m m.
Proof. intros k. left. reflexivity. Qed.

Lemma evolves_trans T1 T2 m1 m2 m3 :
  evolves T1 m1 m2 -> evolves T2 m2 m3 -> evolves (T1 ++ T2) m1 m3.
Proof.
  intros H12 H23 k.
  destruct (H12 k) as [E|[[E1 E2]|(Hin & E1 & c & E2)]],
           (H23 k) as [F|[[F1 F2]|(Hin' & F1 & c' & F2)]].
  - left. congruence.
  - right. left. split; congruence.
  - right. right. split; [apply elem_of_app; right; exact Hin'|].
    split; [congruence|]. eauto.
  - right. left. split; congruence.
  - congruence.
  - congruence.
  - right. right. split; [apply elem_of_app; left; exact Hin|].
    split; [exact E1|]. exists c. congruence.
  - congruence.
  - right. right. split; [apply elem_of_app; left; exact Hin|].
    split; [exact E1|]. eauto.
Qed.

Lemma evolves_weaken T T' m m' : T ⊆ T' -> evolves T m m' -> evolves T' m m'.
Proof.
  intros Hsub H k. destruct (H k) as [E|[E|(Hin & E)]]; [left; exact E|right; left; exact E|].
  right. right. split; [apply Hsub; exact Hin|exact E].
Qed.

Lemma evolves_keeps T m m' k v :
  evolves T m m' -> m !! k = Some v -> k ∉ T -> m' !! k = Some v.
Proof.
  intros H Hk Hn. destruct (H k) as [E|[[E _]|(Hin & _)]]; congruence.
Qed.

Lemma evolves_exists T m m' k :
  evolves T m m' -> is_Some (m !! k) -> is_Some (m' !! k).
Proof.
  intros H [v Hk]. destruct (H k) as [E|[[E _]|(_ & _ & c & E)]].
  - rewrite E, Hk. eauto.
  - congruence.
  - rewrite E. eauto.
Qed.

(** The loops inside [createHostFile], [targets_of] and [alerts_of] are the
    functions on lists. *)
Lemma createHostFile_folder n id children cur base :
  createHostFile (FolderChild n id children) cur base =
  let itemHostPath := join_paths [cur; n] in
  if negb (startsWith itemHostPath base) then
    console_error (security_alert_pull itemHostPath base)
  else
    (present <- gets (fun w => existsSync (host w) itemHostPath) ;;
     (if negb present then
        on_host (mkdir_recursive itemHostPath) ;;; on_host (chmod itemHostPath)
      else ret tt) ;;;
     createHostFilesRecursive children itemHostPath base).
Proof.
  cbn [createHostFile child_name]. cbv zeta.
  destruct (negb _); [reflexivity|].
  match goal with |- context [?loop children] =>
    replace (loop children)
      with (createHostFilesRecursive children (join_paths [cur; n]) base)
  end; [reflexivity|].
  induction children as [|i rest IH]; [reflexivity|].
  cbn [createHostFilesRecursive]. rewrite IH. reflexivity.
Qed.

Lemma targets_of_folder n id children cur base :
  targets_of (FolderChild n id children) cur base =
  if negb (startsWith (join_paths [cur; n]) base) then []
  else targets children (join_paths [cur; n]) base.
Proof.
  cbn [targets_of child_name]. cbv zeta. destruct (negb _); [reflexivity|].
  induction children as [|i rest IH]; [reflexivity|].
  cbn [targets]. rewrite IH. reflexivity.
Qed.

Lemma alerts_of_folder n id children cur base :
  alerts_of (FolderChild n id children) cur base =
  if negb (startsWith (join_paths [cur; n]) base) then
    [security_alert_pull (join_paths [cur; n]) base]
  else alerts children (join_paths [cur; n]) base.
Proof.
  cbn [alerts_of child_name]. cbv zeta. destruct (negb _); [reflexivity|].
  induction children as [|i rest IH]; [reflexivity|].
  cbn [alerts]. rewrite IH. reflexivity.
Qed.

(** The calls on the host, in the world. *)
Lemma on_host_mkdir p w r w' :
  on_host (mkdir_recursive p) w = (r, w') ->
  r <> Diverges /\ vfs w' = vfs w /\ console w' = console w /\
  grows (host w) (host w').
Proof.
  run. destruct (mkdir_recursive p (host w)) as [r1 m1] eqn:E.
  intros [= <- <-]. apply mkdir_recursive_grows in E as [Hr Hg]. cbn. auto.
Qed.

Lemma on_host_chmod p w r w' :
  on_host (chmod p) w = (r, w') -> r <> Diverges /\ w' = w.
Proof.
  run. destruct (chmod p (host w)) as [r1 m1] eqn:E.
  intros [= <- <-]. apply chmod_same in E as [Hr ->]. split; [exact Hr|].
  destruct w; reflexivity.
Qed.

Lemma on_host_writeFile p c w r w' :
  on_host (writeFile p c) w = (r, w') ->
  vfs w' = vfs w /\ console w' = console w /\
  match r with
  | Ok _ => host w' = <[key_of p := HFile c]> (host w) /\
            host w !! key_of p <> Some HDir
  | Throw _ => host w' = host w
  | Diverges => False
  end.
Proof.
  run. destruct (writeFile p c (host w)) as [r1 m1] eqn:E.
  intros [= <- <-]. apply writeFile_spec in E. cbn. auto.
Qed.

(** What the walk does for one item, and for a list of items. *)
Definition walk_spec (ts : list (list string * string)) (als : list string)
    (w : world) (r : result unit) (w' : world) : Prop :=
  r <> Diverges /\ vfs w' = vfs w /\ evolves ts.*1 (host w) (host w') /\
  (r = Ok tt ->
     console w' = (console w ++ als)%list /\
     forall k c, last_write ts k = Some c -> host w' !! k = Some (HFile c)).

Lemma walk_spec_nil w : walk_spec [] [] w (Ok tt) w.
Proof.
  split; [discriminate|]. split; [reflexivity|]. split; [apply evolves_refl|].
  intros _. split; [rewrite app_nil_r; reflexivity|]. intros k c Hlw; cbn in Hlw; discriminate Hlw.
Qed.

Lemma walk_spec_seq ts1 ts2 als1 als2 w w1 r w2 :
  walk_spec ts1 als1 w (Ok tt) w1 -> walk_spec ts2 als2 w1 r w2 ->
  walk_spec (ts1 ++ ts2) (als1 ++ als2) w r w2.
Proof.
  intros (_ & Hv1 & He1 & H1) (Hr & Hv2 & He2 & H2).
  destruct (H1 eq_refl) as [Hc1 Hw1].
  split; [exact Hr|]. split; [congruence|]. split.
  { rewrite fmap_app. eapply evolves_trans; eassumption. }
  intros ->. destruct (H2 eq_refl) as [Hc2 Hw2]. split.
  { rewrite Hc2, Hc1, app_assoc. reflexivity. }
  intros k c. rewrite last_write_app.
  destruct (last_write ts2 k) as [c2|] eqn:E2.
  - intros [= ->]. apply Hw2. exact E2.
  - intros E1. apply Hw1 in E1. apply last_write_none in E2.
    eapply evolves_keeps; eassumption.
Qed.

Lemma walk_spec_fail ts1 ts2 als als' w r w1 :
  walk_spec ts1 als w r w1 -> r <> Ok tt -> walk_spec (ts1 ++ ts2) als' w r w1.
Proof.
  intros (Hr & Hv & He & _) Hne. split; [exact Hr|]. split; [exact Hv|]. split.
  - rewrite fmap_app. eapply evolves_weaken; [|exact He].
    intros k Hk. apply elem_of_app. left. exact Hk.
  - intros ->. contradiction.
Qed.

Lemma createHostFile_spec base : forall item cur w r w',
  createHostFile item cur base w = (r, w') ->
  walk_spec (targets_of item cur base) (alerts_of item cur base) w r w'.
Proof.
  induction item as [n id c|n id children IH] using child_rect'; intros cur w r w'.
  - cbn [createHostFile targets_of alerts_of child_name]. cbv zeta.
    destruct (negb _).
    { run. intros [= <- <-]. split; [discriminate|]. split; [reflexivity|].
      split; [apply evolves_refl|]. intros _. split; [reflexivity|]. intros k c' Hlw; cbn in Hlw; discriminate Hlw. }
    set (p := join_paths [cur; n]).
    unfold bind at 1. destruct (on_host (writeFile p c) w) as [r1 w1] eqn:E1.
    apply on_host_writeFile in E1 as (Hv & Hc & E1).
    destruct r1 as [[]|e|]; [| |contradiction].
    + destruct E1 as [E1 Hnd]. intros E2. apply on_host_chmod in E2 as [Hr ->].
      split; [exact Hr|]. split; [exact Hv|]. split.
      { intros k. cbn. destruct (decide (k = key_of p)) as [->|Hne].
        - right. right. split; [left|]. split; [exact Hnd|].
          exists c. rewrite E1. apply lookup_insert_eq.
        - left. rewrite E1. apply lookup_insert_ne. congruence. }
      intros _. split; [rewrite Hc, app_nil_r; reflexivity|].
      intros k c' Hlw. cbn [last_write] in Hlw.
      destruct (decide (key_of p = k)) as [<-|]; [|discriminate Hlw].
      injection Hlw as <-. rewrite E1. apply lookup_insert_eq.
    + intros [= <- <-]. split; [discriminate|]. split; [exact Hv|]. split.
      { rewrite E1. apply evolves_refl. }
      discriminate.
  - rewrite createHostFile_folder, targets_of_folder, alerts_of_folder. cbv zeta.
    set (p := join_paths [cur; n]). destruct (negb (startsWith p base)).
    { run. intros [= <- <-]. split; [discriminate|]. split; [reflexivity|].
      split; [apply evolves_refl|]. intros _. split; [reflexivity|]. intros k c' Hlw; cbn in Hlw; discriminate Hlw. }
    (* the directory *)
    unfold bind at 1, gets at 1.
    assert (Hdir : forall r1 w1,
      (if negb (existsSync (host w) p)
       then on_host (mkdir_recursive p) ;;; on_host (chmod p)
       else ret tt) w = (r1, w1) -> walk_spec [] [] w r1 w1).
    { intros r1 w1.
      destruct (negb (existsSync (host w) p)).
      - unfold bind. destruct (on_host (mkdir_recursive p) w) as [r2 w2] eqn:E2.
        apply on_host_mkdir in E2 as (Hr2 & Hv2 & Hc2 & Hg2).
        destruct r2 as [[]|e|]; [| |contradiction].
        + intros E3. apply on_host_chmod in E3 as [Hr3 ->].
          split; [exact Hr3|]. split; [exact Hv2|].
          split; [apply grows_evolves; exact Hg2|]. intros _.
          split; [rewrite Hc2, app_nil_r; reflexivity|]. intros k c' Hlw; cbn in Hlw; discriminate Hlw.
        + intros [= <- <-]. split; [discriminate|]. split; [exact Hv2|].
          split; [apply grows_evolves; exact Hg2|]. discriminate.
      - intros [= <- <-]. apply walk_spec_nil. }
    unfold bind at 1.
    match goal with |- context [match ?m w with _ => _ end] =>
      destruct (m w) as [r1 w1] eqn:E1 end.
    pose proof (Hdir _ _ eq_refl) as E1'. clear Hdir E1. rename E1' into E1.
    destruct r1 as [[]|e|].
    2:{ intros [= <- <-]. apply (walk_spec_fail [] _ _ _ _ _ _ E1). discriminate. }
    2:{ destruct E1 as [E1 _]. contradiction. }
    intros E2.
    change (targets children p base) with ([] ++ targets children p base)%list.
    change (alerts children p base) with ([] ++ alerts children p base)%list.
    eapply walk_spec_seq; [exact E1|]. clear E1 w.
    revert w1 r w' E2. induction IH as [|i rest Hi _ IHrest]; intros w r w'.
    + cbn. intros [= <- <-]. apply walk_spec_nil.
    + cbn [createHostFilesRecursive targets alerts]. unfold bind at 1.
      destruct (createHostFile i p base w) as [r1 w1] eqn:E1.
      apply Hi in E1. destruct r1 as [[]|e|].
      * intros E2. eapply walk_spec_seq; [exact E1|]. apply IHrest. exact E2.
      * intros [= <- <-]. eapply walk_spec_fail; [exact E1|discriminate].
      * destruct E1 as [E1 _]. contradiction.
Qed.

Lemma createHostFilesRecursive_spec base items : forall cur w r w',
  createHostFilesRecursive items cur base w = (r, w') ->
  walk_spec (targets items cur base) (alerts items cur base) w r w'.
Proof.
  induction items as [|i rest IH]; intros cur w r w'.
  - cbn. intros [= <- <-]. apply walk_spec_nil.
  - cbn [createHostFilesRecursive targets alerts]. unfold bind at 1.
    destruct (createHostFile i cur base w) as [r1 w1] eqn:E1.
    apply createHostFile_spec in E1. destruct r1 as [[]|e|].
    + intros E2. eapply walk_spec_seq; [exact E1|]. apply IH. exact E2.
    + intros [= <- <-]. eapply walk_spec_fail; [exact E1|discriminate].
    + destruct E1 as [E1 _]. contradiction.
Qed.



(** A node the walk reaches, with the host path computed for it: neither
    the node nor a folder above it is skipped. *)
Inductive reaches (base : string) : list child -> string -> child -> string -> Prop :=
| reaches_here items cur item :
    item ∈ items ->
    startsWith (join_paths [cur; child_name item]) base = true ->
    reaches base items cur item (join_paths [cur; child_name item])
| reaches_below items cur n id children item q :
    FolderChild n id children ∈ items ->
    startsWith (join_paths [cur; n]) base = true ->
    reaches base children (join_paths [cur; n]) item q ->
    reaches base items cur item q.

Lemma targets_elem base items cur item t :
  item ∈ items -> t ∈ targets_of item cur base -> t ∈ targets items cur base.
Proof.
  induction items as [|i rest IH]; intros Hin Ht.
  - apply elem_of_nil in Hin. contradiction.
  - cbn [targets]. apply elem_of_app.
    apply elem_of_cons in Hin as [->|Hin]; [left; exact Ht|right; auto].
Qed.

Lemma reaches_target base items cur n id c q :
  reaches base items cur (FileChild n id c) q ->
  (key_of q, c) ∈ targets items cur base.
Proof.
  intros H. remember (FileChild n id c) as item eqn:Hitem.
  induction H as [items cur item Hin Hs|items cur n' id' children item q Hin Hs H IH].
  - subst item. eapply targets_elem; [exact Hin|].
    cbn [targets_of child_name] in *. cbv zeta. rewrite Hs. cbn [negb]. left.
  - eapply targets_elem; [exact Hin|]. rewrite targets_of_folder, Hs. cbn [negb].
    apply IH. exact Hitem.
Qed.

(** The files a pull into [projectRootHostPath] writes. *)
Definition pull_targets (fuel : nat) (c : collection) (userId : string)
    (vfsProjectRootFolderId : option (option nat)) (projectRootHostPath : string)
  : list (list string * string) :=
  match vfsProjectRootFolderId with
  | Some parentId =>
      match getVfsDescendants fuel c userId parentId with
      | Some vfsStructure =>
          targets vfsStructure projectRootHostPath projectRootHostPath
      | None => []
      end
  | None => []
  end.

(** The whole pull, whether it returns, throws or does not end. *)
Lemma syncProjectFromVfsToHost_evolves fuel userId rootId path w r w' :
  syncProjectFromVfsToHost fuel userId rootId path w = (r, w') ->
  vfs w' = vfs w /\
  evolves (pull_targets fuel (vfs w) userId rootId path).*1 (host w) (host w').
Proof.
  unfold syncProjectFromVfsToHost, pull_targets.
  destruct rootId as [parentId|].
  2:{ intros [= <- <-]. split; [reflexivity|apply evolves_refl]. }
  unfold bind at 1, gets at 1. unfold bind at 1.
  assert (Hdir : forall r1 w1,
    (if negb (existsSync (host w) path)
     then on_host (mkdir_recursive path) ;;; on_host (chmod path)
     else ret tt) w = (r1, w1) -> vfs w1 = vfs w /\ grows (host w) (host w1)).
  { intros r1 w1. destruct (negb _).
    - unfold bind. destruct (on_host (mkdir_recursive path) w) as [r2 w2] eqn:E2.
      apply on_host_mkdir in E2 as (Hr2 & Hv2 & Hc2 & Hg2).
      destruct r2 as [[]|e|]; [| |contradiction].
      + intros E3. apply on_host_chmod in E3 as [_ ->]. auto.
      + intros [= <- <-]. auto.
    - intros [= <- <-]. split; [reflexivity|apply grows_refl]. }
  match goal with |- context [match ?m w with _ => _ end] =>
    destruct (m w) as [r1 w1] eqn:E1 end.
  destruct (Hdir _ _ eq_refl) as [Hv1 Hg1]. clear Hdir E1.
  destruct r1 as [[]|e|].
  2,3: intros [= <- <-]; split; [exact Hv1|apply grows_evolves; exact Hg1].
  unfold bind at 1. rewrite Hv1.
  destruct (getVfsDescendants fuel (vfs w) userId parentId) as [vfsStructure|].
  2:{ intros [= <- <-]. split; [exact Hv1|apply grows_evolves; exact Hg1]. }
  intros E2. apply createHostFilesRecursive_spec in E2 as (_ & Hv2 & He2 & _).
  split; [congruence|].
  change (targets vfsStructure path path) with ([] ++ targets vfsStructure path path)%list.
  rewrite fmap_app. eapply evolves_trans; [|exact He2].
  apply grows_evolves. exact Hg1.
Qed.

(** C7: a pull deletes nothing on the host. Whatever the outcome of the
    call, a path that existed before still exists after, and when it is
    not the path the pull computes for one of the files it writes, it
    still holds what it held. *)
Theorem pull_keeps_host_paths (fuel : nat) (userId : string)
    (vfsProjectRootFolderId : option (option nat)) (projectRootHostPath : string)
    (w : world) (r : result unit) (w' : world) (k : list string) (v : hnode) :
  syncProjectFromVfsToHost fuel userId vfsProjectRootFolderId projectRootHostPath w
  = (r, w') ->
  host w !! k = Some v ->
  is_Some (host w' !! k) /\
  (k ∉ (pull_targets fuel (vfs w) userId vfsProjectRootFolderId
          projectRootHostPath).*1 ->
   host w' !! k = Some v).
Proof.
  intros Hrun Hk. apply syncProjectFromVfsToHost_evolves in Hrun as [_ He]. split.
  - eapply evolves_exists; [exact He|]. rewrite Hk. eauto.
  - intros Hn. eapply evolves_keeps; eassumption.
Qed.


End Pull.

Section PullTerminates.
Import JsString NodePath HostFs FileModel CodeExec.

(** Ids are handed out in order and a document is created after its
    parent: every document is older than its children. *)
Definition parents_first (c : collection) : Prop :=
  forall f, f ∈ docs c ->
    FileModel._id f < next_id c /\
    forall p, parentId f = Some p -> p < FileModel._id f.

(** A bound on the depth of the tree below a parent. *)
Definition depth_bound (c : collection) (parentId : option nat) : nat :=
  match parentId with
  | None => S (next_id c)
  | Some p => next_id c - p
  end.

Lemma children_query_spec userId parent f :
  children_query userId parent f = true ->
  FileModel.userId f = userId /\ parentId f = parent.
Proof.
  unfold children_query. intros H. apply andb_true_iff in H as [H1 H2].
  apply bool_decide_eq_true in H1, H2. auto.
Qed.

(** On such a collection the walk of the descendants ends. *)
Lemma getVfsDescendants_returns (c : collection) (userId : string) :
  parents_first c ->
  forall fuel parent, depth_bound c parent < fuel ->
    is_Some (getVfsDescendants fuel c userId parent).
Proof.
  intros Hc. induction fuel as [|fuel IH]; intros parent Hb; [lia|].
  cbn [getVfsDescendants].
  assert (Hitems : forall f, In f (findMany (children_query userId parent) c) ->
                     f ∈ docs c /\ parentId f = parent).
  { intros f Hin. apply List.filter_In in Hin as [Hin Hq].
    apply children_query_spec in Hq as [_ Hq]. split; [|exact Hq].
    apply list_elem_of_In. exact Hin. }
  induction (findMany (children_query userId parent) c) as [|item rest IHrest].
  - eauto.
  - destruct IHrest as [l Hl]. { intros f Hf. apply Hitems. right. exact Hf. }
    destruct (Hitems item (or_introl eq_refl)) as [Hin Hp].
    destruct (Hc item Hin) as [Hid Hpar].
    destruct (type item).
    + cbn. rewrite Hl. cbn. eauto.
    + destruct (IH (Some (FileModel._id item))) as [ch Hch].
      { cbn. destruct parent as [p|]; cbn in Hb.
        - specialize (Hpar p Hp). lia.
        - lia. }
      rewrite Hch. cbn. rewrite Hl. cbn. eauto.
Qed.

(** With that much fuel the pull returns or throws. *)
Lemma syncProjectFromVfsToHost_returns fuel userId rootId path w :
  parents_first (vfs w) -> S (next_id (vfs w)) < fuel ->
  (syncProjectFromVfsToHost fuel userId rootId path w).1 <> Diverges.
Proof.
  intros Hc Hfuel. unfold syncProjectFromVfsToHost.
  destruct rootId as [parentId|]; [|discriminate].
  unfold bind at 1, gets at 1. unfold bind at 1.
  assert (Hdir : forall r1 w1,
    (if negb (existsSync (host w) path)
     then on_host (mkdir_recursive path) ;;; on_host (chmod path)
     else ret tt) w = (r1, w1) -> vfs w1 = vfs w /\ r1 <> Diverges).
  { intros r1 w1. destruct (negb _).
    - unfold bind. destruct (on_host (mkdir_recursive path) w) as [r2 w2] eqn:E2.
      apply on_host_mkdir in E2 as (Hr2 & Hv2 & Hc2 & Hg2).
      destruct r2 as [[]|e|]; [| |contradiction].
      + intros E3. apply on_host_chmod in E3 as [Hr3 ->]. auto.
      + intros [= <- <-]. auto.
    - intros [= <- <-]. split; [reflexivity|discriminate]. }
  match goal with |- context [match ?m w with _ => _ end] =>
    destruct (m w) as [r1 w1] eqn:E1 end.
  destruct (Hdir _ _ eq_refl) as [Hv1 Hr1]. clear Hdir E1.
  destruct r1 as [[]|e|]; [|discriminate|contradiction].
  unfold bind at 1. rewrite Hv1.
  destruct (getVfsDescendants_returns (vfs w) userId Hc fuel parentId) as [l Hl].
  { destruct parentId; cbn; lia. }
  rewrite Hl.
  destruct (createHostFilesRecursive l path path w1) as [r2 w2] eqn:E2.
  apply createHostFilesRecursive_spec in E2 as [Hr2 _]. exact Hr2.
Qed.

End PullTerminates.

Section PullScenario.
Import JsString NodePath HostFs FileModel CodeExec.

(** The project [demo] of [u1]: [src/app.js], and two files named [a]. *)
Definition owned (id : nat) (n : string) (t : ftype) (c : string)
    (parent : option nat) : File :=
  mkFile id n t c parent "u1" false [] 0.

Definition demo_vfs : collection :=
  mkColl [owned 1 "demo" folder EmptyString None;
          owned 2 "src" folder EmptyString (Some 1);
          owned 3 "app.js" file "console.log(1)" (Some 2)] 4.

Definition demo_path : string := "/srv/app/projects/u1/demo".

Definition build_host : fs :=
  list_to_map
    [(["srv"], HDir); (["srv"; "app"], HDir); (["srv"; "app"; "projects"], HDir);
     (["srv"; "app"; "projects"; "u1"], HDir);
     (["srv"; "app"; "projects"; "u1"; "demo"], HDir);
     (["srv"; "app"; "projects"; "u1"; "demo"; "out.o"], HFile "artifact")].

Definition before_pull : world := mkWorld demo_vfs build_host [].

Definition after_pull : world :=
  (syncProjectFromVfsToHost 5 "u1" (Some (Some 1)) demo_path before_pull).2.

Lemma pull_scenario_runs :
  syncProjectFromVfsToHost 5 "u1" (Some (Some 1)) demo_path before_pull
  = (Ok tt, after_pull).
Proof. vm_compute. reflexivity. Defined.

Lemma pull_keeps_host_paths_witness :
  host after_pull !! ["srv"; "app"; "projects"; "u1"; "demo"; "out.o"]
  = Some (HFile "artifact").
Proof.
  apply (pull_keeps_host_paths 5 "u1" (Some (Some 1)) demo_path before_pull
           (Ok tt) after_pull _ _ pull_scenario_runs).
  - vm_compute. reflexivity.
  - apply (bool_decide_eq_false_1 _). vm_compute. reflexivity.
Defined.




(** A name that leads to a sibling of the root whose name extends the name
    of the root is not skipped: the test is on strings. *)
Example pull_sibling_prefix_written :
  let w := mkWorld (mkColl [owned 1 "demo" folder EmptyString None;
                            owned 2 "../demo2/f" file "x" (Some 1);
                            owned 3 "../../y" file "x" (Some 1)] 4)
             (<[["srv"; "app"; "projects"; "u1"; "demo2"] := HDir]> build_host) [] in
  let '(r, w') := syncProjectFromVfsToHost 5 "u1" (Some (Some 1)) demo_path w in
  r = Ok tt /\
  host w' !! ["srv"; "app"; "projects"; "u1"; "demo2"; "f"] = Some (HFile "x") /\
  host w' !! ["srv"; "app"; "projects"; "y"] = None /\
  length (console w') = 1.
Proof. vm_compute. repeat split. Qed.

End PullScenario.

(** ** SyncEngine: push *)

Section Collection.
Import JsString NodePath HostFs FileModel CodeExec.
Implicit Types c : collection.
Implicit Types f d : File.

(** What identifies a document for [findOne] in the push: owner, parent
    and name. *)
Definition key3 (f : File) : string * option nat * string :=
  (userId f, parentId f, name f).

(** Ids are unique and below the next id. *)
Definition ids_ok (c : collection) : Prop :=
  NoDup (FileModel._id <$> docs c) /\
  forall f, f ∈ docs c -> FileModel._id f < next_id c.

(** No two documents of an owner share parent and name. *)
Definition names_unique (c : collection) : Prop := NoDup (key3 <$> docs c).

Definition look (c : collection) (userId : string) (parent : option nat)
    (n : string) : option File :=
  findOne (entry_query userId n parent) c.

Lemma entry_query_key userId n parent f :
  entry_query userId n parent f = true <-> key3 f = (userId, parent, n).
Proof.
  unfold entry_query, key3. rewrite !andb_true_iff, !bool_decide_eq_true.
  split; [intros [[-> ->] ->]; reflexivity|intros [= -> -> ->]; auto].
Qed.

Lemma look_some c u p n f :
  look c u p n = Some f -> f ∈ docs c /\ key3 f = (u, p, n).
Proof.
  unfold look, findOne. intros H. apply List.find_some in H as [Hin Hq].
  split; [apply list_elem_of_In; exact Hin|apply entry_query_key; exact Hq].
Qed.

Lemma look_none c u p n f :
  look c u p n = None -> f ∈ docs c -> key3 f <> (u, p, n).
Proof.
  unfold look, findOne. intros H Hin Hk.
  apply list_elem_of_In in Hin.
  pose proof (List.find_none _ _ H f Hin) as Hq.
  apply entry_query_key in Hk. congruence.
Qed.

Lemma same_id_same_doc (l : list File) f g :
  NoDup (FileModel._id <$> l) -> f ∈ l -> g ∈ l ->
  FileModel._id f = FileModel._id g -> f = g.
Proof.
  induction l as [|x l IH]; cbn; intros Hnd Hf Hg Hid.
  - apply elem_of_nil in Hf. contradiction.
  - apply NoDup_cons in Hnd as [Hx Hnd].
    apply elem_of_cons in Hf as [->|Hf]; apply elem_of_cons in Hg as [->|Hg].
    + reflexivity.
    + exfalso. apply Hx. rewrite Hid. apply list_elem_of_fmap_2. exact Hg.
    + exfalso. apply Hx. rewrite <- Hid. apply list_elem_of_fmap_2. exact Hf.
    + apply IH; assumption.
Qed.

Lemma same_key_same_doc (l : list File) f g :
  NoDup (key3 <$> l) -> f ∈ l -> g ∈ l -> key3 f = key3 g -> f = g.
Proof.
  induction l as [|x l IH]; cbn; intros Hnd Hf Hg Hid.
  - apply elem_of_nil in Hf. contradiction.
  - apply NoDup_cons in Hnd as [Hx Hnd].
    apply elem_of_cons in Hf as [->|Hf]; apply elem_of_cons in Hg as [->|Hg].
    + reflexivity.
    + exfalso. apply Hx. rewrite Hid. apply list_elem_of_fmap_2. exact Hg.
    + exfalso. apply Hx. rewrite <- Hid. apply list_elem_of_fmap_2. exact Hf.
    + apply IH; assumption.
Qed.

(** With unique names, [findOne] by owner, parent and name is decided by
    membership. *)
Lemma look_char c u p n f :
  names_unique c -> f ∈ docs c -> key3 f = (u, p, n) -> look c u p n = Some f.
Proof.
  intros Hu Hin Hk. destruct (look c u p n) as [g|] eqn:E.
  - apply look_some in E as [Hg Hkg]. f_equal.
    eapply same_key_same_doc; [exact Hu|assumption|assumption|congruence].
  - exfalso. eapply look_none; eassumption.
Qed.

(** *** [deleteOne] *)

Lemma remove_first_elem (q : File -> bool) (l : list File) f :
  f ∈ remove_first q l -> f ∈ l.
Proof.
  induction l as [|x l IH]; cbn; [auto|].
  destruct (q x); intros H; [right; exact H|].
  apply elem_of_cons in H as [->|H]; [left|right; auto].
Qed.

Lemma remove_first_sublist (q : File -> bool) (l : list File) :
  sublist (remove_first q l) l.
Proof.
  induction l as [|x l IH]; cbn; [constructor|].
  destruct (q x); [apply sublist_cons; reflexivity|apply sublist_skip; exact IH].
Qed.

Lemma remove_first_by_id (l : list File) d f :
  NoDup (FileModel._id <$> l) -> d ∈ l ->
  (f ∈ remove_first (fun x => bool_decide (FileModel._id x = FileModel._id d)) l
   <-> f ∈ l /\ f <> d).
Proof.
  induction l as [|x l IH]; cbn; intros Hnd Hd.
  - apply elem_of_nil in Hd. contradiction.
  - apply NoDup_cons in Hnd as [Hx Hnd]. case_bool_decide as Hid.
    + assert (x = d) as ->.
      { apply elem_of_cons in Hd as [->|Hd]; [reflexivity|].
        exfalso. apply Hx. rewrite Hid. apply list_elem_of_fmap_2. exact Hd. }
      split.
      * intros Hf. split; [right; exact Hf|]. intros ->. apply Hx.
        apply list_elem_of_fmap_2. exact Hf.
      * intros [Hf Hne]. apply elem_of_cons in Hf as [->|Hf]; [contradiction|exact Hf].
    + apply elem_of_cons in Hd as [->|Hd]; [contradiction|].
      rewrite elem_of_cons, IH by assumption. rewrite elem_of_cons. split.
      * intros [->|[Hf Hne]]; [split; [left; reflexivity|congruence]|].
        split; [right; exact Hf|exact Hne].
      * intros [[->|Hf] Hne]; [left; reflexivity|right; auto].
Qed.

Lemma deleteOne_ids_ok c d :
  ids_ok c -> ids_ok (deleteOne (FileModel._id d) c).
Proof.
  intros [Hnd Hlt]. split; cbn.
  - eapply sublist_NoDup; [exact Hnd|]. apply fmap_sublist, remove_first_sublist.
  - intros f Hf. apply Hlt. eapply remove_first_elem. exact Hf.
Qed.

Lemma deleteOne_names_unique c d :
  names_unique c -> names_unique (deleteOne (FileModel._id d) c).
Proof.
  intros Hnd. unfold names_unique. cbn.
  eapply sublist_NoDup; [exact Hnd|]. apply fmap_sublist, remove_first_sublist.
Qed.

Lemma deleteOne_elem c d f :
  ids_ok c -> d ∈ docs c ->
  (f ∈ docs (deleteOne (FileModel._id d) c) <-> f ∈ docs c /\ f <> d).
Proof. intros [Hnd _] Hd. cbn. apply remove_first_by_id; assumption. Qed.

(** *** [insert] *)

Lemma insert_elem fields c f :
  f ∈ docs (insert fields c).2 <-> f ∈ docs c \/ f = fields (next_id c).
Proof. cbn. rewrite elem_of_app, list_elem_of_singleton. reflexivity. Qed.

Lemma insert_ids_ok fields c :
  (forall id, FileModel._id (fields id) = id) ->
  ids_ok c -> ids_ok (insert fields c).2.
Proof.
  intros Hid [Hnd Hlt]. split; cbn.
  - rewrite fmap_app. apply NoDup_app. split; [exact Hnd|]. split.
    + intros x Hx Hx'. cbn in Hx'. apply list_elem_of_singleton in Hx'.
      apply list_elem_of_fmap in Hx as (g & -> & Hg). apply Hlt in Hg.
      rewrite Hid in Hx'. lia.
    + cbn. apply NoDup_singleton.
  - intros f Hf. apply elem_of_app in Hf as [Hf|Hf].
    + apply Hlt in Hf. lia.
    + apply list_elem_of_singleton in Hf as ->. rewrite Hid. lia.
Qed.

Lemma insert_names_unique fields c :
  (forall f, f ∈ docs c -> key3 f <> key3 (fields (next_id c))) ->
  names_unique c -> names_unique (insert fields c).2.
Proof.
  intros Hnew Hnd. unfold names_unique. cbn. rewrite fmap_app.
  apply NoDup_app. split; [exact Hnd|]. split.
  - intros x Hx Hx'. cbn in Hx'. apply list_elem_of_singleton in Hx'.
    apply list_elem_of_fmap in Hx as (g & -> & Hg). eapply Hnew; eassumption.
  - cbn. apply NoDup_singleton.
Qed.

(** *** [save] *)

Definition replace_by (d : File) (x : File) : File :=
  if bool_decide (FileModel._id x = FileModel._id d) then d else x.

Lemma save_docs d c : docs (save d c) = replace_by d <$> docs c.
Proof. reflexivity. Qed.

Lemma replace_by_other d d0 (l : list File) x :
  NoDup (FileModel._id <$> l) -> d0 ∈ l -> x ∈ l ->
  FileModel._id d = FileModel._id d0 ->
  replace_by d x = if decide (x = d0) then d else x.
Proof.
  intros Hnd Hd0 Hx Hid. unfold replace_by. rewrite Hid.
  case_bool_decide as E.
  - rewrite decide_True; [reflexivity|]. eapply same_id_same_doc; eassumption.
  - rewrite decide_False; [reflexivity|]. intros ->. contradiction.
Qed.

Lemma save_elem c d d0 f :
  ids_ok c -> d0 ∈ docs c -> FileModel._id d = FileModel._id d0 ->
  (f ∈ docs (save d c) <-> f = d \/ (f ∈ docs c /\ f <> d0)).
Proof.
  intros [Hnd _] Hd0 Hid. rewrite save_docs, list_elem_of_fmap. split.
  - intros (x & -> & Hx). rewrite (replace_by_other d d0 (docs c)) by assumption.
    destruct (decide (x = d0)); auto.
  - intros [->|[Hf Hne]].
    + exists d0. split; [|exact Hd0].
      rewrite (replace_by_other d d0 (docs c)) by assumption.
      rewrite decide_True; reflexivity.
    + exists f. split; [|exact Hf].
      rewrite (replace_by_other d d0 (docs c)) by assumption.
      rewrite decide_False; [reflexivity|exact Hne].
Qed.

Lemma save_fmap {A} (g : File -> A) c d d0 :
  ids_ok c -> d0 ∈ docs c -> FileModel._id d = FileModel._id d0 -> g d = g d0 ->
  g <$> docs (save d c) = g <$> docs c.
Proof.
  intros [Hnd _] Hd0 Hid Hg. rewrite save_docs, <- list_fmap_compose.
  apply list_fmap_ext. intros i x Hx. cbn.
  rewrite (replace_by_other d d0 (docs c)); try assumption.
  - destruct (decide (x = d0)) as [->|]; [exact Hg|reflexivity].
  - eapply list_elem_of_lookup_2. exact Hx.
Qed.

Lemma save_ids_ok c d d0 :
  ids_ok c -> d0 ∈ docs c -> FileModel._id d = FileModel._id d0 ->
  ids_ok (save d c).
Proof.
  intros Hok Hd0 Hid. split.
  - rewrite (save_fmap _ c d d0) by assumption. apply Hok.
  - intros f Hf. apply (save_elem c d d0) in Hf as [->|[Hf _]]; try assumption.
    + rewrite Hid. apply Hok. exact Hd0.
    + apply Hok. exact Hf.
Qed.

Lemma save_names_unique c d d0 :
  ids_ok c -> d0 ∈ docs c -> FileModel._id d = FileModel._id d0 ->
  key3 d = key3 d0 -> names_unique c -> names_unique (save d c).
Proof.
  intros Hok Hd0 Hid Hk Hu. unfold names_unique.
  rewrite (save_fmap key3 c d d0) by assumption. exact Hu.
Qed.

End Collection.

Section PushSteps.
Import JsString NodePath HostFs FileModel CodeExec.

Lemma hentry_rect' (P : hentry -> Prop)
    (Hfile : forall n c, P (HostFile n c))
    (Hdir : forall n es, Forall P es -> P (HostDir n es))
    (Hother : forall n, P (HostOther n)) :
  forall e, P e.
Proof.
  fix IH 1. intros [n c|n es|n]; [apply Hfile| |apply Hother].
  apply Hdir. induction es as [|e rest IHrest]; constructor.
  - apply IH.
  - exact IHrest.
Qed.

Variable userId : string.
Variable base : string.

(** The entry is neither ignored nor refused by the test on its path. *)
Definition visited (e : hentry) (currentHostDir : string) : bool :=
  negb (ignored (entry_name e)) &&
  startsWith (join_paths [currentHostDir; entry_name e]) base.

(** The folder document for a host directory: the one found, or a new one
    after the deletion of a document of the other kind. *)
Definition settle_folder (now : Z) (n : string) (parent : option nat) (st : pstate)
  : File * pstate :=
  let '(vfsItem, st) := drop_mismatch folder (look st.1 userId parent n) st in
  match vfsItem with
  | Some d => (d, st)
  | None =>
      let '(d, c) := insert (new_folder userId n parent now) st.1 in
      (d, (c, (st.2 ++ [Created (FileModel._id d)])%list))
  end.

(** What the push does for a host file. *)
Definition settle_file (now : Z) (n content : string) (parent : option nat)
    (st : pstate) : pstate :=
  let '(vfsItem, st) := drop_mismatch file (look st.1 userId parent n) st in
  match vfsItem with
  | Some d =>
      if negb (bool_decide (FileModel.content d = content)) then
        (save (set_updatedAt (set_content d content) now) st.1,
         (st.2 ++ [ContentSaved (FileModel._id d)])%list)
      else if (1000 <? now - updatedAt d)%Z then
        (save (set_updatedAt d now) st.1,
         (st.2 ++ [Touched (FileModel._id d)])%list)
      else st
  | None =>
      let '(d, c) := insert (new_file userId n content parent now) st.1 in
      (c, (st.2 ++ [Created (FileModel._id d)])%list)
  end.

Lemma scanEntry_skipped now e cur parent st :
  visited e cur = false -> scanEntry userId now e cur parent base st = st.
Proof.
  unfold visited. intros H. destruct e; cbn [scanEntry entry_name] in *; cbv zeta;
    destruct (ignored _); cbn in H; try reflexivity; rewrite H; reflexivity.
Qed.

Lemma scanEntry_other now n cur parent st :
  scanEntry userId now (HostOther n) cur parent base st = st.
Proof.
  cbn [scanEntry entry_name]. cbv zeta.
  destruct (ignored _); [reflexivity|]. destruct (negb _); reflexivity.
Qed.

Lemma scanEntry_file now n content cur parent st :
  visited (HostFile n content) cur = true ->
  scanEntry userId now (HostFile n content) cur parent base st
  = settle_file now n content parent st.
Proof.
  unfold visited. cbn [scanEntry entry_name]. cbv zeta. intros H.
  apply andb_true_iff in H as [H1 H2]. apply negb_true_iff in H1.
  rewrite H1, H2. reflexivity.
Qed.

Lemma scanEntry_dir now n es cur parent st :
  visited (HostDir n es) cur = true ->
  scanEntry userId now (HostDir n es) cur parent base st
  = recursivelyScanHostAndUploadToVFS userId now es (join_paths [cur; n])
      (Some (FileModel._id (settle_folder now n parent st).1)) base
      (settle_folder now n parent st).2.
Proof.
  unfold visited. cbn [scanEntry entry_name]. cbv zeta. intros H.
  apply andb_true_iff in H as [H1 H2]. apply negb_true_iff in H1.
  rewrite H1, H2. cbn [negb]. unfold settle_folder, look.
  destruct (drop_mismatch folder _ st) as [vfsItem st1].
  assert (Hloop : forall d st2,
    (fix loop (es0 : list hentry) (st0 : pstate) {struct es0} : pstate :=
       match es0 with
       | [] => st0
       | e :: rest =>
           loop rest
             (scanEntry userId now e (join_paths [cur; n])
                (Some (FileModel._id d)) base st0)
       end) es st2
    = recursivelyScanHostAndUploadToVFS userId now es (join_paths [cur; n])
        (Some (FileModel._id d)) base st2).
  { intros d. induction es as [|e rest IH]; intros st2; [reflexivity|].
    cbn [recursivelyScanHostAndUploadToVFS]. rewrite IH. reflexivity. }
  destruct vfsItem as [d|].
  - apply Hloop.
  - destruct (insert _ _) as [d c]. apply Hloop.
Qed.

End PushSteps.

Section Orphans.
Import JsString NodePath HostFs FileModel CodeExec.

Variable userId : string.
Variable base : string.

(** A set of ids [U] that the walk cannot enter: every document whose id is
    in [U] has its parent in [U], and the ids of [U] were handed out
    already. *)
Variable U : nat -> Prop.

Definition under (f : File) : Prop := exists p, parentId f = Some p /\ U p.

Definition sealed (c : collection) : Prop :=
  (forall u, U u -> u < next_id c) /\
  (forall f, f ∈ docs c -> U (FileModel._id f) -> under f).

Definition outside (parent : option nat) : Prop :=
  forall p, parent = Some p -> ~ U p.

(** From [c] to [c']: the documents under [U] are all kept, and every id of
    [c'] is an id of [c] or a new one. *)
Definition preserves (c c' : collection) : Prop :=
  ids_ok c' /\ sealed c' /\ next_id c <= next_id c' /\
  (forall f, under f -> f ∈ docs c -> f ∈ docs c') /\
  (forall f, f ∈ docs c' ->
     (exists f0, f0 ∈ docs c /\ FileModel._id f0 = FileModel._id f) \/
     next_id c <= FileModel._id f).

Lemma preserves_refl c : ids_ok c -> sealed c -> preserves c c.
Proof.
  intros Hok Hs. split; [exact Hok|]. split; [exact Hs|]. split; [lia|].
  split; [auto|]. intros f Hf. left. eauto.
Qed.

Lemma preserves_trans c1 c2 c3 :
  preserves c1 c2 -> preserves c2 c3 -> preserves c1 c3.
Proof.
  intros (_ & _ & Hn1 & Hk1 & Hi1) (Hok & Hs & Hn2 & Hk2 & Hi2).
  split; [exact Hok|]. split; [exact Hs|]. split; [lia|]. split; [auto|].
  intros f Hf. destruct (Hi2 f Hf) as [(f0 & Hf0 & Hid)|Hnew]; [|right; lia].
  destruct (Hi1 f0 Hf0) as [(f1 & Hf1 & Hid1)|Hnew]; [left|right; lia].
  exists f1. split; [exact Hf1|congruence].
Qed.

Lemma preserves_delete c d :
  ids_ok c -> sealed c -> d ∈ docs c -> ~ under d ->
  preserves c (deleteOne (FileModel._id d) c).
Proof.
  intros Hok [Hs1 Hs2] Hd Hnu.
  split; [apply deleteOne_ids_ok; exact Hok|]. split; [|split; [cbn; lia|split]].
  - split; [exact Hs1|]. intros f Hf. apply deleteOne_elem in Hf as [Hf _]; auto.
  - intros f Hu Hf. apply deleteOne_elem; [assumption|assumption|].
    split; [exact Hf|]. intros ->. contradiction.
  - intros f Hf. apply deleteOne_elem in Hf as [Hf _]; [|assumption|assumption].
    left. eauto.
Qed.

Lemma preserves_insert c fields :
  ids_ok c -> sealed c ->
  (forall id, FileModel._id (fields id) = id) ->
  preserves c (insert fields c).2.
Proof.
  intros Hok [Hs1 Hs2] Hid.
  split; [apply insert_ids_ok; assumption|]. split; [|split; [cbn; lia|split]].
  - split.
    + intros u Hu. apply Hs1 in Hu. cbn. lia.
    + intros f Hf HU. apply insert_elem in Hf as [Hf| ->]; [auto|].
      rewrite Hid in HU. apply Hs1 in HU. lia.
  - intros f _ Hf. apply insert_elem. left. exact Hf.
  - intros f Hf. apply insert_elem in Hf as [Hf| ->]; [left; eauto|].
    right. rewrite Hid. lia.
Qed.

Lemma preserves_save c d d0 :
  ids_ok c -> sealed c -> d0 ∈ docs c ->
  FileModel._id d = FileModel._id d0 -> parentId d = parentId d0 ->
  ~ under d0 -> preserves c (save d c).
Proof.
  intros Hok [Hs1 Hs2] Hd0 Hid Hp Hnu.
  split; [eapply save_ids_ok; eassumption|]. split; [|split; [cbn; lia|split]].
  - split; [exact Hs1|]. intros f Hf HU.
    apply (save_elem c d d0) in Hf as [->|[Hf _]]; try assumption; [|auto].
    exfalso. apply Hnu. rewrite Hid in HU. auto.
  - intros f Hu Hf. apply (save_elem c d d0); try assumption.
    right. split; [exact Hf|]. intros ->. contradiction.
  - intros f Hf. apply (save_elem c d d0) in Hf as [->|[Hf _]]; try assumption;
      left; eauto.
Qed.

(** A document found under a parent outside [U] is not under [U], and the
    walk may go below it. *)
Lemma found_outside c parent n d :
  outside parent -> look c userId parent n = Some d -> d ∈ docs c /\ ~ under d.
Proof.
  intros Ho Hl. apply look_some in Hl as [Hd Hk]. split; [exact Hd|].
  intros (p & Hp & HU). injection Hk as _ Hpar _. rewrite Hpar in Hp.
  exact (Ho p Hp HU).
Qed.

Lemma below_outside c d :
  sealed c -> d ∈ docs c -> ~ under d -> outside (Some (FileModel._id d)).
Proof. intros [_ Hs] Hd Hnu p [= <-] HU. apply Hnu. auto. Qed.

Lemma settle_folder_preserves now n parent c log :
  ids_ok c -> sealed c -> outside parent ->
  let r := settle_folder userId now n parent (c, log) in
  preserves c r.2.1 /\ outside (Some (FileModel._id r.1)).
Proof.
  intros Hok Hs Ho. unfold settle_folder, drop_mismatch. cbn [fst snd].
  destruct (look c userId parent n) as [d|] eqn:Hl.
  - destruct (found_outside _ _ _ _ Ho Hl) as [Hd Hnu].
    case_bool_decide as Ht; cbn [fst snd].
    + split; [apply preserves_refl; assumption|eapply below_outside; eassumption].
    + pose proof (preserves_delete c d Hok Hs Hd Hnu) as Hp1.
      destruct Hp1 as (Hok1 & Hs1 & Hp1).
      split.
      * eapply preserves_trans; [split; [exact Hok1|split; [exact Hs1|exact Hp1]]|].
        apply preserves_insert; [assumption|assumption|reflexivity].
      * intros p [= <-] HU. cbn in HU. apply Hs1 in HU. cbn in HU. lia.
  - cbn [fst snd]. split.
    + apply preserves_insert; [assumption|assumption|reflexivity].
    + intros p [= <-] HU. cbn in HU. apply Hs in HU. lia.
Qed.

Lemma settle_file_preserves now n content parent c log :
  ids_ok c -> sealed c -> outside parent ->
  preserves c (settle_file userId now n content parent (c, log)).1.
Proof.
  intros Hok Hs Ho. unfold settle_file, drop_mismatch. cbn [fst snd].
  destruct (look c userId parent n) as [d|] eqn:Hl.
  - destruct (found_outside _ _ _ _ Ho Hl) as [Hd Hnu].
    case_bool_decide as Ht; cbn [fst snd].
    + case_bool_decide as Hc; cbn [negb fst snd].
      * destruct (1000 <? now - updatedAt d)%Z; cbn [fst snd].
        -- eapply preserves_save; try eassumption; reflexivity.
        -- apply preserves_refl; assumption.
      * eapply preserves_save; try eassumption; reflexivity.
    + pose proof (preserves_delete c d Hok Hs Hd Hnu) as Hp1.
      eapply preserves_trans; [exact Hp1|].
      destruct Hp1 as (Hok1 & Hs1 & _).
      apply preserves_insert; [assumption|assumption|reflexivity].
  - cbn [fst snd]. apply preserves_insert; [assumption|assumption|reflexivity].
Qed.

(** The walk never touches what is under [U]. *)
Lemma scanEntry_preserves now : forall e cur parent c log,
  ids_ok c -> sealed c -> outside parent ->
  preserves c (scanEntry userId now e cur parent base (c, log)).1.
Proof.
  induction e as [n content|n es IH|n] using hentry_rect';
    intros cur parent c log Hok Hs Ho.
  - destruct (visited base (HostFile n content) cur) eqn:Hv.
    + rewrite scanEntry_file by exact Hv. apply settle_file_preserves; assumption.
    + rewrite scanEntry_skipped by exact Hv. apply preserves_refl; assumption.
  - destruct (visited base (HostDir n es) cur) eqn:Hv.
    2:{ rewrite scanEntry_skipped by exact Hv. apply preserves_refl; assumption. }
    rewrite scanEntry_dir by exact Hv.
    destruct (settle_folder_preserves now n parent c log Hok Hs Ho) as [Hp Ho'].
    destruct (settle_folder userId now n parent (c, log)) as [d [c1 log1]].
    cbn [fst snd] in *.
    eapply preserves_trans; [exact Hp|].
    destruct Hp as (Hok1 & Hs1 & _). clear Hok Hs Ho c log.
    generalize (join_paths [cur; n]). intros cur'.
    revert c1 log1 Hok1 Hs1.
    induction IH as [|e rest He _ IHrest]; intros c1 log1 Hok1 Hs1.
    + apply preserves_refl; assumption.
    + cbn [recursivelyScanHostAndUploadToVFS].
      pose proof (He cur' (Some (FileModel._id d)) c1 log1 Hok1 Hs1 Ho') as Hp.
      destruct (scanEntry userId now e cur' _ base (c1, log1)) as [c2 log2].
      cbn [fst] in Hp. eapply preserves_trans; [exact Hp|].
      destruct Hp as (Hok2 & Hs2 & _). apply IHrest; assumption.
  - rewrite scanEntry_other. apply preserves_refl; assumption.
Qed.

Lemma recursivelyScan_preserves now es : forall cur parent c log,
  ids_ok c -> sealed c -> outside parent ->
  preserves c
    (recursivelyScanHostAndUploadToVFS userId now es cur parent base (c, log)).1.
Proof.
  induction es as [|e rest IH]; intros cur parent c log Hok Hs Ho.
  - apply preserves_refl; assumption.
  - cbn [recursivelyScanHostAndUploadToVFS].
    pose proof (scanEntry_preserves now e cur parent c log Hok Hs Ho) as Hp.
    destruct (scanEntry userId now e cur parent base (c, log)) as [c2 log2].
    cbn [fst] in Hp. eapply preserves_trans; [exact Hp|].
    destruct Hp as (Hok2 & Hs2 & _). apply IH; assumption.
Qed.

End Orphans.

Section Replacement.
Import JsString NodePath HostFs FileModel CodeExec.

Variable userId : string.
Variable base : string.

(** The writes of a walk are added to the log. *)
Lemma drop_mismatch_log t v st :
  exists more, (drop_mismatch t v st).2.2 = (st.2 ++ more)%list.
Proof.
  unfold drop_mismatch. destruct v as [d|]; [|exists []; rewrite app_nil_r; reflexivity].
  case_bool_decide; [exists []; rewrite app_nil_r; reflexivity|].
  eexists. reflexivity.
Qed.

Lemma settle_folder_log now n parent st :
  exists more, (settle_folder userId now n parent st).2.2 = (st.2 ++ more)%list.
Proof.
  unfold settle_folder.
  destruct (drop_mismatch_log folder (look st.1 userId parent n) st) as [m1 H1].
  destruct (drop_mismatch _ _ st) as [[d|] st1]; cbn [fst snd] in *.
  - eauto.
  - cbn. rewrite H1, <- app_assoc. eauto.
Qed.

Lemma settle_file_log now n content parent st :
  exists more, (settle_file userId now n content parent st).2 = (st.2 ++ more)%list.
Proof.
  unfold settle_file.
  destruct (drop_mismatch_log file (look st.1 userId parent n) st) as [m1 H1].
  destruct (drop_mismatch _ _ st) as [[d|] st1]; cbn [fst snd] in *.
  - destruct (negb _); cbn [snd]; [rewrite H1, <- app_assoc; eauto|].
    destruct (_ <? _)%Z; cbn [snd]; [rewrite H1, <- app_assoc; eauto|eauto].
  - cbn. rewrite H1, <- app_assoc. eauto.
Qed.

Lemma scanEntry_log now : forall e cur parent st,
  exists more, (scanEntry userId now e cur parent base st).2 = (st.2 ++ more)%list.
Proof.
  induction e as [n content|n es IH|n] using hentry_rect'; intros cur parent st.
  - destruct (visited base (HostFile n content) cur) eqn:Hv.
    + rewrite scanEntry_file by exact Hv. apply settle_file_log.
    + rewrite scanEntry_skipped by exact Hv. exists []. rewrite app_nil_r. reflexivity.
  - destruct (visited base (HostDir n es) cur) eqn:Hv.
    2:{ rewrite scanEntry_skipped by exact Hv. exists []. rewrite app_nil_r. reflexivity. }
    rewrite scanEntry_dir by exact Hv.
    destruct (settle_folder_log now n parent st) as [m1 H1].
    destruct (settle_folder userId now n parent st) as [d st1]. cbn [fst snd] in *.
    generalize (join_paths [cur; n]). intros cur'.
    enough (exists more,
      (recursivelyScanHostAndUploadToVFS userId now es cur'
         (Some (FileModel._id d)) base st1).2 = (st1.2 ++ more)%list) as [m2 H2].
    { rewrite H2, H1, <- app_assoc. eauto. }
    clear H1 Hv. revert st1. induction IH as [|e rest He _ IHrest]; intros st1.
    + exists []. rewrite app_nil_r. reflexivity.
    + cbn [recursivelyScanHostAndUploadToVFS].
      destruct (He cur' (Some (FileModel._id d)) st1) as [m2 H2].
      destruct (IHrest (scanEntry userId now e cur' (Some (FileModel._id d)) base st1))
        as [m3 H3].
      rewrite H3, H2, <- app_assoc. eauto.
  - rewrite scanEntry_other. exists []. rewrite app_nil_r. reflexivity.
Qed.

Lemma recursivelyScan_log now es : forall cur parent st,
  exists more,
    (recursivelyScanHostAndUploadToVFS userId now es cur parent base st).2
    = (st.2 ++ more)%list.
Proof.
  induction es as [|e rest IH]; intros cur parent st.
  - exists []. rewrite app_nil_r. reflexivity.
  - cbn [recursivelyScanHostAndUploadToVFS].
    destruct (scanEntry_log now e cur parent st) as [m1 H1].
    destruct (IH cur parent (scanEntry userId now e cur parent base st)) as [m2 H2].
    rewrite H2, H1, <- app_assoc. eauto.
Qed.

(** A document below [a]: its chain of parents leads to [a]. *)
Inductive descendant_of (c : collection) (a : nat) : File -> Prop :=
| descendant_child f :
    f ∈ docs c -> parentId f = Some a -> descendant_of c a f
| descendant_below f g :
    descendant_of c a g -> f ∈ docs c -> parentId f = Some (FileModel._id g) ->
    descendant_of c a f.

(** The document found for the entry is of the other kind. *)
Definition wrong_kind (e : hentry) (d : File) : Prop :=
  match e with
  | HostDir _ _ => type d <> folder
  | HostFile _ _ => type d <> file
  | HostOther _ => False
  end.

(** The kind and the content of the document the push keeps for a host
    entry. *)
Definition kind_of (e : hentry) : ftype :=
  match e with
  | HostDir _ _ => folder
  | _ => file
  end.

Definition content_of (e : hentry) : string :=
  match e with
  | HostFile _ content => content
  | _ => EmptyString
  end.

(** The ids of a document and of what is below it. *)
Definition doomed (c : collection) (d : File) (u : nat) : Prop :=
  u = FileModel._id d \/
  exists g, descendant_of c (FileModel._id d) g /\ FileModel._id g = u.

(** The walk of [entries] in [cur0], under [parent0] and from the state
    [st0], comes to the entry [e], which it finds in [cur] under [parent]
    with [rest] after it, in the state [st]. [above] are the parents of the
    directories the walk is in at that point, [cur] excepted. *)
Inductive comes_to (now : Z)
  : list hentry -> string -> option nat -> pstate ->
    hentry -> list hentry -> string -> option nat -> pstate ->
    list (option nat) -> Prop :=
| comes_here e rest cur parent st :
    comes_to now (e :: rest) cur parent st e rest cur parent st []
| comes_later e0 rest0 cur0 parent0 st0 e rest cur parent st above :
    comes_to now rest0 cur0 parent0
      (scanEntry userId now e0 cur0 parent0 base st0) e rest cur parent st above ->
    comes_to now (e0 :: rest0) cur0 parent0 st0 e rest cur parent st above
| comes_inside n es rest0 cur0 parent0 st0 e rest cur parent st above :
    visited base (HostDir n es) cur0 = true ->
    comes_to now es (join_paths [cur0; n])
      (Some (FileModel._id (settle_folder userId now n parent0 st0).1))
      (settle_folder userId now n parent0 st0).2 e rest cur parent st above ->
    comes_to now (HostDir n es :: rest0) cur0 parent0 st0 e rest cur parent st
      (parent0 :: above).

(** The empty set of ids: it seals every collection. *)
Definition nothing : nat -> Prop := fun _ => False.

Lemma sealed_nothing c : sealed nothing c.
Proof. split; intros ? ; unfold nothing; tauto. Qed.

Lemma outside_nothing p : outside nothing p.
Proof. intros ? _ []. Qed.

Lemma scanEntry_ids_ok now e cur parent st :
  ids_ok st.1 -> ids_ok (scanEntry userId now e cur parent base st).1.
Proof.
  destruct st as [c log]. intros Hok.
  apply (scanEntry_preserves userId base nothing now e cur parent c log Hok
           (sealed_nothing c) (outside_nothing parent)).
Qed.

Lemma settle_folder_ids_ok now n parent st :
  ids_ok st.1 -> ids_ok (settle_folder userId now n parent st).2.1.
Proof.
  destruct st as [c log]. intros Hok.
  apply (settle_folder_preserves userId nothing now n parent c log Hok
           (sealed_nothing c) (outside_nothing parent)).
Qed.

Lemma comes_to_ids_ok now es cur0 parent0 st0 e rest cur parent st above :
  comes_to now es cur0 parent0 st0 e rest cur parent st above ->
  ids_ok st0.1 -> ids_ok st.1.
Proof.
  induction 1 as [| |n es rest0 cur0 parent0 st0 e rest cur parent st above Hv H IH];
    intros Hok; [exact Hok| |].
  - apply IHcomes_to. apply scanEntry_ids_ok. exact Hok.
  - apply IH. apply settle_folder_ids_ok. exact Hok.
Qed.

(** From the end of the walk of the directory where the entry is to the
    end of the whole walk: what a set of ids seals stays sealed, when the
    directories the walk returns to are outside it. *)
Lemma comes_to_continues (U : nat -> Prop) now es cur0 parent0 st0 e rest cur
    parent st above :
  comes_to now es cur0 parent0 st0 e rest cur parent st above ->
  Forall (outside U) above ->
  let level :=
    recursivelyScanHostAndUploadToVFS userId now (e :: rest) cur parent base st in
  let whole :=
    recursivelyScanHostAndUploadToVFS userId now es cur0 parent0 base st0 in
  ids_ok level.1 -> sealed U level.1 ->
  preserves U level.1 whole.1 /\ exists more, whole.2 = (level.2 ++ more)%list.
Proof.
  cbv zeta.
  induction 1 as [e rest cur parent st
                 |e0 rest0 cur0 parent0 st0 e rest cur parent st above H IH
                 |n es rest0 cur0 parent0 st0 e rest cur parent st above Hv H IH];
    intros Hab Hok Hs.
  - split; [apply preserves_refl; assumption|]. exists []. rewrite app_nil_r. reflexivity.
  - cbn [recursivelyScanHostAndUploadToVFS] in *. apply IH; assumption.
  - apply Forall_cons in Hab as [Hout Hab].
    destruct (IH Hab Hok Hs) as [Hp (m1 & Hm1)].
    change (recursivelyScanHostAndUploadToVFS userId now (HostDir n es :: rest0)
              cur0 parent0 base st0)
      with (recursivelyScanHostAndUploadToVFS userId now rest0 cur0 parent0 base
              (scanEntry userId now (HostDir n es) cur0 parent0 base st0)).
    rewrite (scanEntry_dir userId base now n es cur0 parent0 st0 Hv).
    set (inner := recursivelyScanHostAndUploadToVFS userId now es _ _ base _) in *.
    destruct (recursivelyScan_log now rest0 cur0 parent0 inner) as [m2 Hm2].
    pose proof (recursivelyScan_preserves userId base U now rest0 cur0 parent0
                  inner.1 inner.2) as Hp2.
    destruct inner as [ci li]. cbn [fst snd] in *.
    split.
    + eapply preserves_trans; [exact Hp|].
      apply Hp2; [apply Hp|apply Hp|exact Hout].
    + exists (m1 ++ m2)%list. rewrite Hm2, Hm1, <- app_assoc. reflexivity.
Qed.

(** The step of the walk at an entry whose name is that of a document of
    the other kind: the document is deleted, one of the kind of the entry
    is created, and the walk goes on below it. *)
Lemma replace_step now e cur parent c log d :
  ids_ok c ->
  visited base e cur = true ->
  look c userId parent (entry_name e) = Some d ->
  wrong_kind e d ->
  exists fields,
    (forall id, FileModel._id (fields id) = id) /\
    (forall id, name (fields id) = entry_name e /\
       type (fields id) = kind_of e /\ parentId (fields id) = parent /\
       FileModel.userId (fields id) = userId /\
       content (fields id) = content_of e) /\
    let c2 := (insert fields (deleteOne (FileModel._id d) c)).2 in
    let log2 := (log ++ [Deleted (FileModel._id d); Created (next_id c)])%list in
    scanEntry userId now e cur parent base (c, log)
    = match e with
      | HostDir n es =>
          recursivelyScanHostAndUploadToVFS userId now es (join_paths [cur; n])
            (Some (next_id c)) base (c2, log2)
      | _ => (c2, log2)
      end.
Proof.
  intros Hok Hv Hl Hwrong.
  destruct e as [n content|n es|n]; [| |contradiction].
  - exists (new_file userId n content parent now).
    split; [reflexivity|]. split; [intros id; repeat split|].
    rewrite scanEntry_file by exact Hv. unfold settle_file, drop_mismatch.
    cbn [fst snd entry_name] in *. rewrite Hl.
    rewrite bool_decide_eq_false_2 by exact Hwrong. cbn [fst snd].
    cbn. rewrite <- app_assoc. reflexivity.
  - exists (new_folder userId n parent now).
    split; [reflexivity|]. split; [intros id; repeat split|].
    rewrite scanEntry_dir by exact Hv. unfold settle_folder, drop_mismatch.
    cbn [fst snd entry_name] in *. rewrite Hl.
    rewrite bool_decide_eq_false_2 by exact Hwrong. cbn [fst snd].
    cbn. rewrite <- app_assoc. reflexivity.
Qed.

(** C8, as amended: when the walk of a push comes to an entry whose name
    is that of a document of the other kind under the current parent, it
    deletes that document and no other, and creates right after it a
    document of the kind of the entry, with a new id, the name of the
    entry, the current parent and the owner (and the content of the host
    file, for a file); the walk goes on from there, below the new folder
    when the entry is a directory. After the push no document has the id
    of the one deleted, and every document that was below it is still in
    the collection, as it was. *)
Theorem push_replaces_the_node_only (now : Z) (entries : list hentry)
    (root : option nat) (c0 : collection) (e : hentry) (rest : list hentry)
    (cur : string) (parent : option nat) (c : collection) (log : list vfs_write)
    (above : list (option nat)) (d : File) :
  ids_ok c0 ->
  comes_to now entries base root (c0, []) e rest cur parent (c, log) above ->
  visited base e cur = true ->
  look c userId parent (entry_name e) = Some d ->
  wrong_kind e d ->
  (forall p, Some p ∈ parent :: above -> ~ doomed c d p) ->
  let '(c', log') := syncWorkspaceToVfs userId now base (Some entries) root c0 in
  let log2 := (log ++ [Deleted (FileModel._id d); Created (next_id c)])%list in
  exists fresh c2,
    (FileModel._id fresh = next_id c /\ name fresh = entry_name e /\
     type fresh = kind_of e /\ parentId fresh = parent /\
     FileModel.userId fresh = userId /\ content fresh = content_of e) /\
    (forall f, f ∈ docs c2 <-> (f ∈ docs c /\ f <> d) \/ f = fresh) /\
    scanEntry userId now e cur parent base (c, log)
    = match e with
      | HostDir n es =>
          recursivelyScanHostAndUploadToVFS userId now es (join_paths [cur; n])
            (Some (next_id c)) base (c2, log2)
      | _ => (c2, log2)
      end /\
    (exists more, log' = (log2 ++ more)%list) /\
    (forall f, f ∈ docs c' -> FileModel._id f <> FileModel._id d) /\
    (forall g, descendant_of c (FileModel._id d) g -> g ∈ docs c').
Proof.
  intros Hok0 Hcomes Hv Hl Hwrong Hanchor.
  pose proof (comes_to_ids_ok _ _ _ _ _ _ _ _ _ _ _ Hcomes Hok0) as Hok.
  cbn [fst] in Hok.
  destruct (look_some _ _ _ _ _ Hl) as [Hd Hk].
  assert (Hpar : parentId d = parent) by (injection Hk as _ Hp _; exact Hp).
  set (U := doomed c d).
  set (c1 := deleteOne (FileModel._id d) c).
  assert (Hok1 : ids_ok c1) by (apply deleteOne_ids_ok; exact Hok).
  assert (Hout : outside U parent).
  { intros p -> HU. apply (Hanchor p); [left|exact HU]. }
  assert (Habove : Forall (outside U) above).
  { apply Forall_forall. intros q Hq p -> HU. apply (Hanchor p); [right; exact Hq|exact HU]. }
  assert (Hnu : ~ under U d).
  { intros (p & Hp & HU). rewrite Hpar in Hp. exact (Hout p Hp HU). }
  assert (Hdesc : forall g, descendant_of c (FileModel._id d) g ->
                    g ∈ docs c /\ g <> d /\ under U g).
  { intros g Hg. assert (Hu : under U g).
    { destruct Hg as [f _ Hp|f g' Hg' _ Hp].
      - exists (FileModel._id d). split; [exact Hp|left; reflexivity].
      - exists (FileModel._id g'). split; [exact Hp|right; eauto]. }
    split; [destruct Hg; assumption|]. split; [|exact Hu]. intros ->. contradiction. }
  assert (Hs1 : sealed U c1).
  { split.
    - intros u [->|(g & Hg & <-)]; cbn; apply Hok; [exact Hd|].
      apply Hdesc in Hg as [Hg _]. exact Hg.
    - intros f Hf HU. apply deleteOne_elem in Hf as [Hf Hne]; [|exact Hok|exact Hd].
      destruct HU as [Hid|(g & Hg & Hid)].
      + exfalso. apply Hne. eapply same_id_same_doc; [apply Hok| | |]; eassumption.
      + destruct (Hdesc g Hg) as (Hgc & _ & Hu).
        assert (f = g) as ->; [|exact Hu].
        eapply same_id_same_doc; [apply Hok| | |]; try eassumption. congruence. }
  (* the step at the entry *)
  destruct (replace_step now e cur parent c log d Hok Hv Hl Hwrong)
    as (fields & Hid & Hfields & Hstep).
  cbv zeta in Hstep. fold c1 in Hstep.
  set (c2 := (insert fields c1).2) in *.
  set (log2 := (log ++ [Deleted (FileModel._id d); Created (next_id c)])%list) in *.
  assert (Hp12 : preserves U c1 c2).
  { apply preserves_insert; [exact Hok1|exact Hs1|exact Hid]. }
  assert (Hentry : exists c3 more3,
    scanEntry userId now e cur parent base (c, log) = (c3, (log2 ++ more3)%list) /\
    preserves U c2 c3).
  { rewrite Hstep. destruct e as [n content|n es|n].
    - exists c2, []. rewrite app_nil_r. split; [reflexivity|].
      apply preserves_refl; apply Hp12.
    - set (p := join_paths [cur; n]).
      destruct (recursivelyScan_log now es p (Some (next_id c)) (c2, log2))
        as [m Hm].
      assert (Hp : preserves U c2
        (recursivelyScanHostAndUploadToVFS userId now es p (Some (next_id c)) base
           (c2, log2)).1).
      { apply recursivelyScan_preserves; [apply Hp12|apply Hp12|].
        intros q [= <-] HU. destruct Hs1 as [Hlt _]. apply Hlt in HU. cbn in HU. lia. }
      destruct (recursivelyScanHostAndUploadToVFS userId now es p _ base (c2, log2))
        as [c3 log3].
      cbn [fst snd] in *. subst log3. eauto.
    - contradiction. }
  destruct Hentry as (c3 & more3 & Hentry & Hp23).
  (* the rest of the directory *)
  pose proof (comes_to_continues U _ _ _ _ _ _ _ _ _ _ _ Hcomes Habove) as Hcont.
  cbv zeta in Hcont. cbn [recursivelyScanHostAndUploadToVFS] in Hcont.
  rewrite Hentry in Hcont.
  destruct (recursivelyScan_log now rest cur parent (c3, (log2 ++ more3)%list))
    as [m Hm].
  assert (Hp3 : preserves U c3
    (recursivelyScanHostAndUploadToVFS userId now rest cur parent base
       (c3, (log2 ++ more3)%list)).1).
  { apply recursivelyScan_preserves; [apply Hp23|apply Hp23|exact Hout]. }
  destruct (recursivelyScanHostAndUploadToVFS userId now rest cur parent base
              (c3, (log2 ++ more3)%list)) as [c4 log4].
  cbn [fst snd] in *. subst log4.
  (* the rest of the walk *)
  destruct Hcont as [Hp4 (m5 & Hm5)]; [apply Hp3|apply Hp3|].
  unfold syncWorkspaceToVfs.
  destruct (recursivelyScanHostAndUploadToVFS userId now entries base root base
              (c0, [])) as [c' log'].
  cbn [fst snd] in *. subst log'.
  pose proof (preserves_trans U _ _ _ Hp12
                (preserves_trans U _ _ _ Hp23 (preserves_trans U _ _ _ Hp3 Hp4)))
    as (_ & _ & _ & Hkeep & Hids).
  exists (fields (next_id c)), c2.
  split; [split; [apply Hid|apply Hfields]|].
  split.
  { intros f. unfold c2. rewrite insert_elem. unfold c1 at 1.
    rewrite deleteOne_elem by assumption. reflexivity. }
  split; [exact Hstep|]. split; [|split].
  - exists (more3 ++ m ++ m5)%list. rewrite <- !app_assoc. reflexivity.
  - intros f Hf Hidf. destruct (Hids f Hf) as [(f0 & Hf0 & Hid0)|Hnew].
    + apply deleteOne_elem in Hf0 as [Hf0 Hne]; [|exact Hok|exact Hd].
      apply Hne. eapply same_id_same_doc; [apply Hok| | |]; try eassumption. congruence.
    + cbn in Hnew. destruct Hok as [_ Hlt]. apply Hlt in Hd. lia.
  - intros g Hg. destruct (Hdesc g Hg) as (Hgc & Hne & Hu). apply Hkeep; [exact Hu|].
    apply deleteOne_elem; auto.
Qed.

End Replacement.

Section ReplacementScenario.
Import JsString NodePath HostFs FileModel CodeExec.

(** A folder [x] with a file [y] in it, where the host has a file [x]. *)
Definition stale_vfs : collection :=
  mkColl [owned 1 "demo" folder EmptyString None;
          owned 2 "x" folder EmptyString (Some 1);
          owned 3 "y" file "old" (Some 2)] 4.

Definition pushed_file_x : pstate :=
  syncWorkspaceToVfs "u1" 0 demo_path (Some [HostFile "x" "new"]) (Some 1) stale_vfs.

(** C8, as stated, fails: the folder [x] is replaced by a file, and the
    file [y] that was in it is still in the collection. *)
Lemma push_leaves_descendants :
  pushed_file_x.2 = [Deleted 2; Created 4] /\
  descendant_of stale_vfs 2 (owned 3 "y" file "old" (Some 2)) /\
  owned 3 "y" file "old" (Some 2) ∈ docs pushed_file_x.1.
Proof.
  split; [vm_compute; reflexivity|]. split.
  - apply descendant_child; [|reflexivity]. right. right. left.
  - vm_compute. right. left.
Qed.

(** The same below a directory: [src] holds a folder [x] with a file [y],
    and on the host [src/x] is a file. *)
Definition nested_vfs : collection :=
  mkColl [owned 1 "demo" folder EmptyString None;
          owned 2 "src" folder EmptyString (Some 1);
          owned 3 "x" folder EmptyString (Some 2);
          owned 4 "y" file "old" (Some 3)] 5.

Definition pushed_src_x : pstate :=
  syncWorkspaceToVfs "u1" 0 demo_path (Some [HostDir "src" [HostFile "x" "new"]])
    (Some 1) nested_vfs.

Lemma nested_vfs_ids_ok : ids_ok nested_vfs.
Proof.
  split.
  - cbn. apply (bool_decide_unpack _). vm_compute. exact I.
  - intros f Hf. cbn in Hf.
    repeat (apply elem_of_cons in Hf as [->|Hf]; [cbn; lia|]).
    apply elem_of_nil in Hf. contradiction.
Defined.

Lemma nested_vfs_below_x g :
  descendant_of nested_vfs 3 g -> g = owned 4 "y" file "old" (Some 3).
Proof.
  induction 1 as [f Hf Hp|f g' _ IH Hf Hp]; [|subst g'];
    cbn in Hf;
    repeat (apply elem_of_cons in Hf as [->|Hf];
            [first [discriminate Hp|reflexivity]|]);
    apply elem_of_nil in Hf; contradiction.
Defined.

Lemma push_replaces_the_node_only_witness :
  owned 4 "y" file "old" (Some 3) ∈ docs pushed_src_x.1 /\
  (forall f, f ∈ docs pushed_src_x.1 -> FileModel._id f <> 3) /\
  exists more, pushed_src_x.2 = ([Deleted 3; Created 5] ++ more)%list.
Proof.
  assert (Hcomes : comes_to "u1" demo_path 0 [HostDir "src" [HostFile "x" "new"]]
                     demo_path (Some 1) (nested_vfs, []) (HostFile "x" "new") []
                     "/srv/app/projects/u1/demo/src" (Some 2) (nested_vfs, [])
                     [Some 1]).
  { apply comes_inside; [vm_compute; reflexivity|]. vm_compute. apply comes_here. }
  pose proof (push_replaces_the_node_only "u1" demo_path 0
                [HostDir "src" [HostFile "x" "new"]] (Some 1) nested_vfs
                (HostFile "x" "new") [] "/srv/app/projects/u1/demo/src" (Some 2)
                nested_vfs [] [Some 1] (owned 3 "x" folder EmptyString (Some 2))
                nested_vfs_ids_ok Hcomes) as H.
  unfold pushed_src_x.
  destruct (syncWorkspaceToVfs "u1" 0 demo_path
              (Some [HostDir "src" [HostFile "x" "new"]]) (Some 1) nested_vfs)
    as [c' log'].
  destruct H as (fresh & c2 & _ & _ & _ & Hlog & Hgone & Hkept).
  - vm_compute. reflexivity.
  - vm_compute. reflexivity.
  - discriminate.
  - intros p Hp Hdoomed.
    assert (Hp' : p = 2 \/ p = 1).
    { repeat (apply elem_of_cons in Hp as [Hp|Hp]; [injection Hp as ->; auto|]).
      apply elem_of_nil in Hp. contradiction. }
    destruct Hdoomed as [Hid|(g & Hg & Hid)].
    + cbn in Hid. lia.
    + apply nested_vfs_below_x in Hg. subst g. cbn in Hid. lia.
  - split; [|split; [exact Hgone|exact Hlog]]. apply Hkept.
    apply descendant_child; [|reflexivity]. right. right. right. left.
Defined.

End ReplacementScenario.

Section Slots.
Import JsString NodePath HostFs FileModel CodeExec.

Variable userId : string.

(** The place of a document of the owner in the tree: parent and name. *)
Definition slot : Type := option nat * string.

Definition slot_of (f : File) : slot := (parentId f, name f).

(** A collection the push can rely on. *)
Definition tidy (c : collection) : Prop := ids_ok c /\ names_unique c.

(** From [c] to [c']: ids are not handed out twice, and a document keeps
    its id and its place. *)
Definition extends (c c' : collection) : Prop :=
  next_id c <= next_id c' /\
  forall f, f ∈ docs c' ->
    next_id c <= FileModel._id f \/
    exists f0, f0 ∈ docs c /\ FileModel._id f0 = FileModel._id f /\
               slot_of f0 = slot_of f.

(** A step that reads and writes only the slot [k]. *)
Definition step_at (k : slot) (c c' : collection) : Prop :=
  tidy c' /\ extends c c' /\
  forall k', k' <> k -> look c' userId k'.1 k'.2 = look c userId k'.1 k'.2.

Lemma extends_refl c : extends c c.
Proof. split; [lia|]. intros f Hf. right. eauto. Qed.

Lemma extends_trans c1 c2 c3 : extends c1 c2 -> extends c2 c3 -> extends c1 c3.
Proof.
  intros [Hn1 H1] [Hn2 H2]. split; [lia|]. intros f Hf.
  destruct (H2 f Hf) as [Hnew|(f0 & Hf0 & Hid & Hs)]; [left; lia|].
  destruct (H1 f0 Hf0) as [Hnew|(f1 & Hf1 & Hid1 & Hs1)]; [left; lia|].
  right. exists f1. split; [exact Hf1|]. split; congruence.
Qed.

Lemma step_at_refl k c : tidy c -> step_at k c c.
Proof. intros H. split; [exact H|]. split; [apply extends_refl|]. reflexivity. Qed.

Lemma step_at_trans k c1 c2 c3 :
  step_at k c1 c2 -> step_at k c2 c3 -> step_at k c1 c3.
Proof.
  intros (_ & He1 & Hl1) (Ht & He2 & Hl2). split; [exact Ht|].
  split; [eapply extends_trans; eassumption|].
  intros k' Hk. rewrite Hl2, Hl1 by exact Hk. reflexivity.
Qed.

(** [findOne] at a slot gives the same answer in two collections with
    unique names that have the same documents at that slot. *)
Lemma look_transfer c c' p n :
  names_unique c -> names_unique c' ->
  (forall f, key3 f = (userId, p, n) -> (f ∈ docs c <-> f ∈ docs c')) ->
  look c' userId p n = look c userId p n.
Proof.
  intros Hu Hu' Hiff. destruct (look c userId p n) as [f|] eqn:E.
  - apply look_some in E as [Hf Hk]. apply look_char; [exact Hu'| |exact Hk].
    apply Hiff; assumption.
  - destruct (look c' userId p n) as [g|] eqn:E'; [|reflexivity].
    apply look_some in E' as [Hg Hk]. exfalso.
    eapply look_none; [exact E| |exact Hk]. apply Hiff; assumption.
Qed.

Lemma key3_slot f p n : key3 f = (userId, p, n) -> slot_of f = (p, n).
Proof. unfold key3, slot_of. intros [= _ -> ->]. reflexivity. Qed.

Lemma step_delete c p n d :
  tidy c -> look c userId p n = Some d ->
  step_at (p, n) c (deleteOne (FileModel._id d) c) /\
  look (deleteOne (FileModel._id d) c) userId p n = None.
Proof.
  intros [Hok Hu] Hl. destruct (look_some _ _ _ _ _ Hl) as [Hd Hk].
  assert (Hu' : names_unique (deleteOne (FileModel._id d) c))
    by (apply deleteOne_names_unique; exact Hu).
  split; [split; [|split]|].
  - split; [apply deleteOne_ids_ok; exact Hok|exact Hu'].
  - split; [cbn; lia|]. intros f Hf. apply deleteOne_elem in Hf as [Hf _]; try assumption.
    right. eauto.
  - intros [p' n'] Hne. cbn [fst snd]. apply look_transfer; try assumption.
    intros f Hkf. rewrite deleteOne_elem by assumption. split; [|tauto].
    intros Hf. split; [exact Hf|]. intros ->. apply Hne.
    rewrite Hk in Hkf. injection Hkf as -> ->. reflexivity.
  - destruct (look (deleteOne _ c) userId p n) as [g|] eqn:E; [|reflexivity].
    exfalso. apply look_some in E as [Hg Hkg].
    apply deleteOne_elem in Hg as [Hg Hne]; try assumption. apply Hne.
    eapply same_key_same_doc; [exact Hu|assumption|assumption|congruence].
Qed.

Lemma step_insert c p n fields :
  tidy c -> look c userId p n = None ->
  (forall id, FileModel._id (fields id) = id) ->
  (forall id, key3 (fields id) = (userId, p, n)) ->
  step_at (p, n) c (insert fields c).2 /\
  look (insert fields c).2 userId p n = Some (fields (next_id c)).
Proof.
  intros [Hok Hu] Hl Hid Hkey.
  assert (Hu' : names_unique (insert fields c).2).
  { apply insert_names_unique; [|exact Hu]. intros f Hf. rewrite Hkey.
    eapply look_none; eassumption. }
  split; [split; [|split]|].
  - split; [apply insert_ids_ok; assumption|exact Hu'].
  - split; [cbn; lia|]. intros f Hf. apply insert_elem in Hf as [Hf| ->].
    + right. eauto.
    + left. rewrite Hid. lia.
  - intros [p' n'] Hne. cbn [fst snd]. apply look_transfer; try assumption.
    intros f Hkf. rewrite insert_elem. split; [auto|].
    intros [Hf| ->]; [exact Hf|]. exfalso. apply Hne.
    rewrite Hkey in Hkf. injection Hkf as -> ->. reflexivity.
  - apply look_char; [exact Hu'| |apply Hkey]. apply insert_elem. right. reflexivity.
Qed.

Lemma step_save c p n d0 d :
  tidy c -> look c userId p n = Some d0 ->
  FileModel._id d = FileModel._id d0 -> key3 d = key3 d0 ->
  step_at (p, n) c (save d c) /\ look (save d c) userId p n = Some d.
Proof.
  intros [Hok Hu] Hl Hid Hkey. destruct (look_some _ _ _ _ _ Hl) as [Hd0 Hk].
  assert (Hu' : names_unique (save d c))
    by (eapply save_names_unique; eassumption).
  split; [split; [|split]|].
  - split; [eapply save_ids_ok; eassumption|exact Hu'].
  - split; [cbn; lia|]. intros f Hf. right.
    apply (save_elem c d d0) in Hf as [->|[Hf _]]; try assumption.
    + exists d0. split; [exact Hd0|]. split; [congruence|].
      unfold slot_of. injection Hkey as _ -> ->. reflexivity.
    + eauto.
  - intros [p' n'] Hne. cbn [fst snd]. apply look_transfer; try assumption.
    intros f Hkf. rewrite (save_elem c d d0) by assumption.
    assert (Hfd : f <> d0 /\ f <> d).
    { split; intros ->; apply Hne; [|rewrite Hkey in Hkf];
        rewrite Hk in Hkf; injection Hkf as -> ->; reflexivity. }
    split; [intros Hf; right; tauto|]. intros [->|[Hf _]]; [tauto|exact Hf].
  - apply look_char; [exact Hu'| |congruence].
    apply (save_elem c d d0); auto.
Qed.

End Slots.

Section Settle.
Import JsString NodePath HostFs FileModel CodeExec.

Variable userId : string.
Variable base : string.

(** After the push has dealt with a host file, the slot holds a file
    document with the content of the host file. *)
Lemma settle_file_step now n content parent c log :
  tidy c ->
  let c' := (settle_file userId now n content parent (c, log)).1 in
  step_at userId (parent, n) c c' /\
  exists d, look c' userId parent n = Some d /\ type d = file /\
            FileModel.content d = content.
Proof.
  intros Ht. unfold settle_file, drop_mismatch. cbn [fst snd].
  destruct (look c userId parent n) as [d0|] eqn:Hl.
  - case_bool_decide as Hty; cbn [fst snd].
    + case_bool_decide as Hc; cbn [negb fst snd].
      * destruct (1000 <? now - updatedAt d0)%Z; cbn [fst snd].
        -- destruct (step_save userId c parent n d0 (set_updatedAt d0 now) Ht Hl
                       eq_refl eq_refl) as [Hs Hl'].
           split; [exact Hs|]. eexists. split; [exact Hl'|]. split; assumption.
        -- split; [apply step_at_refl; exact Ht|]. eauto.
      * destruct (step_save userId c parent n d0
                    (set_updatedAt (set_content d0 content) now) Ht Hl
                    eq_refl eq_refl) as [Hs Hl'].
        split; [exact Hs|]. eexists. split; [exact Hl'|]. split; [exact Hty|reflexivity].
    + destruct (step_delete userId c parent n d0 Ht Hl) as [Hs1 Hl1].
      destruct (step_insert userId _ parent n (new_file userId n content parent now)
                  (proj1 Hs1) Hl1 (fun _ => eq_refl) (fun _ => eq_refl)) as [Hs2 Hl2].
      split; [eapply step_at_trans; eassumption|].
      eexists. split; [exact Hl2|]. split; reflexivity.
  - cbn [fst snd].
    destruct (step_insert userId c parent n (new_file userId n content parent now)
                Ht Hl (fun _ => eq_refl) (fun _ => eq_refl)) as [Hs2 Hl2].
    split; [exact Hs2|]. eexists. split; [exact Hl2|]. split; reflexivity.
Qed.

(** After the push has settled the folder of a host directory, the slot
    holds that folder document. *)
Lemma settle_folder_step now n parent c log :
  tidy c ->
  let r := settle_folder userId now n parent (c, log) in
  step_at userId (parent, n) c r.2.1 /\
  look r.2.1 userId parent n = Some r.1 /\ type r.1 = folder.
Proof.
  intros Ht. unfold settle_folder, drop_mismatch. cbn [fst snd].
  destruct (look c userId parent n) as [d0|] eqn:Hl.
  - case_bool_decide as Hty; cbn [fst snd].
    + split; [apply step_at_refl; exact Ht|]. split; assumption.
    + destruct (step_delete userId c parent n d0 Ht Hl) as [Hs1 Hl1].
      destruct (step_insert userId _ parent n (new_folder userId n parent now)
                  (proj1 Hs1) Hl1 (fun _ => eq_refl) (fun _ => eq_refl)) as [Hs2 Hl2].
      split; [eapply step_at_trans; eassumption|]. split; [exact Hl2|reflexivity].
  - cbn [fst snd].
    destruct (step_insert userId c parent n (new_folder userId n parent now)
                Ht Hl (fun _ => eq_refl) (fun _ => eq_refl)) as [Hs2 Hl2].
    split; [exact Hs2|]. split; [exact Hl2|reflexivity].
Qed.

(** *** What a walk reads *)

(** The slots a walk reads in a collection that is in step with the host,
    in order. *)
Fixpoint slots_of (c : collection) (e : hentry) (cur : string)
    (parent : option nat) : list slot :=
  if negb (visited base e cur) then []
  else
    match e with
    | HostFile n _ => [(parent, n)]
    | HostOther _ => []
    | HostDir n es =>
        (parent, n) ::
        match look c userId parent n with
        | Some d =>
            (fix loop (es : list hentry) : list slot :=
               match es with
               | [] => []
               | e' :: rest =>
                   (slots_of c e' (join_paths [cur; n]) (Some (FileModel._id d))
                    ++ loop rest)%list
               end) es
        | None => []
        end
    end.

Fixpoint slots (c : collection) (es : list hentry) (cur : string)
    (parent : option nat) : list slot :=
  match es with
  | [] => []
  | e :: rest => (slots_of c e cur parent ++ slots c rest cur parent)%list
  end.

(** The collection is in step with the host below [parent]: every host
    file that is visited has a file document with its content, every host
    directory a folder document, and so on below it. *)
Fixpoint in_step_entry (c : collection) (e : hentry) (cur : string)
    (parent : option nat) : Prop :=
  if negb (visited base e cur) then True
  else
    match e with
    | HostFile n content =>
        match look c userId parent n with
        | Some d => type d = file /\ FileModel.content d = content
        | None => False
        end
    | HostOther _ => True
    | HostDir n es =>
        match look c userId parent n with
        | Some d =>
            type d = folder /\
            (fix loop (es : list hentry) : Prop :=
               match es with
               | [] => True
               | e' :: rest =>
                   in_step_entry c e' (join_paths [cur; n]) (Some (FileModel._id d))
                   /\ loop rest
               end) es
        | None => False
        end
    end.

Fixpoint in_step (c : collection) (es : list hentry) (cur : string)
    (parent : option nat) : Prop :=
  match es with
  | [] => True
  | e :: rest => in_step_entry c e cur parent /\ in_step c rest cur parent
  end.

(** The names in a host directory are distinct, at every level. *)
Fixpoint names_distinct_in (e : hentry) : Prop :=
  match e with
  | HostDir _ es =>
      NoDup (entry_name <$> es) /\
      (fix loop (es : list hentry) : Prop :=
         match es with
         | [] => True
         | e' :: rest => names_distinct_in e' /\ loop rest
         end) es
  | _ => True
  end.

Fixpoint all_distinct (es : list hentry) : Prop :=
  match es with
  | [] => True
  | e :: rest => names_distinct_in e /\ all_distinct rest
  end.

Definition names_distinct (es : list hentry) : Prop :=
  NoDup (entry_name <$> es) /\ all_distinct es.

Lemma slots_of_dir c n es cur parent :
  visited base (HostDir n es) cur = true ->
  slots_of c (HostDir n es) cur parent =
  (parent, n) ::
  match look c userId parent n with
  | Some d => slots c es (join_paths [cur; n]) (Some (FileModel._id d))
  | None => []
  end.
Proof.
  intros Hv. cbn [slots_of]. rewrite Hv. cbn [negb]. f_equal.
  destruct (look c userId parent n) as [d|]; [|reflexivity]. clear Hv.
  induction es as [|e rest IH]; [reflexivity|]. cbn [slots]. rewrite IH. reflexivity.
Qed.

Lemma in_step_dir c n es cur parent :
  visited base (HostDir n es) cur = true ->
  in_step_entry c (HostDir n es) cur parent <->
  match look c userId parent n with
  | Some d => type d = folder /\
              in_step c es (join_paths [cur; n]) (Some (FileModel._id d))
  | None => False
  end.
Proof.
  intros Hv. cbn [in_step_entry]. rewrite Hv. cbn [negb].
  destruct (look c userId parent n) as [d|]; [|reflexivity]. clear Hv.
  assert (Hloop : forall p q,
    (fix loop (es0 : list hentry) : Prop :=
       match es0 with
       | [] => True
       | e' :: rest => in_step_entry c e' p q /\ loop rest
       end) es <-> in_step c es p q).
  { intros p q. induction es as [|e rest IH]; [reflexivity|]. cbn [in_step].
    rewrite IH. reflexivity. }
  rewrite Hloop. reflexivity.
Qed.

Lemma names_distinct_dir n es :
  names_distinct_in (HostDir n es) <-> names_distinct es.
Proof.
  unfold names_distinct. cbn [names_distinct_in].
  assert (Hloop :
    (fix loop (es0 : list hentry) : Prop :=
       match es0 with
       | [] => True
       | e' :: rest => names_distinct_in e' /\ loop rest
       end) es <-> all_distinct es).
  { induction es as [|e rest IH]; [reflexivity|]. cbn [all_distinct].
    rewrite IH. reflexivity. }
  rewrite Hloop. reflexivity.
Qed.

Lemma slots_of_skipped c e cur parent :
  visited base e cur = false -> slots_of c e cur parent = [].
Proof. intros Hv. destruct e; cbn [slots_of]; rewrite Hv; reflexivity. Qed.

Lemma in_step_skipped c e cur parent :
  visited base e cur = false -> in_step_entry c e cur parent.
Proof. intros Hv. destruct e; cbn [in_step_entry]; rewrite Hv; exact I. Qed.

End Settle.

Section Walk.
Import JsString NodePath HostFs FileModel CodeExec.

Variable userId : string.
Variable base : string.

(** A slot read below the first level is the slot below a document that
    sits at a slot read before. *)
Definition closed_under (c : collection) (top : slot -> Prop) (V : list slot) : Prop :=
  forall k, k ∈ V ->
    top k \/
    exists d, d ∈ docs c /\ k.1 = Some (FileModel._id d) /\ slot_of d ∈ V.

Lemma closed_under_app c top1 top2 V1 V2 :
  closed_under c top1 V1 -> closed_under c top2 V2 ->
  closed_under c (fun k => top1 k \/ top2 k) (V1 ++ V2).
Proof.
  intros H1 H2 k Hk. apply elem_of_app in Hk as [Hk|Hk].
  - destruct (H1 k Hk) as [Ht|(d & Hd & Hp & Hs)]; [left; left; exact Ht|].
    right. exists d. split; [exact Hd|]. split; [exact Hp|].
    apply elem_of_app. left. exact Hs.
  - destruct (H2 k Hk) as [Ht|(d & Hd & Hp & Hs)]; [left; right; exact Ht|].
    right. exists d. split; [exact Hd|]. split; [exact Hp|].
    apply elem_of_app. right. exact Hs.
Qed.

Lemma slots_closed c : forall e cur parent,
  closed_under c (fun k => k = (parent, entry_name e)) (slots_of userId base c e cur parent).
Proof.
  induction e as [n content|n es IH|n] using hentry_rect'; intros cur parent.
  - intros k Hk. cbn [slots_of] in Hk. destruct (negb _);
      [apply elem_of_nil in Hk; contradiction|].
    apply list_elem_of_singleton in Hk. left. exact Hk.
  - destruct (visited base (HostDir n es) cur) eqn:Hv.
    2:{ rewrite slots_of_skipped by exact Hv. intros k Hk.
        apply elem_of_nil in Hk. contradiction. }
    rewrite slots_of_dir by exact Hv.
    destruct (look c userId parent n) as [d|] eqn:Hl.
    2:{ intros k Hk. apply list_elem_of_singleton in Hk. left. exact Hk. }
    destruct (look_some _ _ _ _ _ Hl) as [Hd Hkd]. apply key3_slot in Hkd.
    clear Hv.
    assert (Hall : closed_under c (fun k => k.1 = Some (FileModel._id d))
                     (slots userId base c es (join_paths [cur; n]) (Some (FileModel._id d)))).
    { generalize (join_paths [cur; n]). intros p.
      induction IH as [|e rest He _ IHrest].
      - intros k' Hk'. apply elem_of_nil in Hk'. contradiction.
      - cbn [CodeExec.entry_name]. intros k' Hk'. cbn [slots] in Hk'.
        apply elem_of_app in Hk' as [Hk'|Hk'].
        + destruct (He p (Some (FileModel._id d)) k' Hk') as [->|(d' & Hd' & Hp & Hs)];
            [left; reflexivity|].
          right. exists d'. split; [exact Hd'|]. split; [exact Hp|].
          cbn [slots]. apply elem_of_app. left. exact Hs.
        + destruct (IHrest k' Hk') as [Ht|(d' & Hd' & Hp & Hs)]; [left; exact Ht|].
          right. exists d'. split; [exact Hd'|]. split; [exact Hp|].
          cbn [slots]. apply elem_of_app. right. exact Hs. }
    intros k Hk. apply elem_of_cons in Hk as [->|Hk]; [left; reflexivity|]. right.
    destruct (Hall k Hk) as [Hp|(d' & Hd' & Hp & Hs)].
    + exists d. split; [exact Hd|]. split; [exact Hp|]. rewrite Hkd. left.
    + exists d'. split; [exact Hd'|]. split; [exact Hp|]. right. exact Hs.
  - intros k Hk. cbn [slots_of] in Hk. destruct (negb _);
      apply elem_of_nil in Hk; contradiction.
Qed.

Lemma slots_list_closed c es cur parent :
  closed_under c (fun k => k.1 = parent /\ k.2 ∈ entry_name <$> es)
    (slots userId base c es cur parent).
Proof.
  induction es as [|e rest IH].
  - intros k Hk. apply elem_of_nil in Hk. contradiction.
  - intros k Hk. cbn [slots] in Hk. apply elem_of_app in Hk as [Hk|Hk].
    + destruct (slots_closed c e cur parent k Hk) as [->|(d & Hd & Hp & Hs)].
      * left. split; [reflexivity|]. cbn. left.
      * right. exists d. split; [exact Hd|]. split; [exact Hp|].
        cbn [slots]. apply elem_of_app. left. exact Hs.
    + destruct (IH k Hk) as [[Hp Hn]|(d & Hd & Hp & Hs)].
      * left. split; [exact Hp|]. cbn. right. exact Hn.
      * right. exists d. split; [exact Hd|]. split; [exact Hp|].
        cbn [slots]. apply elem_of_app. right. exact Hs.
Qed.

(** Being in step is a matter of what [findOne] answers at the slots of
    the walk. *)
Lemma in_step_entry_stable c c' : forall e cur parent,
  in_step_entry userId base c e cur parent ->
  (forall k, k ∈ slots_of userId base c e cur parent ->
     look c' userId k.1 k.2 = look c userId k.1 k.2) ->
  in_step_entry userId base c' e cur parent /\ slots_of userId base c' e cur parent = slots_of userId base c e cur parent.
Proof.
  induction e as [n content|n es IH|n] using hentry_rect'; intros cur parent Hin Hst.
  - destruct (visited base (HostFile n content) cur) eqn:Hv.
    2:{ split; [apply in_step_skipped; exact Hv|].
        rewrite !slots_of_skipped by exact Hv. reflexivity. }
    cbn [in_step_entry slots_of] in *. rewrite Hv in *. cbn [negb] in *.
    split; [|reflexivity].
    pose proof (Hst (parent, n) ltac:(left)) as Hl. cbn [fst snd] in Hl.
    rewrite Hl. exact Hin.
  - destruct (visited base (HostDir n es) cur) eqn:Hv.
    2:{ split; [apply in_step_skipped; exact Hv|].
        rewrite !slots_of_skipped by exact Hv. reflexivity. }
    rewrite in_step_dir in Hin |- * by exact Hv.
    rewrite slots_of_dir in Hst |- * by exact Hv.
    rewrite slots_of_dir by exact Hv.
    pose proof (Hst (parent, n) ltac:(left)) as Hl. cbn [fst snd] in Hl. rewrite Hl.
    destruct (look c userId parent n) as [d|]; [|contradiction].
    destruct Hin as [Hty Hin].
    assert (Hst' : forall k, k ∈ slots userId base c es (join_paths [cur; n]) (Some (FileModel._id d)) ->
                     look c' userId k.1 k.2 = look c userId k.1 k.2).
    { intros k Hk. apply Hst. right. exact Hk. }
    clear Hst Hl Hv.
    enough (in_step userId base c' es (join_paths [cur; n]) (Some (FileModel._id d)) /\
            slots userId base c' es (join_paths [cur; n]) (Some (FileModel._id d))
            = slots userId base c es (join_paths [cur; n]) (Some (FileModel._id d))) as [H1 H2].
    { split; [split; assumption|]. rewrite H2. reflexivity. }
    revert Hin Hst'. generalize (join_paths [cur; n]). intros p.
    induction IH as [|e rest He _ IHrest]; intros Hin Hst'; [split; [exact I|reflexivity]|].
    cbn [in_step slots] in *. destruct Hin as [Hin1 Hin2].
    destruct (He p (Some (FileModel._id d)) Hin1) as [H1 H2].
    { intros k Hk. apply Hst'. apply elem_of_app. left. exact Hk. }
    destruct (IHrest Hin2) as [H3 H4].
    { intros k Hk. apply Hst'. apply elem_of_app. right. exact Hk. }
    split; [split; assumption|]. rewrite H2, H4. reflexivity.
  - split; [|reflexivity]. cbn [in_step_entry]. destruct (negb _); exact I.
Qed.

Lemma in_step_stable c c' es : forall cur parent,
  in_step userId base c es cur parent ->
  (forall k, k ∈ slots userId base c es cur parent ->
     look c' userId k.1 k.2 = look c userId k.1 k.2) ->
  in_step userId base c' es cur parent /\ slots userId base c' es cur parent = slots userId base c es cur parent.
Proof.
  induction es as [|e rest IH]; intros cur parent Hin Hst; [split; [exact I|reflexivity]|].
  cbn [in_step slots] in *. destruct Hin as [Hin1 Hin2].
  destruct (in_step_entry_stable c c' e cur parent Hin1) as [H1 H2].
  { intros k Hk. apply Hst. apply elem_of_app. left. exact Hk. }
  destruct (IH cur parent Hin2) as [H3 H4].
  { intros k Hk. apply Hst. apply elem_of_app. right. exact Hk. }
  split; [split; assumption|]. rewrite H2, H4. reflexivity.
Qed.

(** *** The first push brings the collection in step *)

(** The document with id [q], if any, sits at a slot of [X]; [q] was
    handed out. *)
Definition parent_ok (X : list slot) (c : collection) (parent : option nat) : Prop :=
  match parent with
  | None => True
  | Some q =>
      q < next_id c /\
      forall f, f ∈ docs c -> FileModel._id f = q -> slot_of f ∈ X
  end.

(** The slots of [X] are apart from the rest of the tree: what is above
    one of them is in [X] too. *)
Definition apart (X : list slot) (c : collection) : Prop :=
  forall k, k ∈ X -> parent_ok X c k.1.

Definition same_at (X : list slot) (c c' : collection) : Prop :=
  forall k, k ∈ X -> look c' userId k.1 k.2 = look c userId k.1 k.2.

Lemma parent_ok_extends X c c' parent :
  parent_ok X c parent -> extends c c' -> parent_ok X c' parent.
Proof.
  destruct parent as [q|]; [|auto]. intros [Hq Hx] [Hn He]. split; [lia|].
  intros f Hf Hid. destruct (He f Hf) as [Hnew|(f0 & Hf0 & Hid0 & Hs)]; [lia|].
  rewrite <- Hs. apply Hx; [exact Hf0|congruence].
Qed.

Lemma parent_ok_mono X X' c parent :
  (forall k, k ∈ X -> k ∈ X') -> parent_ok X c parent -> parent_ok X' c parent.
Proof.
  intros Hsub. destruct parent as [q|]; [|auto]. intros [Hq Hx]. split; [exact Hq|].
  intros f Hf Hid. apply Hsub. auto.
Qed.

Lemma apart_extends X c c' : apart X c -> extends c c' -> apart X c'.
Proof. intros Ha He k Hk. eapply parent_ok_extends; [apply Ha; exact Hk|exact He]. Qed.

Lemma apart_add X V c parent :
  ids_ok c -> apart X c -> parent_ok X c parent ->
  closed_under c (fun k => k.1 = parent) V -> apart (X ++ V) c.
Proof.
  intros Hok Ha Hp Hc k Hk. apply elem_of_app in Hk as [Hk|Hk].
  - eapply parent_ok_mono; [|apply Ha; exact Hk]. intros k' Hk'.
    apply elem_of_app. left. exact Hk'.
  - destruct (Hc k Hk) as [->|(d & Hd & -> & Hs)].
    + eapply parent_ok_mono; [|exact Hp]. intros k' Hk'. apply elem_of_app. left. exact Hk'.
    + split; [apply Hok; exact Hd|]. intros f Hf Hid.
      assert (f = d) as -> by (eapply same_id_same_doc; [apply Hok| | |]; eassumption).
      apply elem_of_app. right. exact Hs.
Qed.

(** The outcome of a walk from [c] that leaves the slots [X] alone. *)
Definition walked (X : list slot) (c c' : collection) (instep : Prop)
    (V : list slot) : Prop :=
  tidy c' /\ extends c c' /\ same_at X c c' /\ instep /\
  forall k, k ∈ V -> k ∉ X.

Definition entry_walked (e : hentry) : Prop :=
  names_distinct_in e ->
  forall now cur parent c log X,
    tidy c -> apart X c -> parent_ok X c parent -> (parent, entry_name e) ∉ X ->
    let c' := (scanEntry userId now e cur parent base (c, log)).1 in
    walked X c c' (in_step_entry userId base c' e cur parent) (slots_of userId base c' e cur parent).

Lemma list_walked es :
  Forall entry_walked es -> names_distinct es ->
  forall now cur parent c log X,
    tidy c -> apart X c -> parent_ok X c parent ->
    (forall n, n ∈ entry_name <$> es -> (parent, n) ∉ X) ->
    let c' :=
      (recursivelyScanHostAndUploadToVFS userId now es cur parent base (c, log)).1 in
    walked X c c' (in_step userId base c' es cur parent) (slots userId base c' es cur parent).
Proof.
  intros Hall. induction Hall as [|e rest He _ IH];
    intros [Hnd Hdist] now cur parent c log X Ht Ha Hp Hfresh; cbv zeta.
  - cbn. split; [exact Ht|]. split; [apply extends_refl|]. split; [intros k _; reflexivity|].
    split; [exact I|]. intros k Hk. apply elem_of_nil in Hk. contradiction.
  - cbn [recursivelyScanHostAndUploadToVFS]. cbn in Hnd. apply NoDup_cons in Hnd as [Hne Hnd].
    cbn [all_distinct] in Hdist. destruct Hdist as [Hde Hdr].
    pose proof (He Hde now cur parent c log X Ht Ha Hp
                  ltac:(apply Hfresh; cbn; left)) as H1. cbv zeta in H1.
    destruct (scanEntry userId now e cur parent base (c, log)) as [c1 log1].
    cbn [fst] in H1. destruct H1 as (Ht1 & He1 & Hs1 & Hin1 & Hv1).
    set (X1 := (X ++ slots_of userId base c1 e cur parent)%list).
    assert (Hp1 : parent_ok X c1 parent) by (eapply parent_ok_extends; eassumption).
    assert (Ha1 : apart X1 c1).
    { eapply apart_add; [apply Ht1|eapply apart_extends; eassumption|exact Hp1|].
      intros k Hk. destruct (slots_closed c1 e cur parent k Hk) as [->|H];
        [left; reflexivity|right; exact H]. }
    assert (Hfresh1 : forall n, n ∈ entry_name <$> rest -> (parent, n) ∉ X1).
    { intros n Hn Hx. apply elem_of_app in Hx as [Hx|Hx].
      - eapply Hfresh; [|exact Hx]. cbn. right. exact Hn.
      - destruct (slots_closed c1 e cur parent _ Hx)
          as [[= ->]|(d & Hd & Hq & Hs)]; [contradiction|].
        cbn [fst] in Hq. subst parent. destruct Hp1 as [_ Hp1].
        eapply Hv1; [exact Hs|]. apply Hp1; [exact Hd|reflexivity]. }
    pose proof (IH (conj Hnd Hdr) now cur parent c1 log1 X1 Ht1 Ha1
                  ltac:(eapply parent_ok_mono; [|exact Hp1]; intros k Hk;
                        apply elem_of_app; left; exact Hk) Hfresh1) as H2.
    cbv zeta in H2.
    destruct (recursivelyScanHostAndUploadToVFS userId now rest cur parent base (c1, log1))
      as [c2 log2].
    cbn [fst] in *. destruct H2 as (Ht2 & He2 & Hs2 & Hin2 & Hv2).
    destruct (in_step_entry_stable c1 c2 e cur parent Hin1) as [Hin1' Hsl].
    { intros k Hk. apply Hs2. apply elem_of_app. right. exact Hk. }
    split; [exact Ht2|]. split; [eapply extends_trans; eassumption|]. split.
    { intros k Hk. rewrite Hs2 by (apply elem_of_app; left; exact Hk). apply Hs1. exact Hk. }
    split; [cbn [in_step]; split; assumption|].
    intros k Hk. cbn [slots] in Hk. rewrite Hsl in Hk.
    apply elem_of_app in Hk as [Hk|Hk]; [apply Hv1; exact Hk|].
    intros Hx. eapply Hv2; [exact Hk|]. apply elem_of_app. left. exact Hx.
Qed.

Lemma every_entry_walked : forall e, entry_walked e.
Proof.
  induction e as [n content|n es IH|n] using hentry_rect';
    intros Hdist now cur parent c log X Ht Ha Hp Hfresh; cbv zeta.
  - destruct (visited base (HostFile n content) cur) eqn:Hv.
    2:{ rewrite scanEntry_skipped by exact Hv. cbn [fst].
        split; [exact Ht|]. split; [apply extends_refl|].
        split; [intros k _; reflexivity|]. split; [apply in_step_skipped; exact Hv|].
        rewrite slots_of_skipped by exact Hv. intros k Hk.
        apply elem_of_nil in Hk. contradiction. }
    rewrite scanEntry_file by exact Hv.
    destruct (settle_file_step userId now n content parent c log Ht)
      as [(Ht' & He' & Hs') (d & Hl & Hty & Hc)].
    split; [exact Ht'|]. split; [exact He'|]. split.
    { intros k Hk. apply Hs'. intros ->. contradiction. }
    split.
    + cbn [in_step_entry]. rewrite Hv. cbn [negb]. rewrite Hl. split; assumption.
    + cbn [slots_of]. rewrite Hv. cbn [negb]. intros k Hk.
      apply list_elem_of_singleton in Hk as ->. exact Hfresh.
  - destruct (visited base (HostDir n es) cur) eqn:Hv.
    2:{ rewrite scanEntry_skipped by exact Hv. cbn [fst].
        split; [exact Ht|]. split; [apply extends_refl|].
        split; [intros k _; reflexivity|]. split; [apply in_step_skipped; exact Hv|].
        rewrite slots_of_skipped by exact Hv. intros k Hk.
        apply elem_of_nil in Hk. contradiction. }
    rewrite scanEntry_dir by exact Hv.
    pose proof (proj1 (names_distinct_dir n es) Hdist) as Hdist'. clear Hdist.
    destruct (settle_folder_step userId now n parent c log Ht)
      as [(Hta & Hea & Hsa) [Hl Hty]].
    destruct (settle_folder userId now n parent (c, log)) as [d [ca loga]].
    cbn [fst snd entry_name] in *.
    destruct (look_some _ _ _ _ _ Hl) as [Hd Hkd]. apply key3_slot in Hkd.
    set (Xa := (X ++ [(parent, n)])%list).
    assert (Hpa : parent_ok X ca parent) by (eapply parent_ok_extends; eassumption).
    assert (Haa : apart Xa ca).
    { eapply apart_add; [apply Hta|eapply apart_extends; eassumption|exact Hpa|].
      intros k Hk. apply list_elem_of_singleton in Hk as ->. left. reflexivity. }
    assert (Hpd : parent_ok Xa ca (Some (FileModel._id d))).
    { split; [apply Hta; exact Hd|]. intros f Hf Hid.
      assert (f = d) as -> by (eapply same_id_same_doc; [apply Hta| | |]; eassumption).
      rewrite Hkd. apply elem_of_app. right. left. }
    assert (Hfresha : forall n', n' ∈ entry_name <$> es ->
                        (Some (FileModel._id d), n') ∉ Xa).
    { intros n' _ Hx. apply elem_of_app in Hx as [Hx|Hx].
      - pose proof (apart_extends _ _ _ Ha Hea _ Hx) as [_ Hq]. cbn [fst] in Hq.
        apply Hfresh. rewrite <- Hkd. apply Hq; [exact Hd|reflexivity].
      - apply list_elem_of_singleton in Hx. injection Hx as <- _.
        destruct Hpa as [_ Hq]. apply Hfresh. rewrite <- Hkd.
        apply Hq; [exact Hd|reflexivity]. }
    pose proof (list_walked es IH Hdist' now (join_paths [cur; n])
                  (Some (FileModel._id d)) ca loga Xa Hta Haa Hpd Hfresha) as H2.
    cbv zeta in H2.
    destruct (recursivelyScanHostAndUploadToVFS userId now es (join_paths [cur; n])
                (Some (FileModel._id d)) base (ca, loga)) as [c2 log2].
    cbn [fst] in *. destruct H2 as (Ht2 & He2 & Hs2 & Hin2 & Hv2).
    assert (Hl2 : look c2 userId parent n = Some d).
    { rewrite <- Hl. apply (Hs2 (parent, n)). apply elem_of_app. right. left. }
    split; [exact Ht2|]. split; [eapply extends_trans; eassumption|]. split.
    { intros k Hk. rewrite Hs2 by (apply elem_of_app; left; exact Hk).
      apply Hsa. intros ->. contradiction. }
    split.
    + apply in_step_dir; [exact Hv|]. rewrite Hl2. split; assumption.
    + rewrite slots_of_dir by exact Hv. rewrite Hl2. intros k Hk.
      apply elem_of_cons in Hk as [->|Hk]; [exact Hfresh|].
      intros Hx. eapply Hv2; [exact Hk|]. apply elem_of_app. left. exact Hx.
  - rewrite scanEntry_other. cbn [fst].
    split; [exact Ht|]. split; [apply extends_refl|].
    split; [intros k _; reflexivity|]. split.
    + cbn [in_step_entry]. destruct (negb _); exact I.
    + cbn [slots_of]. destruct (negb _); intros k Hk;
        apply elem_of_nil in Hk; contradiction.
Qed.

End Walk.

Section Again.
Import JsString NodePath HostFs FileModel CodeExec.

Variable userId : string.
Variable base : string.

(** *** A push over a collection that is in step *)




















End Again.

Section PushTwice.
Import JsString NodePath HostFs FileModel CodeExec.

(** The id handed to the push as the project root is that of a document
    at the top level of the tree. *)
Definition root_ok (c : collection) (root : option nat) : Prop :=
  match root with
  | None => True
  | Some p => exists r, r ∈ docs c /\ FileModel._id r = p /\ parentId r = None
  end.

(** What [readdir] reports has no name twice in a directory. *)
Definition host_names_distinct (hostRoot : option (list hentry)) : Prop :=
  match hostRoot with
  | Some es => names_distinct es
  | None => True
  end.

(** A push into a collection with unique ids and names leaves it in step
    with the host. *)
Lemma push_brings_in_step userId base now es root c log :
  tidy c -> names_distinct es -> root_ok c root ->
  let c1 :=
    (recursivelyScanHostAndUploadToVFS userId now es base root base (c, log)).1 in
  tidy c1 /\ in_step userId base c1 es base root.
Proof.
  intros Ht Hd Hr.
  assert (Hall : Forall (entry_walked userId base) es)
    by (apply Forall_forall; intros e _; apply every_entry_walked).
  destruct root as [p|].
  - destruct Hr as (r & Hr & Hid & Hp).
    pose proof (list_walked userId base es Hall Hd now base (Some p) c log
                  [slot_of r] Ht) as H.
    cbv zeta in *. destruct H as (Ht1 & _ & _ & Hin & _); [| | |auto].
    + intros k Hk. apply list_elem_of_singleton in Hk as ->.
      unfold slot_of. cbn [fst]. rewrite Hp. exact I.
    + split; [rewrite <- Hid; apply Ht; exact Hr|]. intros f Hf Hidf.
      assert (f = r) as -> by (eapply same_id_same_doc;
                                 [apply Ht|exact Hf|exact Hr|congruence]).
      left.
    + intros n _ Hx. apply list_elem_of_singleton in Hx.
      unfold slot_of in Hx. rewrite Hp in Hx. discriminate Hx.
  - pose proof (list_walked userId base es Hall Hd now base None c log [] Ht) as H.
    cbv zeta in *. destruct H as (Ht1 & _ & _ & Hin & _); [| | |auto].
    + intros k Hk. apply elem_of_nil in Hk. contradiction.
    + exact I.
    + intros n _ Hx. apply elem_of_nil in Hx. contradiction.
Qed.


End PushTwice.

Section PushTwiceScenario.
Import JsString NodePath HostFs FileModel CodeExec.






End PushTwiceScenario.

(** ** ContainerLifecycleManager: [createDockerContainer] *)

Section Lifecycle.
Import JsString NodePath HostFs FileModel DockerCtl.

Variable cwd : string.
Variable d : daemon.

(** Every sandbox created in [evs] is mounted on [ws]. *)
Definition created_on (ws : string) (evs : list event) : Prop :=
  forall c ws', ContainerCreated c ws' ∈ evs -> ws' = ws.

(** A step that may touch the timers and the host, but neither registers a
    session nor creates a sandbox. *)
Definition quiet {A} (m : M server A) : Prop :=
  forall s r s1, m s = (r, s1) ->
    r <> Diverges /\ activeContainers s1 = activeContainers s /\
    exists new, events s1 = (events s ++ new)%list /\
                forall c ws, ContainerCreated c ws ∉ new.

Ltac quiet_now new :=
  split; [discriminate|]; split; [reflexivity|]; exists new;
  split; [cbn; rewrite ?app_nil_r; reflexivity|];
  intros ? ? Hin; repeat (apply elem_of_cons in Hin as [Hin|Hin]; [discriminate|]);
  apply elem_of_nil in Hin; contradiction.

Lemma reuse_existing_quiet userId terminalId :
  quiet (reuse_existing d userId terminalId).
Proof.
  intros s r s1. unfold reuse_existing, resetContainerTimer, emit. run.
  destruct (activeContainers s !! _) as [info|]; [|intros [= <- <-]; quiet_now (@nil event)].
  destruct (inspect d (container info)) as [[running paused]|].
  - destruct (running || paused); intros [= <- <-].
    + quiet_now (@nil event).
    + quiet_now [ContainerRemoved (container info)].
  - intros [= <- <-]. quiet_now [ContainerRemoved (container info)].
Qed.

Lemma reuse_existing_some userId terminalId s c s1 :
  reuse_existing d userId terminalId s = (Ok (Some c), s1) ->
  exists info running paused,
    activeContainers s !! session_key userId terminalId = Some info /\
    container info = c /\ inspect d c = Some (running, paused) /\
    running || paused = true.
Proof.
  unfold reuse_existing, resetContainerTimer, emit. run.
  destruct (activeContainers s !! _) as [info|]; [|discriminate].
  destruct (inspect d (container info)) as [[running paused]|] eqn:Hi; [|discriminate].
  destruct (running || paused) eqn:Hr; [|discriminate].
  intros [= <- <-]. eauto 10.
Qed.

Lemma ensure_workspace_quiet p : quiet (ensure_workspace p).
Proof.
  intros s r s1. unfold ensure_workspace, on_world. run.
  destruct (negb _); [|intros [= <- <-]; quiet_now (@nil event)].
  destruct (mkdir_recursive p (host (base s))) as [r1 m1] eqn:E1.
  apply mkdir_recursive_grows in E1 as [Hr1 _].
  destruct r1 as [[]|e|]; [| |contradiction]; cbn.
  - cbn. destruct (chmod p m1) as [r2 m2] eqn:E2.
    apply chmod_same in E2 as [Hr2 _].
    destruct r2 as [[]|e|]; [| |contradiction]; intros [= <- <-]; quiet_now (@nil event).
  - intros [= <- <-]. quiet_now (@nil event).
Qed.

Lemma ensure_image_quiet image : quiet (ensure_image d image).
Proof.
  intros s r s1. unfold ensure_image, emit. run.
  destruct (negb _); [|intros [= <- <-]; quiet_now (@nil event)].
  destruct (pull_image d image); intros [= <- <-].
  - quiet_now [ImagePulled image].
  - quiet_now (@nil event).
Qed.

(** The three calls at the end: an [Ok] means a container that was created
    and started, and a registration made after that; a failure registers
    nothing. *)
Lemma create_start_register_spec userId terminalId slug ws vfsId config s r s1 :
  create_start_register d userId terminalId slug ws vfsId config s = (r, s1) ->
  match r with
  | Ok c =>
      create d config = Some c /\ start d c = true /\
      activeContainers s1
      = <[session_key userId terminalId := mkSession c userId terminalId slug vfsId]>
          (activeContainers s) /\
      events s1 = (events s ++ [ContainerCreated c ws; ContainerStarted c;
                                SessionRegistered (session_key userId terminalId) c])%list
  | Throw _ =>
      activeContainers s1 = activeContainers s /\
      exists new, events s1 = (events s ++ new)%list /\ created_on ws new
  | Diverges => False
  end.
Proof.
  unfold create_start_register, resetContainerTimer, emit. run.
  destruct (create d config) as [c|] eqn:Hc.
  - destruct (start d c) eqn:Hs; intros [= <- <-]; cbn.
    + repeat split; [assumption|]. rewrite <- !app_assoc. reflexivity.
    + split; [reflexivity|]. exists [ContainerCreated c ws]. split; [reflexivity|].
      intros c' ws' Hin. apply list_elem_of_singleton in Hin. congruence.
  - intros [= <- <-]. split; [reflexivity|]. exists []. split; [cbn; rewrite app_nil_r; reflexivity|].
    intros c' ws' Hin. apply elem_of_nil in Hin. contradiction.
Qed.

Lemma bind_quiet {A B} (m : M server A) (k : A -> M server B) s r s2 :
  quiet m -> bind m k s = (r, s2) ->
  (exists a s1, m s = (Ok a, s1) /\ k a s1 = (r, s2)) \/
  (exists e, m s = (Throw e, s2) /\ r = Throw e).
Proof.
  intros Hq. unfold bind. destruct (m s) as [[a|e|] s1] eqn:E.
  - eauto.
  - intros [= <- <-]. eauto.
  - apply Hq in E as [? _]. contradiction.
Qed.

(** What the [try] of [createDockerContainer] can do. *)
Lemma createDockerContainer_try_spec userId terminalId language slug vfsId s r s1 :
  createDockerContainer_try cwd d userId terminalId language slug vfsId s = (r, s1) ->
  let key := session_key userId terminalId in
  let ws := workspace_of cwd userId slug in
  (exists new, events s1 = (events s ++ new)%list /\ created_on ws new) /\
  match r with
  | Ok c =>
      exists info, activeContainers s1 !! key = Some info /\ container info = c /\
        ((activeContainers s !! key = Some info /\
          exists running paused,
            inspect d c = Some (running, paused) /\ running || paused = true) \/
         (create d (config_for cwd userId terminalId language slug vfsId) = Some c /\
          start d c = true /\
          exists pre,
            events s1 = (events s ++ pre ++
                           [ContainerCreated c ws; ContainerStarted c;
                            SessionRegistered key c])%list))
  | Throw _ => True
  | Diverges => False
  end.
Proof.
  unfold createDockerContainer_try.
  destruct (negb (truthy userId) || negb (truthy terminalId)).
  { intros [= <- <-]. cbn. split; [|exact I]. exists []. rewrite app_nil_r.
    split; [reflexivity|]. intros ? ? Hin. apply elem_of_nil in Hin. contradiction. }
  cbv zeta. intros H.
  destruct (bind_quiet _ _ _ _ _ (reuse_existing_quiet _ _) H)
    as [(reused & s2 & Hreuse & H')|(e & Hreuse & ->)]; clear H; [rename H' into H|].
  2:{ apply reuse_existing_quiet in Hreuse as (_ & _ & new & Hev & Hnew).
      split; [|exact I]. exists new. split; [assumption|].
      intros c ws' Hin. apply Hnew in Hin. contradiction. }
  pose proof (reuse_existing_quiet _ _ _ _ _ Hreuse) as (_ & Hreg2 & new2 & Hev2 & Hnew2).
  destruct reused as [c|].
  { injection H as <- <-.
    apply reuse_existing_some in Hreuse as (info & running & paused & Hinfo & Hc & Hi & Hr).
    split.
    - exists new2. split; [assumption|]. intros c' ws' Hin. apply Hnew2 in Hin. contradiction.
    - exists info. rewrite Hreg2. split; [assumption|]. split; [assumption|]. left.
      split; [assumption|]. eauto. }
  destruct (bind_quiet _ _ _ _ _ (ensure_workspace_quiet _) H)
    as [([] & s3 & Hws & H')|(e & Hws & ->)]; clear H; [rename H' into H|].
  2:{ apply ensure_workspace_quiet in Hws as (_ & _ & new3 & Hev3 & Hnew3).
      split; [|exact I]. exists (new2 ++ new3)%list. rewrite Hev3, Hev2, app_assoc.
      split; [reflexivity|]. intros c ws' Hin.
      apply elem_of_app in Hin as [Hin|Hin]; [apply Hnew2 in Hin|apply Hnew3 in Hin];
        contradiction. }
  pose proof (ensure_workspace_quiet _ _ _ _ Hws) as (_ & Hreg3 & new3 & Hev3 & Hnew3).
  destruct (bind_quiet _ _ _ _ _ (ensure_image_quiet _) H)
    as [([] & s4 & Him & H')|(e & Him & ->)]; clear H; [rename H' into H|].
  2:{ apply ensure_image_quiet in Him as (_ & _ & new4 & Hev4 & Hnew4).
      split; [|exact I]. exists (new2 ++ new3 ++ new4)%list.
      rewrite Hev4, Hev3, Hev2, <- !app_assoc.
      split; [reflexivity|]. intros c ws' Hin.
      apply elem_of_app in Hin as [Hin|Hin]; [apply Hnew2 in Hin; contradiction|].
      apply elem_of_app in Hin as [Hin|Hin]; [apply Hnew3 in Hin|apply Hnew4 in Hin];
        contradiction. }
  pose proof (ensure_image_quiet _ _ _ _ Him) as (_ & Hreg4 & new4 & Hev4 & Hnew4).
  apply create_start_register_spec in H.
  assert (Hpre : events s4 = (events s ++ (new2 ++ new3 ++ new4))%list).
  { rewrite Hev4, Hev3, Hev2, <- !app_assoc. reflexivity. }
  assert (Hquiet : forall c ws', ContainerCreated c ws' ∉ (new2 ++ new3 ++ new4)%list).
  { intros c ws' Hin.
    apply elem_of_app in Hin as [Hin|Hin]; [apply Hnew2 in Hin; contradiction|].
    apply elem_of_app in Hin as [Hin|Hin]; [apply Hnew3 in Hin|apply Hnew4 in Hin];
      contradiction. }
  destruct r as [c|e|]; [| |contradiction].
  - destruct H as (Hc & Hs & Hreg & Hev). split.
    + eexists. rewrite Hev, Hpre, <- app_assoc. split; [reflexivity|].
      intros c' ws' Hin. apply elem_of_app in Hin as [Hin|Hin];
        [apply Hquiet in Hin; contradiction|].
      apply elem_of_cons in Hin as [Hin|Hin]; [congruence|].
      repeat (apply elem_of_cons in Hin as [Hin|Hin]; [discriminate|]).
      apply elem_of_nil in Hin. contradiction.
    + eexists. rewrite Hreg. split; [apply lookup_insert_eq|]. split; [reflexivity|].
      right. split; [assumption|]. split; [assumption|].
      eexists. rewrite Hev, Hpre, <- app_assoc. reflexivity.
  - destruct H as (_ & new5 & Hev5 & Hnew5). split; [|exact I].
    eexists. rewrite Hev5, Hpre, <- app_assoc. split; [reflexivity|].
    intros c' ws' Hin. apply elem_of_app in Hin as [Hin|Hin];
      [apply Hquiet in Hin; contradiction|]. eapply Hnew5; eassumption.
Qed.

(** The session has a container that runs or is paused: the one
    [createDockerContainer] returns without creating another. *)
Definition reusable (userId terminalId : string) (s : server) : bool :=
  match activeContainers s !! session_key userId terminalId with
  | Some info =>
      match inspect d (container info) with
      | Some (running, paused) => running || paused
      | None => false
      end
  | None => false
  end.

Lemma reuse_existing_none userId terminalId s :
  reusable userId terminalId s = false ->
  exists s2, reuse_existing d userId terminalId s = (Ok None, s2) /\
             base s2 = base s.
Proof.
  unfold reusable, reuse_existing, resetContainerTimer, emit, bind, gets, modify, ret.
  destruct (activeContainers s !! _) as [info|]; [|eauto].
  destruct (inspect d (container info)) as [[running paused]|];
    [intros ->|intros _]; eauto.
Qed.

(** One of the four steps fails: the workspace is missing and [mkdir], or
    [chmod] after it, throws, the image is missing and the pull fails,
    [createContainer] throws, or the container does not start. *)
Definition step_fails (userId terminalId language : string)
    (projectSlugForHost : option string) (vfsProjectRootIdForSync : option nat)
    (s : server) : Prop :=
  let ws := workspace_of cwd userId projectSlugForHost in
  let config := config_for cwd userId terminalId language projectSlugForHost
                  vfsProjectRootIdForSync in
  (existsSync (host (base s)) ws = false /\
   exists e m, (mkdir_recursive ws ;;; chmod ws) (host (base s)) = (Throw e, m)) \/
  (imageExists d (Image config) = false /\ pull_image d (Image config) = false) \/
  create d config = None \/
  (exists c, create d config = Some c /\ start d c = false).

(** A step that fails makes the [try] throw, when no container of the
    session is reused. *)
Lemma createDockerContainer_try_fails userId terminalId language slug vfsId s :
  reusable userId terminalId s = false ->
  step_fails userId terminalId language slug vfsId s ->
  exists e s1,
    createDockerContainer_try cwd d userId terminalId language slug vfsId s
    = (Throw e, s1).
Proof.
  intros Hre Hfail. unfold step_fails in Hfail. cbv zeta in Hfail.
  unfold createDockerContainer_try.
  destruct (negb (truthy userId) || negb (truthy terminalId)); [unfold throw; eauto|].
  cbv zeta. unfold bind at 1.
  destruct (reuse_existing_none _ _ _ Hre) as (s2 & -> & Hb).
  set (ws := workspace_of cwd userId slug) in *.
  set (config := config_for cwd userId terminalId language slug vfsId) in *.
  unfold bind at 1.
  destruct (ensure_workspace ws s2) as [[[]|e|] s3] eqn:Ews; [|eauto|].
  2:{ apply ensure_workspace_quiet in Ews as [Hd _]. contradiction. }
  unfold bind at 1.
  destruct (ensure_image d (Image config) s3) as [[[]|e|] s4] eqn:Eim; [|eauto|].
  2:{ apply ensure_image_quiet in Eim as [Hd _]. contradiction. }
  destruct Hfail as [[Hmiss (e & m & Hmk)]|[[Hno Hpull]|Hcs]].
  - exfalso. unfold ensure_workspace, bind, gets, on_world, on_host, zoom in Ews.
    rewrite Hb, Hmiss in Ews. cbn [negb] in Ews. rewrite !Hb in Ews.
    unfold bind in Hmk.
    destruct (mkdir_recursive ws (host (base s))) as [[[]|e1|] m1];
      [|discriminate Ews|discriminate Ews].
    cbn in Ews. rewrite Hmk in Ews. discriminate Ews.
  - exfalso. unfold ensure_image in Eim. fold config in Eim.
    rewrite Hno, Hpull in Eim. discriminate Eim.
  - unfold create_start_register. fold config.
    destruct Hcs as [->|(c & -> & Hst)]; [unfold throw; eauto|].
    unfold bind, emit, modify. rewrite Hst. unfold throw. eauto.
Qed.

(** C9: when [createDockerContainer] fails, at whichever step, the caller
    gets the error and the map holds no entry for the key of the session;
    it never fails to return. When it succeeds, the entry of the session
    holds the container returned, which either was registered already and
    runs or is paused, or was created and started by this call and
    registered only after that. And each of the four steps, when it fails,
    makes the call fail, unless a container of the session is reused and
    the steps are not taken: a missing workspace for which [mkdir], or
    [chmod] after it, throws, a missing image that cannot be pulled,
    [createContainer] that throws, a container that does not start. *)
Theorem createDockerContainer_registers_after_start
    (userId terminalId language : string) (projectSlugForHost : option string)
    (vfsProjectRootIdForSync : option nat) (s : server) :
  let key := session_key userId terminalId in
  let ws := workspace_of cwd userId projectSlugForHost in
  let config := config_for cwd userId terminalId language projectSlugForHost
                  vfsProjectRootIdForSync in
  let '(r, s') :=
    createDockerContainer cwd d userId terminalId language projectSlugForHost
      vfsProjectRootIdForSync s in
  match r with
  | Throw message =>
      startsWith message "Failed to create container: " = true /\
      activeContainers s' !! key = None
  | Ok c =>
      exists info, activeContainers s' !! key = Some info /\ container info = c /\
        ((activeContainers s !! key = Some info /\
          exists running paused,
            inspect d c = Some (running, paused) /\ running || paused = true) \/
         (create d config = Some c /\
          start d c = true /\
          exists pre,
            events s' = (events s ++ pre ++
                           [ContainerCreated c ws;
                            ContainerStarted c; SessionRegistered key c])%list))
  | Diverges => False
  end /\
  (reusable userId terminalId s = false ->
   (existsSync (host (base s)) ws = false /\
    exists e m,
      (mkdir_recursive ws ;;; chmod ws) (host (base s)) = (Throw e, m)) \/
   (imageExists d (Image config) = false /\ pull_image d (Image config) = false) \/
   create d config = None \/
   (exists c, create d config = Some c /\ start d c = false) ->
   exists message, r = Throw message).
Proof.
  cbv zeta. unfold createDockerContainer, try_catch.
  destruct (createDockerContainer_try _ _ _ _ _ _ _ s) as [r s1] eqn:E.
  pose proof (createDockerContainer_try_fails userId terminalId language
                projectSlugForHost vfsProjectRootIdForSync s) as Hfails.
  rewrite E in Hfails.
  apply createDockerContainer_try_spec in E as [_ E].
  destruct r as [c|e|]; [| |contradiction].
  - split; [exact E|]. intros Hre Hfail.
    destruct (Hfails Hre Hfail) as (e & s2 & [=]).
  - run. cbn. split; [|eauto].
    split; [apply startsWith_app|]. apply lookup_delete_eq.
Qed.

(** The events of a call of [createDockerContainer]: a sandbox it creates is
    mounted on the workspace of the project. *)
Lemma createDockerContainer_events userId terminalId language slug vfsId s :
  exists new,
    events (createDockerContainer cwd d userId terminalId language slug vfsId s).2
    = (events s ++ new)%list /\
    created_on (workspace_of cwd userId slug) new.
Proof.
  unfold createDockerContainer, try_catch.
  destruct (createDockerContainer_try _ _ _ _ _ _ _ s) as [r s1] eqn:E.
  apply createDockerContainer_try_spec in E as [E _].
  destruct r as [c|e|]; exact E.
Qed.

End Lifecycle.

(** ** The order of pull and sandbox creation *)

Section SandboxAfterPull.
Import JsString NodePath HostFs FileModel CodeExec DockerCtl Terminal.

(** In [evs], no sandbox is created on a workspace before a pull into that
    workspace has completed. *)
Definition pull_precedes_create (evs : list event) : Prop :=
  forall i c ws, evs !! i = Some (ContainerCreated c ws) ->
    exists j, j < i /\ evs !! j = Some (PullCompleted ws).

(** The slug [project_context] hands to the container is the one the host
    path was computed from. *)
Lemma project_context_slug userId path c doc slug :
  truthy userId = true ->
  project_context userId path c = Ok (doc, slug) ->
  effective_slug userId (Some slug) = slug.
Proof.
  intros Hu. unfold project_context, effective_slug.
  destruct (bool_decide (path = "/")).
  { intros [= <- <-]. cbn. rewrite Hu. reflexivity. }
  destruct (List.filter _ _) as [|seg segs] eqn:Hf; [discriminate|].
  assert (Hseg : truthy seg = true).
  { assert (Hin : In seg (List.filter (fun p => truthy p) (split "/" path)))
      by (rewrite Hf; left; reflexivity).
    apply List.filter_In in Hin as [_ Hin]. exact Hin. }
  destruct (findOne _ c); intros [= <- <-]; cbn.
  - rewrite Hseg. reflexivity.
  - rewrite Hu. reflexivity.
Qed.

Lemma created_after_pull ws new :
  created_on ws new -> pull_precedes_create (PullCompleted ws :: new).
Proof.
  intros Hnew i c ws' Hi. destruct i as [|i]; [discriminate|].
  cbn in Hi. assert (ws' = ws) as ->.
  { eapply Hnew. eapply list_elem_of_lookup_2. exact Hi. }
  exists 0. split; [lia|reflexivity].
Qed.

Lemma pull_precedes_create_nil : pull_precedes_create [].
Proof. intros i c ws Hi. rewrite lookup_nil in Hi. discriminate. Qed.

Variable cwd : string.
Variable d : daemon.
Variable fuel : nat.

(** C5, as amended: on the terminal path, whatever the handler of
    [initialize_pty] does, a sandbox it creates is created after the pull
    into the workspace the sandbox mounts has completed in the same
    call. *)
Theorem initialize_pty_pulls_before_create (socketId : string) (data : init_data)
    (s : server) :
  exists new,
    events (initialize_pty cwd d fuel socketId data s).2 = (events s ++ new)%list /\
    pull_precedes_create new.
Proof.
  unfold initialize_pty, try_catch.
  match goal with |- context [match ?body s with _ => _ end] =>
    assert (Hbody : exists new, events (body s).2 = (events s ++ new)%list /\
                                pull_precedes_create new)
  end.
  2:{ destruct Hbody as (new & Hev & Hnew). exists new. split; [|exact Hnew].
      match goal with |- context [match ?body s with _ => _ end] =>
        destruct (body s) as [[m|e|] s1] end; exact Hev. }
  cbv zeta.
  destruct (truthy_opt (data_userId data)) eqn:Hu; cbn [negb].
  2:{ exists []. rewrite app_nil_r. split; [reflexivity|apply pull_precedes_create_nil]. }
  set (userId := default EmptyString (data_userId data)).
  assert (Hu' : truthy userId = true).
  { unfold userId. destruct (data_userId data); [exact Hu|discriminate]. }
  set (path := if truthy_opt (data_initialVfsPath data) then _ else "/").
  unfold bind at 1.
  destruct (project_context userId path (vfs (base s))) as [[doc slug]|e|] eqn:Hctx;
    cbn [fst snd].
  2,3: exists []; rewrite app_nil_r; split;
         [reflexivity|apply pull_precedes_create_nil].
  set (ws := resolve cwd [DockerCtl.BASE_PROJECT_DIR cwd; userId; slug]).
  unfold bind at 1. unfold on_world at 1, zoom at 1.
  destruct (syncProjectFromVfsToHost fuel userId _ ws (base s)) as [[[]|e|] w1];
    cbn [fst snd].
  2,3: exists []; rewrite app_nil_r; split;
         [reflexivity|apply pull_precedes_create_nil].
  unfold bind at 1, emit at 1, modify at 1. cbn [events base activeContainers containerTimers with_base].
  unfold prepareContainerForPty.
  match goal with |- context [createDockerContainer cwd d userId socketId ?lang (Some slug) ?v] =>
    set (language := lang); set (vfsId := v) end.
  match goal with |- context [bind (createDockerContainer _ _ _ _ _ _ _) ?k ?s0] =>
    set (s2 := s0); set (rest := k) end.
  destruct (createDockerContainer_events cwd d userId socketId language (Some slug) vfsId s2)
    as (new & Hev & Hnew).
  assert (Hws : workspace_of cwd userId (Some slug) = ws).
  { unfold workspace_of, ws. erewrite project_context_slug by eassumption. reflexivity. }
  rewrite Hws in Hnew.
  exists (PullCompleted ws :: new). split; [|apply created_after_pull; exact Hnew].
  unfold bind.
  destruct (createDockerContainer cwd d userId socketId language (Some slug) vfsId s2)
    as [[c|e|] s3]; cbn [fst snd] in *.
  - subst rest. unfold resetContainerTimer. run. cbn. rewrite Hev. subst s2. cbn.
    rewrite <- app_assoc. reflexivity.
  - rewrite Hev. subst s2. cbn. rewrite <- app_assoc. reflexivity.
  - rewrite Hev. subst s2. cbn. rewrite <- app_assoc. reflexivity.
Qed.

End SandboxAfterPull.

Section SandboxScenario.
Import JsString NodePath HostFs FileModel CodeExec DockerCtl Terminal.

(** A daemon that answers every call. *)
Definition willing_daemon : daemon :=
  mkDaemon (fun _ => Some (true, false)) (fun _ => Some true) (fun _ => true)
    (fun _ => Some 7) (fun _ => true) (fun _ _ _ => Ok "done").

Definition fresh_server : server :=
  mkServer (mkWorld (mkColl [] 1) ∅ []) ∅ ∅ [].

(** C5, as stated, fails: a one-shot command for a session without a
    container creates the sandbox, and no pull has taken place. *)
Lemma executeCommandInContainer_creates_without_pull :
  events (executeCommandInContainer "/srv/app" willing_daemon "u1" "t1"
            "npm install" "/workspace" "node" (Some "demo") None fresh_server).2
  = [ContainerCreated 7 "/srv/app/projects/u1/demo"; ContainerStarted 7;
     SessionRegistered "u1-t1" 7] /\
  ~ pull_precedes_create
      (events (executeCommandInContainer "/srv/app" willing_daemon "u1" "t1"
                 "npm install" "/workspace" "node" (Some "demo") None
                 fresh_server).2).
Proof.
  assert (H : events (executeCommandInContainer "/srv/app" willing_daemon "u1" "t1"
            "npm install" "/workspace" "node" (Some "demo") None fresh_server).2
  = [ContainerCreated 7 "/srv/app/projects/u1/demo"; ContainerStarted 7;
     SessionRegistered "u1-t1" 7]) by (vm_compute; reflexivity).
  split; [exact H|]. rewrite H. intros Hp.
  destruct (Hp 0 7 "/srv/app/projects/u1/demo" eq_refl) as (j & Hj & _). lia.
Qed.

(** A daemon without the image, which it cannot pull. *)
Definition offline_daemon : daemon :=
  mkDaemon (fun _ => Some (true, false)) (fun _ => Some false) (fun _ => false)
    (fun _ => Some 7) (fun _ => true) (fun _ _ _ => Ok "done").

Lemma createDockerContainer_registers_after_start_witness :
  let '(r, s') :=
    createDockerContainer "/srv/app" offline_daemon "u1" "t1" "node" (Some "demo")
      None fresh_server in
  (exists message, r = Throw message) /\ activeContainers s' !! "u1-t1" = None.
Proof.
  pose proof (createDockerContainer_registers_after_start "/srv/app" offline_daemon
                "u1" "t1" "node" (Some "demo") None fresh_server) as H.
  cbv zeta in H.
  destruct (createDockerContainer "/srv/app" offline_daemon "u1" "t1" "node"
              (Some "demo") None fresh_server) as [r s'].
  destruct H as [H1 H2].
  destruct (H2 eq_refl (or_intror (or_introl (conj eq_refl eq_refl))))
    as [message ->].
  split; [eauto|]. apply H1.
Defined.

(** The terminal path on the same server: the pull comes first. *)
Example initialize_pty_scenario :
  events (initialize_pty "/srv/app" willing_daemon 5 "sock"
            (mkInit (Some "u1") None (Some "/demo/src")) fresh_server).2
  = [PullCompleted "/srv/app/projects/u1/u1";
     ContainerCreated 7 "/srv/app/projects/u1/u1"; ContainerStarted 7;
     SessionRegistered "u1-sock" 7].
Proof. vm_compute. reflexivity. Qed.

End SandboxScenario.

(** ** The [parentId] links: walks that end, and one that does not *)

Section ParentLinks.
Import JsString NodePath HostFs FileModel CodeExec FileCtl.

(** The ids met from a parent up to the top level, the nearest first. *)
Inductive chain (files : list File) : list nat -> option nat -> Prop :=
| chain_top : chain files [] None
| chain_step f path :
    f ∈ files -> chain files path (parentId f) ->
    chain files (FileModel._id f :: path) (Some (FileModel._id f)).

Lemma chain_ids files path parent :
  chain files path parent -> forall x, x ∈ path -> x ∈ FileModel._id <$> files.
Proof.
  induction 1 as [|f path Hf _ IH]; intros x Hx.
  - apply elem_of_nil in Hx. contradiction.
  - apply elem_of_cons in Hx as [->|Hx]; [|auto].
    apply list_elem_of_fmap. eauto.
Qed.

Lemma chain_functional files p1 p2 parent :
  NoDup (FileModel._id <$> files) ->
  chain files p1 parent -> chain files p2 parent -> p1 = p2.
Proof.
  intros Hnd H1. revert p2. induction H1 as [|f path Hf _ IH]; intros p2 H2.
  - inversion H2. reflexivity.
  - inversion H2 as [|g path' Hg Hrest Hid]; subst.
    assert (g = f) as -> by (eapply same_id_same_doc; eassumption).
    f_equal. apply IH. exact Hrest.
Qed.

Lemma chain_suffix files path parent :
  chain files path parent ->
  forall x, x ∈ path -> exists pre s, path = (pre ++ s)%list /\ chain files s (Some x).
Proof.
  induction 1 as [|f path Hf Hc IH]; intros x Hx.
  - apply elem_of_nil in Hx. contradiction.
  - apply elem_of_cons in Hx as [->|Hx].
    + exists [], (FileModel._id f :: path). split; [reflexivity|].
      constructor; assumption.
    + destruct (IH x Hx) as (pre & s & -> & Hs).
      exists (FileModel._id f :: pre), s. split; [reflexivity|exact Hs].
Qed.

(** With unique ids no id is met twice on the way up. *)
Lemma chain_NoDup files path parent :
  NoDup (FileModel._id <$> files) -> chain files path parent -> NoDup path.
Proof.
  intros Hnd. induction 1 as [|f path Hf Hc IH]; [constructor|].
  apply NoDup_cons. split; [|exact IH]. intros Hin.
  destruct (chain_suffix _ _ _ Hc _ Hin) as (pre & s & -> & Hs).
  pose proof (chain_functional _ _ _ _ Hnd Hs (chain_step _ f _ Hf Hc)) as E.
  apply (f_equal length) in E. cbn in E. rewrite length_app in E. lia.
Qed.

Lemma chain_length files path parent :
  NoDup (FileModel._id <$> files) -> chain files path parent ->
  length path <= length files.
Proof.
  intros Hnd Hc. rewrite <- (length_fmap FileModel._id files).
  apply submseteq_length, NoDup_submseteq.
  - eapply chain_NoDup; eassumption.
  - eapply chain_ids; eassumption.
Qed.

(** [getVfsDescendants] below a parent whose way up ends at the top
    level: the depth of the recursion is at most the number of
    documents. *)
Lemma getVfsDescendants_chain (c : collection) (userId : string) :
  NoDup (FileModel._id <$> docs c) ->
  forall fuel parent path,
    chain (docs c) path parent -> length (docs c) < fuel + length path ->
    is_Some (getVfsDescendants fuel c userId parent).
Proof.
  intros Hnd. induction fuel as [|fuel IH]; intros parent path Hc Hb.
  - pose proof (chain_length _ _ _ Hnd Hc). lia.
  - cbn [getVfsDescendants].
    assert (Hitems : forall f, In f (findMany (children_query userId parent) c) ->
                       f ∈ docs c /\ parentId f = parent).
    { intros f Hin. apply List.filter_In in Hin as [Hin Hq].
      apply children_query_spec in Hq as [_ Hq]. split; [|exact Hq].
      apply list_elem_of_In. exact Hin. }
    induction (findMany (children_query userId parent) c) as [|item rest IHrest].
    + eauto.
    + destruct IHrest as [l Hl]. { intros f Hf. apply Hitems. right. exact Hf. }
      destruct (Hitems item (or_introl eq_refl)) as [Hin Hp].
      destruct (type item).
      * cbn. rewrite Hl. cbn. eauto.
      * destruct (IH (Some (FileModel._id item)) (FileModel._id item :: path))
          as [ch Hch].
        { constructor; [exact Hin|]. rewrite Hp. exact Hc. }
        { cbn. lia. }
        rewrite Hch. cbn. rewrite Hl. cbn. eauto.
Qed.

Lemma buildFileTree_chain (files : list File) :
  NoDup (FileModel._id <$> files) ->
  forall fuel parent path,
    chain files path parent -> length files < fuel + length path ->
    is_Some (buildFileTree fuel files parent).
Proof.
  intros Hnd. induction fuel as [|fuel IH]; intros parent path Hc Hb.
  - pose proof (chain_length _ _ _ Hnd Hc). lia.
  - cbn [buildFileTree].
    assert (Hitems : forall f,
              In f (List.filter (fun f => bool_decide (parentId f = parent)) files) ->
              f ∈ files /\ parentId f = parent).
    { intros f Hin. apply List.filter_In in Hin as [Hin Hq].
      apply bool_decide_eq_true in Hq. split; [|exact Hq].
      apply list_elem_of_In. exact Hin. }
    induction (List.filter (fun f => bool_decide (parentId f = parent)) files)
      as [|item rest IHrest].
    + eauto.
    + destruct IHrest as [l Hl]. { intros f Hf. apply Hitems. right. exact Hf. }
      destruct (Hitems item (or_introl eq_refl)) as [Hin Hp].
      destruct (IH (Some (FileModel._id item)) (FileModel._id item :: path))
        as [ch Hch].
      { constructor; [exact Hin|]. rewrite Hp. exact Hc. }
      { cbn. lia. }
      rewrite Hch. rewrite Hl. cbn. eauto.
Qed.

Lemma List_filter_sublist {A} (q : A -> bool) (l : list A) :
  sublist (List.filter q l) l.
Proof.
  induction l as [|x l IH]; cbn; [constructor|].
  destruct (q x); [apply sublist_skip|apply sublist_cons]; exact IH.
Qed.

(** X3: the pull from the user's top level, or from a document at the
    top level, returns or throws when ids are unique, however the
    [parentId] links run elsewhere in the collection: with more fuel than
    there are documents the walk of the descendants ends. *)
Theorem pull_from_top_level_returns fuel userId root path w :
  NoDup (FileModel._id <$> docs (vfs w)) -> root_ok (vfs w) root ->
  length (docs (vfs w)) < fuel ->
  (syncProjectFromVfsToHost fuel userId (Some root) path w).1 <> Diverges.
Proof.
  intros Hnd Hroot Hfuel. unfold syncProjectFromVfsToHost.
  unfold bind at 1, gets at 1. unfold bind at 1.
  assert (Hdir : forall r1 w1,
    (if negb (existsSync (host w) path)
     then on_host (mkdir_recursive path) ;;; on_host (chmod path)
     else ret tt) w = (r1, w1) -> vfs w1 = vfs w /\ r1 <> Diverges).
  { intros r1 w1. destruct (negb _).
    - unfold bind. destruct (on_host (mkdir_recursive path) w) as [r2 w2] eqn:E2.
      apply on_host_mkdir in E2 as (Hr2 & Hv2 & Hc2 & Hg2).
      destruct r2 as [[]|e|]; [| |contradiction].
      + intros E3. apply on_host_chmod in E3 as [Hr3 ->]. auto.
      + intros [= <- <-]. auto.
    - intros [= <- <-]. split; [reflexivity|discriminate]. }
  match goal with |- context [match ?m w with _ => _ end] =>
    destruct (m w) as [r1 w1] eqn:E1 end.
  destruct (Hdir _ _ eq_refl) as [Hv1 Hr1]. clear Hdir E1.
  destruct r1 as [[]|e|]; [|discriminate|contradiction].
  unfold bind at 1. rewrite Hv1.
  assert (Hsome : is_Some (getVfsDescendants fuel (vfs w) userId root)).
  { destruct root as [p|].
    - destruct Hroot as (r & Hr & <- & Hp).
      apply (getVfsDescendants_chain _ _ Hnd fuel _ [FileModel._id r]).
      + constructor; [exact Hr|]. rewrite Hp. constructor.
      + cbn. lia.
    - apply (getVfsDescendants_chain _ _ Hnd fuel None []); [constructor|cbn; lia]. }
  destruct Hsome as [l Hl]. rewrite Hl.
  destruct (createHostFilesRecursive l path path w1) as [r2 w2] eqn:E2.
  apply createHostFilesRecursive_spec in E2 as [Hr2 _]. exact Hr2.
Qed.

(** X4: [getFiles] always answers when ids are unique: the tree is built
    from the top level, and no document is met twice on a way down from
    there. *)
Theorem getFiles_returns fuel requester c :
  NoDup (FileModel._id <$> docs c) -> length (docs c) < fuel ->
  is_Some (getFiles fuel requester c).
Proof.
  intros Hnd Hfuel. unfold getFiles, findMany.
  set (files := List.filter _ (docs c)).
  assert (Hsub : sublist files (docs c)) by apply List_filter_sublist.
  apply (buildFileTree_chain files) with (path := []).
  - eapply sublist_NoDup; [exact Hnd|]. apply fmap_sublist. exact Hsub.
  - constructor.
  - apply sublist_length in Hsub. cbn. lia.
Qed.

Lemma find_by_id (l : list File) f :
  NoDup (FileModel._id <$> l) -> f ∈ l ->
  List.find (fun d => bool_decide (FileModel._id d = FileModel._id f)) l = Some f.
Proof.
  intros Hnd Hf.
  destruct (List.find _ l) as [g|] eqn:E.
  - apply List.find_some in E as [Hg Hid]. apply bool_decide_eq_true in Hid.
    f_equal. eapply same_id_same_doc; [exact Hnd| |exact Hf|exact Hid].
    apply list_elem_of_In. exact Hg.
  - exfalso. apply list_elem_of_In in Hf.
    pose proof (List.find_none _ _ E f Hf) as H. cbn in H.
    apply bool_decide_eq_false in H. contradiction.
Qed.

(** A folder of the owner among the items makes the loop of
    [getVfsDescendants] wait for the walk below that folder. *)
Lemma getVfsDescendants_waits fuel c userId parent f :
  f ∈ findMany (children_query userId parent) c -> type f = folder ->
  getVfsDescendants fuel c userId (Some (FileModel._id f)) = None ->
  getVfsDescendants (S fuel) c userId parent = None.
Proof.
  intros Hin Hty Hnone. cbn [getVfsDescendants].
  induction (findMany (children_query userId parent) c) as [|item rest IH].
  - apply elem_of_nil in Hin. contradiction.
  - apply elem_of_cons in Hin as [<-|Hin].
    + rewrite Hty, Hnone. reflexivity.
    + specialize (IH Hin).
      destruct (match type item with
                | file => _
                | folder => _
                end) as [ch|]; [|reflexivity].
      rewrite IH. reflexivity.
Qed.

(** X5: [moveFile] asks nothing of the target. The owner can move a
    folder into itself: the call answers 200 with the folder as its own
    parent, and from then on [getVfsDescendants] below that folder never
    returns. *)
Theorem moveFile_into_itself_never_ends c f requester now :
  NoDup (FileModel._id <$> docs c) -> f ∈ docs c ->
  userId f = requester -> type f = folder ->
  let r := moveFile (FileModel._id f) (Some (FileModel._id f)) requester now c in
  (exists f', r.1 = Sent 200 f' /\ FileModel._id f' = FileModel._id f /\
              parentId f' = Some (FileModel._id f)) /\
  forall fuel, getVfsDescendants fuel r.2 requester (Some (FileModel._id f)) = None.
Proof.
  intros Hnd Hf Hu Hty. cbv zeta. unfold moveFile, findById, findOne.
  rewrite (find_by_id _ _ Hnd Hf). rewrite bool_decide_eq_true_2 by exact Hu.
  cbn [negb fst snd].
  set (f' := if bool_decide (parentId f = Some (FileModel._id f)) then f
             else set_updatedAt (set_parentId f (Some (FileModel._id f))) now).
  assert (Hf' : FileModel._id f' = FileModel._id f /\
                parentId f' = Some (FileModel._id f) /\
                userId f' = requester /\ type f' = folder).
  { unfold f'. case_bool_decide as E; cbn; auto. }
  destruct Hf' as (Hid & Hp & Hu' & Hty').
  split; [exists f'; auto|].
  assert (Hin : f' ∈ findMany (children_query requester (Some (FileModel._id f)))
                       (save f' c)).
  { unfold findMany. apply list_elem_of_In, List.filter_In. split.
    - apply list_elem_of_In. rewrite save_docs. apply list_elem_of_fmap.
      exists f. split; [|exact Hf]. unfold replace_by.
      rewrite bool_decide_eq_true_2 by (symmetry; exact Hid). reflexivity.
    - unfold children_query. rewrite !bool_decide_eq_true_2 by assumption.
      reflexivity. }
  induction fuel as [|fuel IH]; [reflexivity|].
  apply (getVfsDescendants_waits fuel _ _ _ f' Hin Hty').
  rewrite Hid. exact IH.
Qed.

End ParentLinks.

Section ParentLinksScenario.
Import JsString NodePath HostFs FileModel CodeExec FileCtl.

Lemma demo_vfs_ids : NoDup (FileModel._id <$> docs demo_vfs).
Proof. apply (bool_decide_unpack _). vm_compute. exact I. Defined.

Lemma pull_from_top_level_returns_witness :
  (syncProjectFromVfsToHost 4 "u1" (Some (Some 1)) demo_path before_pull).1
  <> Diverges.
Proof.
  apply pull_from_top_level_returns.
  - exact demo_vfs_ids.
  - eexists. split; [left|]. split; reflexivity.
  - cbn. lia.
Defined.

Lemma getFiles_returns_witness : is_Some (getFiles 4 "u1" demo_vfs).
Proof. apply getFiles_returns; [exact demo_vfs_ids|cbn; lia]. Defined.

Lemma moveFile_into_itself_never_ends_witness :
  getVfsDescendants 100 (moveFile 2 (Some 2) "u1" 7 demo_vfs).2 "u1" (Some 2) = None.
Proof.
  apply (moveFile_into_itself_never_ends demo_vfs
           (owned 2 "src" folder EmptyString (Some 1)) "u1" 7).
  - exact demo_vfs_ids.
  - right. left.
  - reflexivity.
  - reflexivity.
Defined.

End ParentLinksScenario.

(** ** [deleteFile] and the tree of [getFiles] *)

Section Orphaned.
Import JsString NodePath HostFs FileModel CodeExec FileCtl.

(** The document [g] is in the tree. *)
Inductive in_tree (g : File) : tree -> Prop :=
| in_tree_root children : in_tree g (Node g children)
| in_tree_child d children t :
    t ∈ children -> in_tree g t -> in_tree g (Node d children).

Definition shown (g : File) (ts : list tree) : Prop :=
  exists t, t ∈ ts /\ in_tree g t.

(** The [parentId] links of [g] lead to [parent] through documents of
    [files]. *)
Inductive leads (files : list File) (parent : option nat) : File -> Prop :=
| leads_direct g : g ∈ files -> parentId g = parent -> leads files parent g
| leads_via g h :
    leads files parent h -> g ∈ files -> parentId g = Some (FileModel._id h) ->
    leads files parent g.

Lemma leads_trans files parent f g :
  leads files (Some (FileModel._id f)) g -> f ∈ files -> parentId f = parent ->
  leads files parent g.
Proof.
  intros H Hf Hp. induction H as [g Hg Hpg|g h _ IH Hg Hpg].
  - eapply leads_via; [|exact Hg|exact Hpg]. apply leads_direct; assumption.
  - eapply leads_via; [exact IH|exact Hg|exact Hpg].
Qed.

(** What [buildFileTree] shows below a parent is linked to that parent. *)
Lemma shown_leads files : forall fuel parent ts g,
  buildFileTree fuel files parent = Some ts -> shown g ts -> leads files parent g.
Proof.
  induction fuel as [|fuel IH]; intros parent ts g; [discriminate|].
  cbn [buildFileTree].
  assert (Hitems : forall f,
            In f (List.filter (fun f => bool_decide (parentId f = parent)) files) ->
            f ∈ files /\ parentId f = parent).
  { intros f Hin. apply List.filter_In in Hin as [Hin Hq].
    apply bool_decide_eq_true in Hq. split; [|exact Hq].
    apply list_elem_of_In. exact Hin. }
  revert ts.
  induction (List.filter (fun f => bool_decide (parentId f = parent)) files)
    as [|item rest IHrest]; intros ts.
  - intros [= <-] (t & Ht & _). apply elem_of_nil in Ht. contradiction.
  - destruct (buildFileTree fuel files (Some (FileModel._id item)))
      as [children|] eqn:Hch; [|discriminate].
    match goal with |- context [option_map _ ?e] => destruct e as [l|] eqn:Hl end;
      [|discriminate].
    cbn. intros [= <-] (t & Ht & Hg).
    destruct (Hitems item (or_introl eq_refl)) as [Hin Hp].
    apply elem_of_cons in Ht as [->|Ht].
    + inversion Hg as [ch|d ch t' Ht' Hg']; subst.
      * apply leads_direct; first [assumption|reflexivity].
      * eapply leads_trans; [|exact Hin|first [assumption|reflexivity]].
        eapply IH; [exact Hch|]. exists t'. auto.
    + eapply IHrest; [|reflexivity|exists t; auto].
      intros f Hf. apply Hitems. right. exact Hf.
Qed.

Lemma descendant_of_elem c a g : descendant_of c a g -> g ∈ docs c.
Proof. destruct 1; assumption. Qed.

(** X6: [deleteFile] removes the one document. What was below a deleted
    folder stays in the collection, and is not in the tree [getFiles]
    answers with from then on. *)
Theorem deleteFile_hides_descendants c f requester g :
  NoDup (FileModel._id <$> docs c) -> f ∈ docs c -> userId f = requester ->
  descendant_of c (FileModel._id f) g -> g <> f ->
  let r := deleteFile (FileModel._id f) requester c in
  r.1 = Removed "File removed" /\ g ∈ docs r.2 /\
  forall fuel ts, getFiles fuel requester r.2 = Some ts -> ~ shown g ts.
Proof.
  intros Hnd Hf Hu Hg Hne. cbv zeta. unfold deleteFile, findById, findOne.
  rewrite (find_by_id _ _ Hnd Hf). rewrite bool_decide_eq_true_2 by exact Hu.
  cbn [negb fst snd]. split; [reflexivity|].
  assert (Hdocs : forall x, x ∈ docs (deleteOne (FileModel._id f) c) <->
                            x ∈ docs c /\ x <> f)
    by (intros x; cbn; apply remove_first_by_id; assumption).
  split; [apply Hdocs; split; [eapply descendant_of_elem; exact Hg|exact Hne]|].
  intros fuel ts Hts Hshown. unfold getFiles in Hts.
  pose proof (shown_leads _ _ _ _ _ Hts Hshown) as Hl.
  assert (Hfiles : forall x,
            x ∈ findMany (fun f0 => bool_decide (userId f0 = requester))
                  (deleteOne (FileModel._id f) c) -> x ∈ docs c /\ x <> f).
  { intros x Hx. apply Hdocs. unfold findMany in Hx.
    apply list_elem_of_In, List.filter_In in Hx as [Hx _].
    apply list_elem_of_In. exact Hx. }
  clear Hts Hshown Hne. induction Hg as [g Hgc Hp|g g0 Hg0 IH Hgc Hp].
  - inversion Hl as [x Hx Hpx|x h Hh Hx Hpx]; subst; [congruence|].
    assert (Hhf : h ∈ docs c /\ h <> f).
    { apply Hfiles. destruct Hh; assumption. }
    destruct Hhf as [Hhc Hhne]. apply Hhne.
    eapply same_id_same_doc; [exact Hnd|exact Hhc|exact Hf|congruence].
  - inversion Hl as [x Hx Hpx|x h Hh Hx Hpx]; subst; [congruence|].
    assert (Hhc : h ∈ docs c) by (apply Hfiles; destruct Hh; assumption).
    assert (h = g0) as ->.
    { eapply same_id_same_doc; [exact Hnd|exact Hhc| |congruence].
      eapply descendant_of_elem. exact Hg0. }
    apply IH. exact Hh.
Qed.

End Orphaned.

Section OrphanedScenario.
Import JsString NodePath HostFs FileModel CodeExec FileCtl.

Lemma deleteFile_hides_descendants_witness :
  owned 3 "app.js" file "console.log(1)" (Some 2) ∈ docs (deleteFile 1 "u1" demo_vfs).2 /\
  getFiles 4 "u1" (deleteFile 1 "u1" demo_vfs).2 = Some [] /\
  ~ shown (owned 3 "app.js" file "console.log(1)" (Some 2)) [].
Proof.
  enough (H : owned 3 "app.js" file "console.log(1)" (Some 2)
                ∈ docs (deleteFile 1 "u1" demo_vfs).2 /\
              forall fuel ts,
                getFiles fuel "u1" (deleteFile 1 "u1" demo_vfs).2 = Some ts ->
                ~ shown (owned 3 "app.js" file "console.log(1)" (Some 2)) ts).
  { destruct H as [H1 H2]. split; [exact H1|]. split; [vm_compute; reflexivity|].
    apply (H2 4). vm_compute. reflexivity. }
  apply (deleteFile_hides_descendants demo_vfs
           (owned 1 "demo" folder EmptyString None) "u1"
           (owned 3 "app.js" file "console.log(1)" (Some 2))).
  - exact demo_vfs_ids.
  - left.
  - reflexivity.
  - apply (descendant_below _ _ _ (owned 2 "src" folder EmptyString (Some 1))).
    + apply descendant_child; [right; left|reflexivity].
    + right. right. left.
    + reflexivity.
  - discriminate.
Defined.

End OrphanedScenario.

(** ** What the push leaves alone *)

Section PushFrame.
Import JsString NodePath HostFs FileModel CodeExec.

Variable userId : string.
Variable base : string.

(** The documents of the other owners, in the order of the collection. *)
Definition others (l : list File) : list File :=
  List.filter (fun f => negb (bool_decide (FileModel.userId f = userId))) l.

Lemma others_app l1 l2 : others (l1 ++ l2) = (others l1 ++ others l2)%list.
Proof. apply List.filter_app. Qed.

Lemma others_map (h : File -> File) l :
  (forall x, x ∈ l ->
     (FileModel.userId x <> userId -> h x = x) /\
     (FileModel.userId x = userId -> FileModel.userId (h x) = userId)) ->
  others (h <$> l) = others l.
Proof.
  unfold others. induction l as [|x l IH]; intros H; [reflexivity|].
  cbn. destruct (H x ltac:(left)) as [H1 H2].
  rewrite IH by (intros y Hy; apply H; right; exact Hy).
  destruct (decide (FileModel.userId x = userId)) as [E|E].
  - rewrite (bool_decide_eq_true_2 _ (H2 E)), (bool_decide_eq_true_2 _ E).
    reflexivity.
  - rewrite (H1 E). reflexivity.
Qed.

Lemma others_remove_first q l :
  (forall x, x ∈ l -> q x = true -> FileModel.userId x = userId) ->
  others (remove_first q l) = others l.
Proof.
  unfold others. induction l as [|x l IH]; intros H; [reflexivity|].
  cbn. destruct (q x) eqn:Eq.
  - rewrite bool_decide_eq_true_2 by (apply H; [left|exact Eq]). reflexivity.
  - cbn. rewrite IH by (intros y Hy; apply H; right; exact Hy). reflexivity.
Qed.

(** From [c] to [c']: the documents of the other owners are as they were;
    a document of [c'] has the id, the name and the owner of a document
    of [c], or it is new, of the owner, with a name the push does not
    ignore. *)
Definition keeps (c c' : collection) : Prop :=
  ids_ok c' /\ next_id c <= next_id c' /\
  others (docs c') = others (docs c) /\
  forall f, f ∈ docs c' ->
    (exists f0, f0 ∈ docs c /\ FileModel._id f0 = FileModel._id f /\
                name f0 = name f /\ FileModel.userId f0 = FileModel.userId f) \/
    (next_id c <= FileModel._id f /\ FileModel.userId f = userId /\
     ignored (name f) = false).

Lemma keeps_refl c : ids_ok c -> keeps c c.
Proof.
  intros H. split; [exact H|]. split; [lia|]. split; [reflexivity|].
  intros f Hf. left. eauto.
Qed.

Lemma keeps_trans c1 c2 c3 : keeps c1 c2 -> keeps c2 c3 -> keeps c1 c3.
Proof.
  intros (_ & Hn1 & Ho1 & H1) (Hok & Hn2 & Ho2 & H2).
  split; [exact Hok|]. split; [lia|]. split; [congruence|].
  intros f Hf. destruct (H2 f Hf) as [(f0 & Hf0 & Hid & Hname & Hu)|(Hnew & Hu & Hig)].
  - destruct (H1 f0 Hf0) as [(f1 & Hf1 & Hid1 & Hname1 & Hu1)|(Hnew & Hu1 & Hig)].
    + left. exists f1. repeat split; congruence.
    + right. repeat split; [lia|congruence|congruence].
  - right. repeat split; [lia|assumption|assumption].
Qed.

Lemma keeps_delete c d :
  ids_ok c -> d ∈ docs c -> FileModel.userId d = userId ->
  keeps c (deleteOne (FileModel._id d) c).
Proof.
  intros Hok Hd Hu. split; [apply deleteOne_ids_ok; exact Hok|].
  split; [cbn; lia|]. split.
  - cbn. apply others_remove_first. intros x Hx Hq.
    apply bool_decide_eq_true in Hq.
    assert (x = d) as -> by (eapply same_id_same_doc; [apply Hok| | |]; eassumption).
    exact Hu.
  - intros f Hf. left. exists f. split; [|auto].
    cbn in Hf. eapply remove_first_elem. exact Hf.
Qed.

Lemma keeps_insert c fields :
  ids_ok c -> (forall id, FileModel._id (fields id) = id) ->
  (forall id, FileModel.userId (fields id) = userId) ->
  (forall id, ignored (name (fields id)) = false) ->
  keeps c (insert fields c).2.
Proof.
  intros Hok Hid Hu Hig. split; [apply insert_ids_ok; assumption|].
  split; [cbn; lia|]. split.
  - cbn. rewrite others_app. cbn.
    rewrite bool_decide_eq_true_2 by apply Hu. cbn. apply app_nil_r.
  - intros f Hf. apply insert_elem in Hf as [Hf| ->].
    + left. eauto.
    + right. rewrite Hid, Hu, Hig. auto.
Qed.

Lemma keeps_save c d0 d :
  ids_ok c -> d0 ∈ docs c -> FileModel.userId d0 = userId ->
  FileModel._id d = FileModel._id d0 -> name d = name d0 ->
  FileModel.userId d = userId ->
  keeps c (save d c).
Proof.
  intros Hok Hd0 Hu0 Hid Hname Hu. split; [eapply save_ids_ok; eassumption|].
  split; [cbn; lia|]. split.
  - rewrite save_docs. apply others_map. intros x Hx.
    rewrite (replace_by_other d d0 (docs c)); [|apply Hok|assumption..].
    destruct (decide (x = d0)) as [->|]; split; auto; congruence.
  - intros f Hf. left.
    apply (save_elem c d d0) in Hf as [->|[Hf _]]; try assumption.
    + exists d0. repeat split; congruence.
    + eauto.
Qed.

Lemma visited_not_ignored e cur :
  visited base e cur = true -> ignored (entry_name e) = false.
Proof.
  unfold visited. intros H. apply andb_true_iff in H as [H _].
  apply negb_true_iff in H. exact H.
Qed.

Lemma look_owner c p n d :
  look c userId p n = Some d -> d ∈ docs c /\ FileModel.userId d = userId /\ name d = n.
Proof.
  intros H. apply look_some in H as [Hd Hk]. unfold key3 in Hk.
  injection Hk as Hu _ Hn. auto.
Qed.

Lemma settle_file_keeps now n content parent c log :
  ids_ok c -> ignored n = false ->
  keeps c (settle_file userId now n content parent (c, log)).1.
Proof.
  intros Hok Hig. unfold settle_file, drop_mismatch. cbn [fst snd].
  destruct (look c userId parent n) as [d0|] eqn:Hl.
  - destruct (look_owner _ _ _ _ Hl) as (Hd0 & Hu0 & Hn0).
    case_bool_decide as Hty; cbn [fst snd].
    + case_bool_decide as Hc; cbn [negb fst snd].
      * destruct (1000 <? now - updatedAt d0)%Z; cbn [fst snd].
        -- eapply keeps_save; eauto.
        -- apply keeps_refl. exact Hok.
      * eapply keeps_save; eauto.
    + eapply keeps_trans; [apply keeps_delete; eassumption|].
      apply keeps_insert; [apply deleteOne_ids_ok; exact Hok|reflexivity..|].
      intros id. exact Hig.
  - cbn [fst snd]. apply keeps_insert; [exact Hok|reflexivity..|].
    intros id. exact Hig.
Qed.

Lemma settle_folder_keeps now n parent c log :
  ids_ok c -> ignored n = false ->
  keeps c (settle_folder userId now n parent (c, log)).2.1.
Proof.
  intros Hok Hig. unfold settle_folder, drop_mismatch. cbn [fst snd].
  destruct (look c userId parent n) as [d0|] eqn:Hl.
  - destruct (look_owner _ _ _ _ Hl) as (Hd0 & Hu0 & Hn0).
    case_bool_decide as Hty; cbn [fst snd].
    + apply keeps_refl. exact Hok.
    + eapply keeps_trans; [apply keeps_delete; eassumption|].
      apply keeps_insert; [apply deleteOne_ids_ok; exact Hok|reflexivity..|].
      intros id. exact Hig.
  - cbn [fst snd]. apply keeps_insert; [exact Hok|reflexivity..|].
    intros id. exact Hig.
Qed.

Definition entry_keeps (e : hentry) : Prop :=
  forall now cur parent c log,
    ids_ok c -> keeps c (scanEntry userId now e cur parent base (c, log)).1.

Lemma list_keeps es :
  Forall entry_keeps es ->
  forall now cur parent c log,
    ids_ok c ->
    keeps c (recursivelyScanHostAndUploadToVFS userId now es cur parent base (c, log)).1.
Proof.
  intros Hall. induction Hall as [|e rest He _ IH]; intros now cur parent c log Hok.
  - cbn. apply keeps_refl. exact Hok.
  - cbn [recursivelyScanHostAndUploadToVFS].
    pose proof (He now cur parent c log Hok) as H1.
    destruct (scanEntry userId now e cur parent base (c, log)) as [c1 log1].
    cbn [fst] in H1. eapply keeps_trans; [exact H1|]. apply IH. apply H1.
Qed.

Lemma every_entry_keeps : forall e, entry_keeps e.
Proof.
  induction e as [n content|n es IH|n] using hentry_rect';
    intros now cur parent c log Hok.
  - destruct (visited base (HostFile n content) cur) eqn:Hv.
    2:{ rewrite scanEntry_skipped by exact Hv. apply keeps_refl. exact Hok. }
    rewrite scanEntry_file by exact Hv. apply settle_file_keeps; [exact Hok|].
    apply (visited_not_ignored _ _ Hv).
  - destruct (visited base (HostDir n es) cur) eqn:Hv.
    2:{ rewrite scanEntry_skipped by exact Hv. apply keeps_refl. exact Hok. }
    rewrite scanEntry_dir by exact Hv.
    pose proof (settle_folder_keeps now n parent c log Hok
                  (visited_not_ignored _ _ Hv)) as H1.
    destruct (settle_folder userId now n parent (c, log)) as [d [ca loga]].
    cbn [fst snd] in *. eapply keeps_trans; [exact H1|].
    apply (list_keeps es IH). apply H1.
  - rewrite scanEntry_other. apply keeps_refl. exact Hok.
Qed.

Lemma push_keeps now hostRoot root c :
  ids_ok c -> keeps c (syncWorkspaceToVfs userId now base hostRoot root c).1.
Proof.
  intros Hok. unfold syncWorkspaceToVfs. destruct hostRoot as [es|].
  - apply list_keeps; [|exact Hok]. apply Forall_forall. intros e _.
    apply every_entry_keeps.
  - cbn. apply keeps_refl. exact Hok.
Qed.

(** X7: the push changes no document of another owner: their documents
    are the same, in the same order, after the push. *)
Theorem push_leaves_other_owners now hostRoot root c :
  ids_ok c ->
  others (docs (syncWorkspaceToVfs userId now base hostRoot root c).1)
  = others (docs c).
Proof. intros Hok. apply (push_keeps now hostRoot root c Hok). Qed.

(** X8: a document that is in the collection after the push and whose id
    was not there before has been created for a host entry that is not
    ignored: it belongs to the owner and its name is none of
    [node_modules], [.git], [.DS_Store], [.env], [.vscode] and does not
    start with [__pycache__]. *)
Theorem push_creates_no_ignored now hostRoot root c f :
  ids_ok c ->
  f ∈ docs (syncWorkspaceToVfs userId now base hostRoot root c).1 ->
  (forall f0, f0 ∈ docs c -> FileModel._id f0 <> FileModel._id f) ->
  FileModel.userId f = userId /\ ignored (name f) = false.
Proof.
  intros Hok Hf Hnew.
  destruct (push_keeps now hostRoot root c Hok) as (_ & _ & _ & H).
  destruct (H f Hf) as [(f0 & Hf0 & Hid & _)|(_ & Hu & Hig)]; [|auto].
  exfalso. eapply Hnew; eassumption.
Qed.

End PushFrame.

Section PushFrameScenario.
Import JsString NodePath HostFs FileModel CodeExec.

(** The project of [u1] beside a document of [u2]; the host has a file
    and a [node_modules] directory. *)
Definition shared_vfs : collection :=
  mkColl [owned 1 "demo" folder EmptyString None;
          mkFile 2 "a.txt" file "theirs" (Some 1) "u2" false [] 0] 3.

Definition with_modules : option (list hentry) :=
  Some [HostFile "a.txt" "mine";
        HostDir "node_modules" [HostFile "index.js" "x"]].

Lemma shared_vfs_ids_ok : ids_ok shared_vfs.
Proof.
  split.
  - cbn. apply (bool_decide_unpack _). vm_compute. exact I.
  - intros f Hf. cbn in Hf.
    repeat (apply elem_of_cons in Hf as [->|Hf]; [cbn; lia|]).
    apply elem_of_nil in Hf. contradiction.
Defined.

Lemma push_leaves_other_owners_witness :
  others "u1"
    (docs (syncWorkspaceToVfs "u1" 500 demo_path with_modules (Some 1) shared_vfs).1)
  = [mkFile 2 "a.txt" file "theirs" (Some 1) "u2" false [] 0].
Proof.
  rewrite (push_leaves_other_owners "u1" demo_path 500 with_modules (Some 1)
             shared_vfs shared_vfs_ids_ok).
  reflexivity.
Defined.

Lemma push_creates_no_ignored_witness :
  ignored (name (new_file "u1" "a.txt" "mine" (Some 1) 500 3)) = false.
Proof.
  apply (push_creates_no_ignored "u1" demo_path 500 with_modules (Some 1)
           shared_vfs (new_file "u1" "a.txt" "mine" (Some 1) 500 3)
           shared_vfs_ids_ok).
  - vm_compute. right. right. left.
  - intros f0 Hf0. cbn in Hf0.
    repeat (apply elem_of_cons in Hf0 as [->|Hf0]; [cbn; lia|]).
    apply elem_of_nil in Hf0. contradiction.
Defined.

End PushFrameScenario.

(** ** A second push, whatever the other owners hold *)

Section OwnNames.
Import JsString NodePath HostFs FileModel CodeExec.

Variable userId : string.
Variable base : string.


























End OwnNames.

Section OwnNamesScenario.
Import JsString NodePath HostFs FileModel CodeExec.



End OwnNamesScenario.

(** ** Reading back what was pushed *)

Section PushThenFetch.
Import JsString NodePath HostFs FileModel CodeExec.

Variable userId : string.
Variable base : string.

(** The content of the host file [fileName] in the directory [dirs] below
    the entries [es] of [cur], when the push visits every entry on the
    way to it. *)
Fixpoint host_file (es : list hentry) (cur : string) (dirs : list string)
    (fileName : string) : option string :=
  match dirs with
  | [] =>
      match List.find (fun e => bool_decide (entry_name e = fileName)) es with
      | Some (HostFile n content) =>
          if visited base (HostFile n content) cur then Some content else None
      | _ => None
      end
  | d :: rest =>
      match List.find (fun e => bool_decide (entry_name e = d)) es with
      | Some (HostDir n sub) =>
          if visited base (HostDir n sub) cur
          then host_file sub (join_paths [cur; n]) rest fileName
          else None
      | _ => None
      end
  end.

(** The root of the push and the path that leads to it in the VFS: the
    top level of the user, or a folder of the user at the top level. *)
Definition rooted (c : collection) (root : option nat) (pre : list string) : Prop :=
  match root with
  | None => pre = []
  | Some p =>
      exists r, r ∈ docs c /\ FileModel._id r = p /\ parentId r = None /\
                FileModel.userId r = userId /\ type r = folder /\ pre = [name r]
  end.

Lemma in_step_elem c es cur parent e :
  in_step userId base c es cur parent -> In e es ->
  in_step_entry userId base c e cur parent.
Proof.
  induction es as [|x es IH]; cbn [in_step]; intros H Hin; [destruct Hin|].
  destruct H as [H1 H2]. destruct Hin as [->|Hin]; [exact H1|auto].
Qed.

Lemma find_stronger {A} (q q' : A -> bool) l d :
  List.find q l = Some d -> q' d = true ->
  (forall x, q' x = true -> q x = true) ->
  List.find q' l = Some d.
Proof.
  intros Hf Hd Himp. induction l as [|x l IH]; [discriminate|].
  cbn in *. destruct (q x) eqn:Eq.
  - injection Hf as ->. rewrite Hd. reflexivity.
  - destruct (q' x) eqn:Eq'; [|auto].
    apply Himp in Eq'. congruence.
Qed.

Lemma look_typed c p n d t :
  look c userId p n = Some d -> type d = t ->
  findOne (typed_query userId n t p) c = Some d.
Proof.
  intros Hl Ht. unfold look, findOne in *.
  eapply find_stronger; [exact Hl| |].
  - apply List.find_some in Hl as [_ Hq]. unfold entry_query in Hq.
    apply andb_true_iff in Hq as [Hq H3]. apply andb_true_iff in Hq as [H1 H2].
    unfold typed_query. rewrite H1, H2, H3.
    rewrite bool_decide_eq_true_2 by exact Ht. reflexivity.
  - intros x. unfold typed_query, entry_query. intros Hq.
    apply andb_true_iff in Hq as [Hq H4]. apply andb_true_iff in Hq as [Hq H3].
    apply andb_true_iff in Hq as [H1 H2]. rewrite H1, H2, H4. reflexivity.
Qed.

(** In a collection in step with the host, the loop over the folders of
    the path arrives at the folder of the file, and the file is found
    there with the content it has on the host. *)
Lemma descend_in_step c fileName content : forall dirs es cur parent,
  in_step userId base c es cur parent ->
  host_file es cur dirs fileName = Some content ->
  exists q d, descend c userId dirs parent = inr q /\
              findOne (typed_query userId fileName file q) c = Some d /\
              FileModel.content d = content.
Proof.
  induction dirs as [|dir rest IH]; intros es cur parent Hin Hh; cbn [host_file] in Hh.
  - destruct (List.find _ es) as [[n s|n sub|n]|] eqn:Ef; try discriminate Hh.
    destruct (visited base (HostFile n s) cur) eqn:Hv; [|discriminate Hh].
    injection Hh as ->. apply List.find_some in Ef as [He Hn].
    apply bool_decide_eq_true in Hn. cbn in Hn. subst n.
    pose proof (in_step_elem _ _ _ _ _ Hin He) as H.
    cbn [in_step_entry] in H. rewrite Hv in H. cbn [negb] in H.
    destruct (look c userId parent fileName) as [d|] eqn:Hl; [|contradiction].
    destruct H as [Hty Hc]. exists parent, d. split; [reflexivity|].
    split; [apply look_typed; assumption|exact Hc].
  - destruct (List.find _ es) as [[n s|n sub|n]|] eqn:Ef; try discriminate Hh.
    destruct (visited base (HostDir n sub) cur) eqn:Hv; [|discriminate Hh].
    apply List.find_some in Ef as [He Hn].
    apply bool_decide_eq_true in Hn. cbn in Hn. subst n.
    pose proof (in_step_elem _ _ _ _ _ Hin He) as H.
    apply in_step_dir in H; [|exact Hv].
    destruct (look c userId parent dir) as [d|] eqn:Hl; [|contradiction].
    destruct H as [Hty Hsub].
    destruct (IH _ _ _ Hsub Hh) as (q & f & Hd & Hf & Hc).
    exists q, f. split; [|auto]. cbn [descend].
    rewrite (look_typed _ _ _ _ _ Hl Hty). exact Hd.
Qed.

Lemma last_snoc (l : list string) x :
  List.last (List.map Some (l ++ [x])) None = Some x.
Proof. rewrite List.map_app. cbn. apply List.last_last. Qed.

(** X9: after a push, [getFileContentFromVfs] with the path of a host
    file that the push visits answers with the content the file has on the
    host: below the top level of the user when the push was into it, below
    the project folder otherwise. *)
Theorem push_then_fetch now es root c pre dirs fileName content path :
  tidy c -> names_distinct es -> rooted c root pre ->
  host_file es base dirs fileName = Some content ->
  List.filter (fun p => truthy p) (split "/" path)
  = (pre ++ dirs ++ [fileName])%list ->
  getFileContentFromVfs
    (syncWorkspaceToVfs userId now base (Some es) root c).1 userId path
  = Content content.
Proof.
  intros Ht Hd Hroot Hh Hparts. cbn [syncWorkspaceToVfs].
  assert (Hall : Forall (entry_walked userId base) es)
    by (apply Forall_forall; intros e _; apply every_entry_walked).
  unfold getFileContentFromVfs. cbv zeta. rewrite Hparts.
  rewrite !app_assoc, last_snoc, List.removelast_last.
  destruct root as [p|].
  - destruct Hroot as (r & Hr & Hid & Hp & Hu & Hty & ->).
    pose proof (list_walked userId base es Hall Hd now base (Some p) c []
                  [slot_of r] Ht) as H.
    cbv zeta in H. destruct H as (Ht1 & _ & Hsame & Hin & _).
    + intros k Hk. apply list_elem_of_singleton in Hk as ->.
      unfold slot_of. cbn [fst]. rewrite Hp. exact I.
    + split; [rewrite <- Hid; apply Ht; exact Hr|]. intros f Hf Hidf.
      assert (f = r) as -> by (eapply same_id_same_doc;
                                 [apply Ht|exact Hf|exact Hr|congruence]).
      left.
    + intros n _ Hx. apply list_elem_of_singleton in Hx.
      unfold slot_of in Hx. rewrite Hp in Hx. discriminate Hx.
    + destruct (recursivelyScanHostAndUploadToVFS userId now es base (Some p) base
                  (c, [])) as [c1 log1].
      cbn [fst] in *.
      assert (Hl : look c1 userId None (name r) = Some r).
      { pose proof (Hsame (slot_of r) ltac:(left)) as E. unfold slot_of in E.
        cbn [fst snd] in E. rewrite Hp in E. rewrite E.
        apply look_char; [apply Ht|exact Hr|]. unfold key3. rewrite Hu, Hp.
        reflexivity. }
      destruct (descend_in_step c1 fileName content dirs es base (Some p) Hin Hh)
        as (q & f & Hdesc & Hf & Hc).
      cbn [app descend]. rewrite (look_typed _ _ _ _ _ Hl Hty), Hid, Hdesc, Hf, Hc.
      reflexivity.
  - cbn in Hroot. subst pre.
    pose proof (list_walked userId base es Hall Hd now base None c [] [] Ht) as H.
    cbv zeta in H. destruct H as (Ht1 & _ & _ & Hin & _).
    + intros k Hk. apply elem_of_nil in Hk. contradiction.
    + exact I.
    + intros n _ Hx. apply elem_of_nil in Hx. contradiction.
    + destruct (recursivelyScanHostAndUploadToVFS userId now es base None base
                  (c, [])) as [c1 log1].
      cbn [fst] in *.
      destruct (descend_in_step c1 fileName content dirs es base None Hin Hh)
        as (q & f & Hdesc & Hf & Hc).
      cbn [app]. rewrite Hdesc, Hf, Hc. reflexivity.
Qed.

(** X10: the push keeps the collection one it can rely on: ids stay
    unique and no two documents of an owner come to share parent and
    name. *)
Theorem push_keeps_names_unique now hostRoot root c :
  tidy c -> host_names_distinct hostRoot -> root_ok c root ->
  tidy (syncWorkspaceToVfs userId now base hostRoot root c).1.
Proof.
  intros Ht Hd Hr. destruct hostRoot as [es|]; [|exact Ht].
  apply (push_brings_in_step userId base now es root c [] Ht Hd Hr).
Qed.

End PushThenFetch.

Section PushThenFetchScenario.
Import JsString NodePath HostFs FileModel CodeExec.

Definition small_host : list hentry :=
  [HostDir "src" [HostFile "app.js" "console.log(2)"]; HostFile "README.md" "hi"].

Lemma demo_vfs_tidy : tidy demo_vfs.
Proof.
  split; [split|].
  - exact demo_vfs_ids.
  - intros f Hf. cbn in Hf.
    repeat (apply elem_of_cons in Hf as [->|Hf]; [cbn; lia|]).
    apply elem_of_nil in Hf. contradiction.
  - unfold names_unique. cbn. apply (bool_decide_unpack _). vm_compute. exact I.
Defined.

Lemma small_host_distinct : names_distinct small_host.
Proof.
  split.
  - cbn. apply (bool_decide_unpack _). vm_compute. exact I.
  - cbn. repeat split; try exact I.
    apply (bool_decide_unpack _). vm_compute. exact I.
Defined.

Lemma push_then_fetch_witness :
  getFileContentFromVfs
    (syncWorkspaceToVfs "u1" 500 demo_path (Some small_host) (Some 1) demo_vfs).1
    "u1" "/demo/src/app.js"
  = Content "console.log(2)".
Proof.
  apply (push_then_fetch "u1" demo_path 500 small_host (Some 1) demo_vfs
           ["demo"] ["src"] "app.js").
  - exact demo_vfs_tidy.
  - exact small_host_distinct.
  - eexists. split; [left|]. repeat split.
  - vm_compute. reflexivity.
  - vm_compute. reflexivity.
Defined.

Lemma push_keeps_names_unique_witness :
  tidy (syncWorkspaceToVfs "u1" 500 demo_path (Some small_host) (Some 1) demo_vfs).1.
Proof.
  apply push_keeps_names_unique.
  - exact demo_vfs_tidy.
  - exact small_host_distinct.
  - eexists. split; [left|]. split; reflexivity.
Defined.

End PushThenFetchScenario.

(** ** The workspace handlers: what a call leaves behind *)

Section RoundTrips.
Import JsString NodePath HostFs FileModel AuthUtils WorkspaceFs.

Variable cwd : string.

Lemma bind_inv_ok {S A B} (m : M S A) (k : A -> M S B) s b s' :
  bind m k s = (Ok b, s') -> exists a s1, m s = (Ok a, s1) /\ k a s1 = (Ok b, s').
Proof.
  unfold bind. destruct (m s) as [[a|e|] s1]; [eauto|discriminate..].
Qed.

Lemma try_catch_on_error_inv (m : M world response) label failure w n b w' :
  try_catch m (on_error label failure) w = (Ok (mkRes n b), w') ->
  n <> 403 -> n <> 500 -> m w = (Ok (mkRes n b), w').
Proof.
  unfold try_catch. destruct (m w) as [[a|e|] w1]; [auto| |discriminate].
  unfold on_error, console_error, bind, modify.
  destruct (startsWith _ _); unfold ret; intros [= <- <- <-]; lia.
Qed.

Lemma on_host_inv {A} (m : M fs A) w r w' :
  on_host m w = (r, w') -> exists m', m (host w) = (r, m') /\ w' = with_host m' w.
Proof.
  unfold on_host, zoom. destruct (m (host w)) as [r1 m1]. intros [= <- <-]. eauto.
Qed.

Lemma with_host_same w : with_host (host w) w = w.
Proof. destruct w; reflexivity. Qed.

Lemma chmod_ok p m m' :
  chmod p m = (Ok tt, m') -> m' = m /\ existsSync m p = true.
Proof.
  unfold chmod. destruct (existsSync m p); [|discriminate].
  intros [= <-]. auto.
Qed.

(** The directory of the file is made when it is missing: the VFS and the
    console are not touched. *)
Lemma ensure_dir dirPath w w2 (present : bool) :
  (if negb present
   then on_host (mkdir_recursive dirPath) ;;; on_host (chmod dirPath)
   else ret tt) w = (Ok tt, w2) ->
  vfs w2 = vfs w /\ console w2 = console w /\
  (present = false -> existsSync (host w2) dirPath = true) /\
  (present = true -> w2 = w).
Proof.
  destruct present; cbn [negb].
  - unfold ret. intros [= <-]. split; [reflexivity|]. split; [reflexivity|].
    split; [discriminate|auto].
  - intros H. apply bind_inv_ok in H as ([] & w1 & H1 & H2).
    apply on_host_mkdir in H1 as (_ & Hv & Hc & _).
    apply on_host_inv in H2 as (m' & H2 & ->). apply chmod_ok in H2 as [-> He].
    rewrite with_host_same. split; [exact Hv|]. split; [exact Hc|].
    split; [auto|discriminate].
Qed.

Lemma writeFile_ok p c m m' :
  writeFile p c m = (Ok tt, m') ->
  exists k, locate p = (k, false) /\ k <> [] /\ m' = <[k := HFile c]> m.
Proof.
  unfold writeFile. destruct (locate p) as [k t].
  destruct k as [|seg k]; [discriminate|].
  destruct (node_at m _) as [[c'|]|]; try discriminate.
  destruct (m !! (seg :: k)) as [[c'|]|]; try discriminate;
    destruct t; try discriminate; intros [= <-]; eexists; eauto.
Qed.

Lemma file_is_read p c k m :
  locate p = (k, false) -> k <> [] -> m !! k = Some (HFile c) ->
  existsSync m p = true /\ stat_isDirectory p m = (Ok false, m) /\
  readFile p m = (Ok c, m).
Proof.
  intros Hl Hk Hm. unfold existsSync, stat_isDirectory, readFile. rewrite Hl.
  destruct k as [|seg k]; [contradiction|]. cbn [node_at]. rewrite Hm. auto.
Qed.

Lemma write_implies_read c actor owner slug :
  checkProjectPermission c actor owner slug write = Ok true ->
  checkProjectPermission c actor owner slug read = Ok true.
Proof.
  unfold checkProjectPermission.
  destruct (negb (truthy actor) || negb (truthy owner) || negb (truthy slug));
    [discriminate|].
  destruct (bool_decide (actor = owner)); [auto|].
  destruct (findOne _ c) as [rootDoc|]; [|discriminate].
  destruct (List.find _ (sharedWith rootDoc)) as [entry|]; [|discriminate].
  destruct (permission entry); [discriminate|auto].
Qed.

(** What a call of [writeFileContent] that answers 200 has done. *)
Lemma writeFileContent_200 req w w' b :
  writeFileContent cwd req w = (Ok (mkRes 200 b), w') ->
  exists content p k,
    b_content req = Some content /\
    (negb (truthy_opt (q_userId req)) || negb (truthy_opt (q_projectSlug req))
     || negb (truthy_opt (q_path req))) = false /\
    checkProjectPermission (vfs w) (req_user req) (str (q_userId req))
      (str (q_projectSlug req)) write = Ok true /\
    resolveUserProjectPath cwd (str (q_userId req)) (str (q_projectSlug req))
      (q_path req) = Ok p /\
    vfs w' = vfs w /\ console w' = console w /\
    locate p = (k, false) /\ k <> [] /\ host w' !! k = Some (HFile content).
Proof.
  unfold writeFileContent. intros H.
  apply try_catch_on_error_inv in H; [|discriminate..].
  destruct (b_content req) as [content|]; [|discriminate H].
  destruct (negb (truthy_opt (q_userId req)) || negb (truthy_opt (q_projectSlug req))
            || negb (truthy_opt (q_path req))) eqn:Hreq; [discriminate H|].
  apply bind_inv_ok in H as (allowed & w0 & Hperm & H).
  destruct allowed; [|discriminate H]. cbn [negb] in H.
  apply checkPermission_allowed in Hperm as [Hperm ->].
  apply bind_inv_ok in H as (p & w0 & Hres & H).
  unfold lift_result in Hres. injection Hres as Hres <-.
  apply bind_inv_ok in H as (present & w0 & Hpresent & H).
  unfold gets in Hpresent. injection Hpresent as Hpresent <-.
  apply bind_inv_ok in H as ([] & w2 & Hdir & H).
  apply ensure_dir in Hdir as (Hv2 & Hc2 & _).
  apply bind_inv_ok in H as ([] & w3 & Hwrite & H).
  apply on_host_inv in Hwrite as (m3 & Hwrite & ->).
  apply writeFile_ok in Hwrite as (k & Hl & Hk & ->).
  apply bind_inv_ok in H as ([] & w4 & Hch & H).
  apply on_host_inv in Hch as (m4 & Hch & ->). apply chmod_ok in Hch as [-> _].
  unfold ret in H. injection H as _ <-.
  exists content, p, k. repeat split; try assumption.
  cbn. apply lookup_insert_eq.
Qed.

(** X11: what [writeFileContent] has saved, [readFileContent] gives back:
    after a call that answered 200, the same request is answered by
    [readFileContent] with the content that was sent, and nothing
    changes. *)
Theorem write_then_read req w w' b :
  writeFileContent cwd req w = (Ok (mkRes 200 b), w') ->
  exists content,
    b_content req = Some content /\
    readFileContent cwd req w' = (Ok (mkRes 200 (FileContent content)), w').
Proof.
  intros H. apply writeFileContent_200 in H
    as (content & p & k & Hb & Hreq & Hperm & Hres & Hv & _ & Hl & Hk & Hm).
  exists content. split; [exact Hb|].
  destruct (file_is_read p content k (host w') Hl Hk Hm) as (He & Hs & Hr).
  unfold readFileContent. rewrite Hreq.
  unfold try_catch, bind. rewrite <- Hv in Hperm.
  rewrite (checkPermission_true _ _ _ _ _ (write_implies_read _ _ _ _ Hperm)).
  cbn [negb].
  unfold lift_result. rewrite Hres. unfold gets. rewrite He. cbn [negb].
  unfold on_host, zoom. rewrite Hs. cbn beta iota. rewrite with_host_same, Hr.
  cbn beta iota. unfold ret. rewrite with_host_same. reflexivity.
Qed.

(** X12: [createDirectory] does not create twice: after a call that
    answered 201 the same request is refused with 400, and nothing
    changes. *)
Theorem createDirectory_twice req w w' b :
  createDirectory cwd req w = (Ok (mkRes 201 b), w') ->
  createDirectory cwd req w'
  = (Ok (mkRes 400 (Message "Directory or file already exists.")), w').
Proof.
  unfold createDirectory. intros H.
  apply try_catch_on_error_inv in H; [|discriminate..].
  destruct (negb (truthy_opt (or_opt (b_userId req) (q_userId req)))
            || negb (truthy_opt (or_opt (b_projectSlug req) (q_projectSlug req)))
            || negb (truthy_opt (b_path req))) eqn:Hreq; [discriminate H|].
  apply bind_inv_ok in H as (allowed & w0 & Hperm & H).
  destruct allowed; [|discriminate H]. cbn [negb] in H.
  apply checkPermission_allowed in Hperm as [Hperm ->].
  apply bind_inv_ok in H as (p & w0 & Hres & H).
  unfold lift_result in Hres. injection Hres as Hres <-.
  apply bind_inv_ok in H as (present & w0 & Hpresent & H).
  unfold gets in Hpresent. injection Hpresent as Hpresent <-.
  destruct present; [discriminate H|].
  pose proof (ensure_dir p w w' false) as Hdir. cbn [negb] in Hdir.
  assert (Hmk : (on_host (mkdir_recursive p) ;;; on_host (chmod p)) w = (Ok tt, w')).
  { apply bind_inv_ok in H as ([] & w1 & H1 & H).
    apply bind_inv_ok in H as ([] & w2 & H2 & H).
    unfold ret in H. injection H as _ <-.
    unfold bind at 1. rewrite H1. exact H2. }
  destruct (Hdir Hmk) as (Hv & _ & He & _).
  unfold try_catch, bind. rewrite <- Hv in Hperm.
  rewrite (checkPermission_true _ _ _ _ _ Hperm). cbn [negb].
  unfold lift_result. rewrite Hres. unfold gets. rewrite (He eq_refl).
  reflexivity.
Qed.

Lemma rm_gone p m m' :
  rm_recursive_force p m = (Ok tt, m') -> key_of p <> [] ->
  existsSync m' p = false.
Proof.
  unfold rm_recursive_force, existsSync, key_of.
  destruct (locate p) as [k t]. cbn [fst]. intros H Hk.
  destruct k as [|seg k]; [contradiction|]. cbn [node_at] in *.
  destruct (m !! (seg :: k)) as [[c|]|] eqn:E.
  - destruct t; [discriminate|]. injection H as <-.
    rewrite lookup_delete_eq. reflexivity.
  - injection H as <-.
    rewrite (proj2 (map_lookup_filter_None _ m (seg :: k))); [reflexivity|].
    right. intros x _ Hn. apply Hn. reflexivity.
  - injection H as <-. rewrite E. reflexivity.
Qed.

(** X13: what [deleteItem] has deleted is gone: after a call that
    answered 200 for a path that is not the root of the file system, the
    same request is answered with 404, and nothing changes. *)
Theorem deleteItem_then_gone req w w' b p :
  deleteItem cwd req w = (Ok (mkRes 200 b), w') ->
  resolveUserProjectPath cwd (str (q_userId req)) (str (q_projectSlug req))
    (q_path req) = Ok p ->
  key_of p <> [] ->
  deleteItem cwd req w' = (Ok (mkRes 404 (Message "Item not found.")), w').
Proof.
  unfold deleteItem. intros H Hres Hk.
  apply try_catch_on_error_inv in H; [|discriminate..].
  destruct (negb (truthy_opt (q_userId req)) || negb (truthy_opt (q_projectSlug req))
            || negb (truthy_opt (q_path req))) eqn:Hreq; [discriminate H|].
  apply bind_inv_ok in H as (allowed & w0 & Hperm & H).
  destruct allowed; [|discriminate H]. cbn [negb] in H.
  apply checkPermission_allowed in Hperm as [Hperm ->].
  apply bind_inv_ok in H as (p' & w0 & Hres' & H).
  unfold lift_result in Hres'. injection Hres' as Hres' <-.
  assert (p' = p) as -> by congruence.
  apply bind_inv_ok in H as (present & w0 & Hpresent & H).
  unfold gets in Hpresent. injection Hpresent as Hpresent <-.
  destruct present; [|discriminate H]. cbn [negb] in H. cbv zeta in H.
  destruct (bool_decide _ && _); [discriminate H|].
  apply bind_inv_ok in H as ([] & w1 & Hrm & H).
  unfold ret in H. injection H as _ <-.
  apply on_host_inv in Hrm as (m1 & Hrm & ->).
  apply rm_gone in Hrm; [|exact Hk].
  unfold try_catch, bind.
  rewrite (checkPermission_true _ _ _ _ (with_host m1 w) Hperm).
  cbn [negb]. unfold lift_result. rewrite Hres.
  unfold gets. cbn [host with_host]. rewrite Hrm. reflexivity.
Qed.

(** A computation that leaves the VFS as it is, and the lines of the
    console where they are: it may write to the host and add lines. *)
Definition host_only {A} (m : M world A) : Prop :=
  forall w, vfs (m w).2 = vfs w /\ console w `prefix_of` console (m w).2.

(** A computation that leaves the host as it is, too. *)
Definition reads_only {A} (m : M world A) : Prop :=
  forall w, vfs (m w).2 = vfs w /\ host (m w).2 = host w /\
            console w `prefix_of` console (m w).2.

Lemma reads_only_host_only {A} (m : M world A) : reads_only m -> host_only m.
Proof. intros H w. destruct (H w) as (Hv & _ & Hc). auto. Qed.

Lemma reads_only_ret {A} (a : A) : reads_only (@ret world A a).
Proof. intros w. cbn. auto. Qed.

Lemma reads_only_throw {A} e : reads_only (@throw world A e).
Proof. intros w. cbn. auto. Qed.

Lemma reads_only_gets {A} (f : world -> A) : reads_only (gets f).
Proof. intros w. cbn. auto. Qed.

Lemma reads_only_lift {A} (r : result A) : reads_only (@lift_result world A r).
Proof. intros w. cbn. auto. Qed.

Lemma reads_only_console_error line : reads_only (console_error line).
Proof.
  intros w. unfold console_error, modify. cbn.
  split; [reflexivity|]. split; [reflexivity|]. apply prefix_app_r. reflexivity.
Qed.

Lemma reads_only_bind {A B} (m : M world A) (k : A -> M world B) :
  reads_only m -> (forall a, reads_only (k a)) -> reads_only (bind m k).
Proof.
  intros Hm Hk w. unfold bind. destruct (Hm w) as (H1 & H2 & H3).
  destruct (m w) as [[a|e|] w1]; cbn [snd] in *; [|auto..].
  destruct (Hk a w1) as (H4 & H5 & H6).
  split; [congruence|]. split; [congruence|]. etrans; eassumption.
Qed.

Lemma reads_only_try_catch {A} (m : M world A) h :
  reads_only m -> (forall e, reads_only (h e)) -> reads_only (try_catch m h).
Proof.
  intros Hm Hh w. unfold try_catch. destruct (Hm w) as (H1 & H2 & H3).
  destruct (m w) as [[a|e|] w1]; cbn [snd] in *; [auto| |auto].
  destruct (Hh e w1) as (H4 & H5 & H6).
  split; [congruence|]. split; [congruence|]. etrans; eassumption.
Qed.

Lemma reads_only_on_host {A} (m : M fs A) :
  (forall x, (m x).2 = x) -> reads_only (on_host m).
Proof.
  intros H w. unfold on_host, zoom. pose proof (H (host w)) as E.
  destruct (m (host w)) as [r m1]. cbn in *. subst. auto.
Qed.

Lemma reads_only_checkPermission a o s level :
  reads_only (checkPermission a o s level).
Proof.
  intros w. rewrite checkPermission_run. cbn.
  split; [reflexivity|]. split; [reflexivity|]. apply prefix_app_r. reflexivity.
Qed.

Lemma reads_only_on_error label failure e : reads_only (on_error label failure e).
Proof.
  unfold on_error. apply reads_only_bind; [apply reads_only_console_error|].
  intros _. destruct (startsWith _ _); apply reads_only_ret.
Qed.

Lemma stat_reads p m : (stat_isDirectory p m).2 = m.
Proof.
  unfold stat_isDirectory. destruct (locate p) as [k t].
  destruct (node_at m k) as [[c|]|]; [destruct t|..]; reflexivity.
Qed.

Lemma readdir_reads p m : (readdir p m).2 = m.
Proof.
  unfold readdir. destruct (node_at m (key_of p)) as [[c|]|]; reflexivity.
Qed.

Lemma readFile_reads p m : (readFile p m).2 = m.
Proof.
  unfold readFile. destruct (locate p) as [k t].
  destruct (node_at m k) as [[c|]|]; [destruct t|..]; reflexivity.
Qed.

Lemma host_only_bind {A B} (m : M world A) (k : A -> M world B) :
  host_only m -> (forall a, host_only (k a)) -> host_only (bind m k).
Proof.
  intros Hm Hk w. unfold bind. destruct (Hm w) as [H1 H2].
  destruct (m w) as [[a|e|] w1]; cbn [snd] in *; [|auto..].
  destruct (Hk a w1) as [H3 H4]. split; [congruence|]. etrans; eassumption.
Qed.

Lemma host_only_try_catch {A} (m : M world A) h :
  host_only m -> (forall e, host_only (h e)) -> host_only (try_catch m h).
Proof.
  intros Hm Hh w. unfold try_catch. destruct (Hm w) as [H1 H2].
  destruct (m w) as [[a|e|] w1]; cbn [snd] in *; [auto| |auto].
  destruct (Hh e w1) as [H3 H4]. split; [congruence|]. etrans; eassumption.
Qed.

Lemma host_only_on_host {A} (m : M fs A) : host_only (on_host m).
Proof. intros w. unfold on_host, zoom. destruct (m (host w)). cbn. auto. Qed.

Ltac reads_only_atom :=
  first
    [ apply reads_only_ret | apply reads_only_throw | apply reads_only_gets
    | apply reads_only_lift | apply reads_only_console_error
    | apply reads_only_checkPermission | apply reads_only_on_error
    | apply reads_only_on_host;
      first [apply stat_reads|apply readdir_reads|apply readFile_reads] ].

Ltac reads_only_step :=
  first
    [ reads_only_atom
    | apply reads_only_try_catch; [|intros ?]
    | apply reads_only_bind; [|intros ?]
    | match goal with
      | |- reads_only (if ?b then _ else _) => destruct b
      | |- reads_only (match ?x with _ => _ end) => destruct x
      end ].

Ltac host_only_step :=
  first
    [ apply host_only_on_host
    | apply reads_only_host_only; reads_only_atom
    | apply host_only_try_catch; [|intros ?]
    | apply host_only_bind; [|intros ?]
    | match goal with
      | |- host_only (if ?b then _ else _) => destruct b
      | |- host_only (match ?x with _ => _ end) => destruct x
      end ].

(** X14: the handlers that write to the working copy write nowhere else:
    whatever the request and however the call ends, the VFS is after it
    what it was before, and the console has its lines of before, with
    those the call has logged after them. *)
Theorem handlers_leave_vfs req :
  host_only (writeFileContent cwd req) /\ host_only (createDirectory cwd req) /\
  host_only (deleteItem cwd req) /\ host_only (renameItem cwd req) /\
  host_only (moveItem cwd req).
Proof.
  repeat apply conj;
    [unfold writeFileContent|unfold createDirectory|unfold deleteItem
    |unfold renameItem|unfold moveItem];
    cbv zeta; repeat host_only_step.
Qed.

(** X15: [listFiles] and [readFileContent] write neither to the VFS nor
    to the working copy: whatever the request and however the call ends,
    both are after it what they were before, and the console has its lines
    of before, with those the call has logged after them. *)
Theorem reading_writes_nothing req w :
  let listed := (listFiles cwd req w).2 in
  let read := (readFileContent cwd req w).2 in
  (vfs listed = vfs w /\ host listed = host w /\
   console w `prefix_of` console listed) /\
  (vfs read = vfs w /\ host read = host w /\ console w `prefix_of` console read).
Proof.
  cbv zeta. split; revert w;
    [change (reads_only (listFiles cwd req))
    |change (reads_only (readFileContent cwd req))];
    [unfold listFiles|unfold readFileContent]; cbv zeta;
    repeat reads_only_step.
Qed.

End RoundTrips.

Section RoundTripsScenario.
Import JsString NodePath HostFs FileModel AuthUtils WorkspaceFs.

(** The owner [u1] of [demo], on a path of the project. *)
Definition by_u1 (path : string) (content : option string) : request :=
  mkReq "u1" (Some "u1") (Some "demo") (Some path) None None (Some path)
    content None None None.

Lemma write_then_read_witness :
  let w' := (writeFileContent "/srv/app" (by_u1 "notes.txt" (Some "hello")) demo_world).2 in
  readFileContent "/srv/app" (by_u1 "notes.txt" (Some "hello")) w'
  = (Ok (mkRes 200 (FileContent "hello")), w').
Proof.
  cbv zeta.
  destruct (write_then_read "/srv/app" (by_u1 "notes.txt" (Some "hello")) demo_world
              (writeFileContent "/srv/app" (by_u1 "notes.txt" (Some "hello"))
                 demo_world).2
              (Message "File saved successfully."))
    as (content & Hb & Hread).
  - vm_compute. reflexivity.
  - injection Hb as <-. exact Hread.
Defined.

Lemma createDirectory_twice_witness :
  let w' := (createDirectory "/srv/app" (by_u1 "lib" None) demo_world).2 in
  createDirectory "/srv/app" (by_u1 "lib" None) w'
  = (Ok (mkRes 400 (Message "Directory or file already exists.")), w').
Proof.
  cbv zeta.
  apply (createDirectory_twice "/srv/app" (by_u1 "lib" None) demo_world _
           (Message "Directory created successfully.")).
  vm_compute. reflexivity.
Defined.

Lemma deleteItem_then_gone_witness :
  let w' := (deleteItem "/srv/app" (by_u1 "app.js" None) demo_world).2 in
  deleteItem "/srv/app" (by_u1 "app.js" None) w'
  = (Ok (mkRes 404 (Message "Item not found.")), w').
Proof.
  cbv zeta.
  apply (deleteItem_then_gone "/srv/app" (by_u1 "app.js" None) demo_world _
           (Message "Item deleted successfully.")
           "/srv/app/projects/u1/demo/app.js").
  - vm_compute. reflexivity.
  - vm_compute. reflexivity.
  - vm_compute. discriminate.
Defined.

End RoundTripsScenario.

(** ** The registry: commands outside a terminal, and a second creation *)

Section Sessions.
Import JsString NodePath HostFs FileModel DockerCtl.

Variable cwd : string.
Variable d : daemon.

(** A call of [createDockerContainer] that returns leaves the session
    registered with the container it returns. *)
Lemma createDockerContainer_ok userId terminalId language slug vfsId s c s1 :
  createDockerContainer cwd d userId terminalId language slug vfsId s = (Ok c, s1) ->
  (negb (truthy userId) || negb (truthy terminalId)) = false /\
  exists info, activeContainers s1 !! session_key userId terminalId = Some info /\
               container info = c.
Proof.
  unfold createDockerContainer, try_catch.
  destruct (createDockerContainer_try _ _ _ _ _ _ _ s) as [r s0] eqn:E.
  destruct r as [c0|e|]; [|run; discriminate|discriminate].
  intros [= -> ->]. split.
  - unfold createDockerContainer_try in E.
    destruct (negb (truthy userId) || negb (truthy terminalId)); [discriminate E|reflexivity].
  - apply createDockerContainer_try_spec in E as [_ (info & Hi & Hc & _)]. eauto.
Qed.

Lemma createDockerContainer_message userId terminalId language slug vfsId s e s1 :
  createDockerContainer cwd d userId terminalId language slug vfsId s = (Throw e, s1) ->
  exists cause, e = "Failed to create container: " ++ cause.
Proof.
  unfold createDockerContainer, try_catch.
  destruct (createDockerContainer_try _ _ _ _ _ _ _ s) as [r s0] eqn:E.
  destruct r as [c0|e0|]; [discriminate| |discriminate].
  run. intros [= <- <-]. eauto.
Qed.

Lemma createDockerContainer_returns userId terminalId language slug vfsId s :
  (createDockerContainer cwd d userId terminalId language slug vfsId s).1 <> Diverges.
Proof.
  unfold createDockerContainer, try_catch.
  destruct (createDockerContainer_try _ _ _ _ _ _ _ s) as [r s0] eqn:E.
  apply createDockerContainer_try_spec in E as [_ E].
  destruct r as [c0|e0|]; [discriminate|run; discriminate|contradiction].
Qed.

(** X16: a command outside a terminal runs in the container registered
    for the session: when [executeCommandInContainer] returns, its output
    is what the daemon answered for that container, the session is still
    registered and its idle timer has been set again. The error that
    [should not happen], a session missing after its container was
    created, does not happen, and the call fails to return only if the
    command itself does. *)
Theorem executeCommandInContainer_runs_in_session
    userId terminalId command workingDir language projectSlug vfsProjectId s :
  let key := session_key userId terminalId in
  let '(r, s') :=
    executeCommandInContainer cwd d userId terminalId command workingDir language
      projectSlug vfsProjectId s in
  match r with
  | Ok output =>
      exists info, activeContainers s' !! key = Some info /\
                   exec d (container info) command workingDir = Ok output /\
                   key ∈ containerTimers s'
  | Throw message => startsWith message "Failed to get session info" = false
  | Diverges => exists c, exec d c command workingDir = Diverges
  end.
Proof.
  cbv zeta. unfold executeCommandInContainer. cbv zeta.
  set (key := session_key userId terminalId).
  set (recreate :=
         (createDockerContainer cwd d userId terminalId language projectSlug
            vfsProjectId ;;;
          sessionInfo <- gets (fun s0 => activeContainers s0 !! key) ;;
          match sessionInfo with
          | Some info => ret (container info)
          | None =>
              throw "Failed to get session info after container creation for exec."
          end)).
  assert (Hrec : forall s0 r s1, recreate s0 = (r, s1) ->
            match r with
            | Ok c => exists info, activeContainers s1 !! key = Some info /\
                                   container info = c
            | Throw e => exists cause, e = "Failed to create container: " ++ cause
            | Diverges => False
            end).
  { intros s0 r s1. unfold recreate, bind at 1.
    destruct (createDockerContainer _ _ _ _ _ _ _ s0) as [[c|e|] s2] eqn:E.
    - apply createDockerContainer_ok in E as (_ & info & Hi & Hc).
      unfold bind, gets. fold key in Hi. rewrite Hi. unfold ret.
      intros [= <- <-]. eauto.
    - apply createDockerContainer_message in E. intros [= <- <-]. exact E.
    - pose proof (createDockerContainer_returns userId terminalId language
                    projectSlug vfsProjectId s0) as H. rewrite E in H.
      contradiction. }
  unfold bind at 1, gets at 1.
  assert (Hget : forall s0 r s1,
    match activeContainers s !! key with
    | Some info =>
        match inspect d (container info) with
        | Some (true, _) => ret (container info)
        | Some (false, _) =>
            if start d (container info)
            then emit (ContainerStarted (container info)) ;;; ret (container info)
            else recreate
        | None => recreate
        end
    | None => recreate
    end s0 = (r, s1) -> s0 = s ->
    match r with
    | Ok c => exists info, activeContainers s1 !! key = Some info /\
                           container info = c
    | Throw e => exists cause, e = "Failed to create container: " ++ cause
    | Diverges => False
    end).
  { intros s0 r s1 H ->. destruct (activeContainers s !! key) as [info|] eqn:Hs;
      [|apply Hrec in H; exact H].
    destruct (inspect d (container info)) as [[[] paused]|]; [| |apply Hrec in H; exact H].
    - unfold ret in H. injection H as <- <-. eauto.
    - destruct (start d (container info)); [|apply Hrec in H; exact H].
      unfold emit in H. run. injection H as <- <-. cbn. eauto. }
  unfold bind at 1.
  match goal with |- context [match ?m s with _ => _ end] =>
    destruct (m s) as [r0 s0] eqn:E0 end.
  apply (Hget s) in E0; [|reflexivity].
  destruct r0 as [c|e|]; [| |contradiction].
  - destruct E0 as (info & Hi & <-).
    unfold resetContainerTimer. unfold bind at 1, modify at 1.
    destruct (exec d (container info) command workingDir) as [output|message|] eqn:Hx.
    + unfold ret. exists info. cbn. split; [exact Hi|]. split; [exact Hx|].
      apply elem_of_union. left. apply elem_of_singleton. reflexivity.
    + destruct (includes _ _); run; reflexivity.
    + eauto.
  - destruct E0 as (cause & ->). reflexivity.
Qed.

(** X17: while the container of a session runs or is paused, a second
    [createDockerContainer] for the session returns that container, and
    creates, starts and registers nothing. *)
Theorem createDockerContainer_again
    userId terminalId language slug vfsId language' slug' vfsId' s c s1 running paused :
  createDockerContainer cwd d userId terminalId language slug vfsId s = (Ok c, s1) ->
  inspect d c = Some (running, paused) -> running || paused = true ->
  let '(r, s2) :=
    createDockerContainer cwd d userId terminalId language' slug' vfsId' s1 in
  r = Ok c /\ events s2 = events s1 /\ activeContainers s2 = activeContainers s1.
Proof.
  intros H Hi Hr. apply createDockerContainer_ok in H as (Hreq & info & Hinfo & <-).
  unfold createDockerContainer, try_catch, createDockerContainer_try.
  rewrite Hreq. cbv zeta. unfold bind at 1, reuse_existing.
  unfold bind at 1, gets at 1. rewrite Hinfo, Hi, Hr.
  unfold resetContainerTimer. run. cbn. auto.
Qed.

End Sessions.

Section SessionsScenario.
Import JsString NodePath HostFs FileModel DockerCtl.

Lemma createDockerContainer_again_witness :
  let s1 :=
    (createDockerContainer "/srv/app" willing_daemon "u1" "t1" "node" (Some "demo")
       None fresh_server).2 in
  (createDockerContainer "/srv/app" willing_daemon "u1" "t1" "python" None None s1).1
  = Ok 7.
Proof.
  cbv zeta.
  pose proof (createDockerContainer_again "/srv/app" willing_daemon "u1" "t1" "node"
                (Some "demo") None "python" None None fresh_server 7
                (createDockerContainer "/srv/app" willing_daemon "u1" "t1" "node"
                   (Some "demo") None fresh_server).2 true false) as H.
  destruct (createDockerContainer "/srv/app" willing_daemon "u1" "t1" "python" None
              None _) as [r s2].
  apply H; [vm_compute; reflexivity|reflexivity|reflexivity].
Defined.

End SessionsScenario.

(** ** The pull: directories, and what it leaves alone *)

Section PullDirectories.
Import JsString NodePath HostFs FileModel CodeExec.

Variable base : string.

Lemma existsSync_evolves T m m' p :
  evolves T m m' -> existsSync m p = true -> existsSync m' p = true.
Proof.
  unfold existsSync. destruct (locate p) as [k t]. intros He.
  destruct k as [|seg k]; [auto|]. cbn [node_at].
  destruct (He (seg :: k)) as [E|[[E1 E2]|(_ & E1 & c & E2)]].
  - rewrite E. auto.
  - rewrite E1, E2. auto.
  - rewrite E2. destruct (m !! (seg :: k)) as [[c'|]|]; [auto|contradiction|discriminate].
Qed.

Definition item_dirs (item : child) : Prop :=
  forall cur w w',
    createHostFile item cur base w = (Ok tt, w') ->
    forall n id ch q,
      reaches base [item] cur (FolderChild n id ch) q ->
      existsSync (host w') q = true.

Definition list_dirs (items : list child) : Prop :=
  forall cur w w',
    createHostFilesRecursive items cur base w = (Ok tt, w') ->
    forall n id ch q,
      reaches base items cur (FolderChild n id ch) q ->
      existsSync (host w') q = true.

Lemma reaches_cons i rest cur tgt q :
  reaches base (i :: rest) cur tgt q ->
  reaches base [i] cur tgt q \/ reaches base rest cur tgt q.
Proof.
  intros H. inversion H as [items c item Hin Hs|items c n id children item q' Hin Hs Hr];
    subst.
  - apply elem_of_cons in Hin as [->|Hin].
    + left. apply reaches_here; [left|exact Hs].
    + right. apply reaches_here; assumption.
  - apply elem_of_cons in Hin as [<-|Hin].
    + left. eapply reaches_below; [left|exact Hs|exact Hr].
    + right. eapply reaches_below; eassumption.
Qed.

Lemma list_dirs_of items : Forall item_dirs items -> list_dirs items.
Proof.
  induction 1 as [|i rest Hi _ IH]; intros cur w w' Hrun n id ch q Hreach.
  - inversion Hreach as [? ? ? Hin|? ? ? ? ? ? ? Hin]; subst;
      apply elem_of_nil in Hin; contradiction.
  - cbn [createHostFilesRecursive] in Hrun. unfold bind in Hrun.
    destruct (createHostFile i cur base w) as [[[]|e|] w1] eqn:E1; try discriminate Hrun.
    apply reaches_cons in Hreach as [Hreach|Hreach].
    + apply createHostFilesRecursive_spec in Hrun as (_ & _ & He & _).
      eapply existsSync_evolves; [exact He|]. eapply Hi; eassumption.
    + eapply IH; eassumption.
Qed.

Lemma every_item_dirs : forall item, item_dirs item.
Proof.
  induction item as [n0 id0 c0|n0 id0 children IH] using child_rect';
    intros cur w w' Hrun n id ch q Hreach.
  - inversion Hreach as [? ? ? Hin|? ? ? ? ? ? ? Hin]; subst;
      apply list_elem_of_singleton in Hin; discriminate Hin.
  - rewrite createHostFile_folder in Hrun. cbv zeta in Hrun.
    set (p := join_paths [cur; n0]) in *.
    assert (Hs : startsWith p base = true).
    { inversion Hreach as [? ? ? Hin Hs|? ? ? ? ? ? ? Hin Hs]; subst;
        apply list_elem_of_singleton in Hin; injection Hin as -> -> ->; exact Hs. }
    rewrite Hs in Hrun. cbn [negb] in Hrun.
    unfold bind at 1, gets at 1 in Hrun. unfold bind at 1 in Hrun.
    match type of Hrun with context [match ?m w with _ => _ end] =>
      destruct (m w) as [[[]|e|] w1] eqn:E1 end; try discriminate Hrun.
    apply ensure_dir in E1 as (_ & _ & Hnew & Hold).
    assert (Hp : existsSync (host w1) p = true).
    { destruct (existsSync (host w) p) eqn:Hpresent; [|auto].
      rewrite (Hold eq_refl). exact Hpresent. }
    inversion Hreach as [? ? ? Hin _|? ? ? ? ? ? ? Hin _ Hbelow]; subst;
      apply list_elem_of_singleton in Hin.
    + injection Hin as -> -> ->.
      apply createHostFilesRecursive_spec in Hrun as (_ & _ & He & _).
      eapply existsSync_evolves; [exact He|exact Hp].
    + injection Hin as -> -> ->. eapply (list_dirs_of children IH); eassumption.
Qed.

(** X18: after a pull that completes, the workspace of the project
    exists on the host, and so does the path of every folder node the walk
    reaches, whether the folder has children or not. *)
Theorem pull_makes_directories fuel userId root (w w' : world) :
  syncProjectFromVfsToHost fuel userId (Some root) base w = (Ok tt, w') ->
  existsSync (host w') base = true /\
  exists vfsStructure,
    getVfsDescendants fuel (vfs w) userId root = Some vfsStructure /\
    forall n id children q,
      reaches base vfsStructure base (FolderChild n id children) q ->
      existsSync (host w') q = true.
Proof.
  unfold syncProjectFromVfsToHost. intros Hrun.
  unfold bind at 1, gets at 1 in Hrun. unfold bind at 1 in Hrun.
  match type of Hrun with context [match ?m w with _ => _ end] =>
    destruct (m w) as [[[]|e|] w1] eqn:E1 end; try discriminate Hrun.
  apply ensure_dir in E1 as (Hv & _ & Hnew & Hold).
  assert (Hp : existsSync (host w1) base = true).
  { destruct (existsSync (host w) base) eqn:Hpresent; [|auto].
    rewrite (Hold eq_refl). exact Hpresent. }
  unfold bind at 1 in Hrun. rewrite Hv in Hrun.
  destruct (getVfsDescendants fuel (vfs w) userId root) as [l|]; [|discriminate Hrun].
  split.
  - apply createHostFilesRecursive_spec in Hrun as (_ & _ & He & _).
    eapply existsSync_evolves; [exact He|exact Hp].
  - exists l. split; [reflexivity|]. intros n id children q Hreach.
    eapply (list_dirs_of l); [|exact Hrun|exact Hreach].
    apply Forall_forall. intros item _. apply every_item_dirs.
Qed.

(** X19: the pull reads the VFS and writes the host: whatever its
    arguments and however it ends, the collection is after it what it was
    before. *)
Theorem pull_leaves_vfs fuel userId rootId (w : world) :
  vfs (syncProjectFromVfsToHost fuel userId rootId base w).2 = vfs w.
Proof.
  destruct (syncProjectFromVfsToHost fuel userId rootId base w) as [r w'] eqn:E.
  apply syncProjectFromVfsToHost_evolves in E as [E _]. exact E.
Qed.

End PullDirectories.

Section PullDirectoriesScenario.
Import JsString NodePath HostFs FileModel CodeExec.

Lemma pull_makes_directories_witness :
  existsSync (host after_pull) "/srv/app/projects/u1/demo/src" = true.
Proof.
  destruct (pull_makes_directories demo_path 5 "u1" (Some 1) before_pull after_pull
              pull_scenario_runs) as (_ & l & Hl & Hdirs).
  vm_compute in Hl. injection Hl as <-.
  apply (Hdirs "src" 2 [FileChild "app.js" 3 "console.log(1)"]
           "/srv/app/projects/u1/demo/src").
  apply (reaches_here demo_path _ demo_path
           (FolderChild "src" 2 [FileChild "app.js" 3 "console.log(1)"])).
  - left.
  - vm_compute. reflexivity.
Defined.

End PullDirectoriesScenario.

Section SurfaceWitnesses.
Import JsString NodePath HostFs FileModel AuthUtils WorkspaceFs.

Lemma writeFileContent_denied_witness :
  exists message,
    writeFileContent "/srv/app" (by_u2 None None None (Some "x")) demo_world
    = (Ok (mkRes 403 (Message message)), demo_world).
Proof.
  apply writeFileContent_denied.
  - repeat split.
  - eexists. reflexivity.
  - vm_compute. reflexivity.
Defined.

Lemma createDirectory_denied_witness :
  exists message,
    createDirectory "/srv/app"
      (mkReq "u2" (Some "u1") (Some "demo") None None None (Some "lib")
         None None None None) demo_world
    = (Ok (mkRes 403 (Message message)), demo_world).
Proof.
  apply (createDirectory_denied "/srv/app"
           (mkReq "u2" (Some "u1") (Some "demo") None None None (Some "lib")
              None None None None) demo_world).
  - reflexivity.
  - reflexivity.
  - reflexivity.
  - vm_compute. reflexivity.
Defined.

End SurfaceWitnesses.

(** ** Whose documents the sync reads, and what the push does not delete *)

(** *** Where the files a pull leaves on the host come from *)

Section PullProvenance.
Import JsString NodePath HostFs FileModel CodeExec.

(** From [m] to [m']: a regular file of [m'] was in [m] with the same
    content, or is one of the writes [ts]. *)
Definition files_from (ts : list (list string * string)) (m m' : fs) : Prop :=
  forall k c, m' !! k = Some (HFile c) -> m !! k = Some (HFile c) \/ (k, c) ∈ ts.

Lemma files_from_refl ts m : files_from ts m m.
Proof. intros k c H. left. exact H. Qed.

Lemma files_from_trans ts1 ts2 m1 m2 m3 :
  files_from ts1 m1 m2 -> files_from ts2 m2 m3 -> files_from (ts1 ++ ts2) m1 m3.
Proof.
  intros H12 H23 k c H. destruct (H23 k c H) as [H2|Hin].
  - destruct (H12 k c H2) as [H1|Hin]; [left; exact H1|].
    right. apply elem_of_app. left. exact Hin.
  - right. apply elem_of_app. right. exact Hin.
Qed.

Lemma files_from_weaken ts ts' m m' :
  ts ⊆ ts' -> files_from ts m m' -> files_from ts' m m'.
Proof. intros Hsub H k c Hk. destruct (H k c Hk); [left|right]; auto. Qed.

Lemma grows_files_from m m' : grows m m' -> files_from [] m m'.
Proof.
  intros Hg k c H. destruct (Hg k) as [E|[_ E]]; [left; congruence|congruence].
Qed.

(** The directory of a folder, made when it is missing. *)
Lemma ensure_dir_files p w r w' :
  (if negb (existsSync (host w) p)
   then on_host (mkdir_recursive p) ;;; on_host (chmod p)
   else ret tt) w = (r, w') ->
  r <> Diverges /\ files_from [] (host w) (host w').
Proof.
  destruct (negb _).
  - unfold bind. destruct (on_host (mkdir_recursive p) w) as [r2 w2] eqn:E2.
    apply on_host_mkdir in E2 as (Hr2 & _ & _ & Hg2).
    destruct r2 as [[]|e|]; [| |contradiction].
    + intros E3. apply on_host_chmod in E3 as [Hr3 ->].
      split; [exact Hr3|apply grows_files_from; exact Hg2].
    + intros [= <- <-]. split; [discriminate|apply grows_files_from; exact Hg2].
  - intros [= <- <-]. split; [discriminate|apply files_from_refl].
Qed.

Lemma createHostFile_files base : forall item cur w r w',
  createHostFile item cur base w = (r, w') ->
  files_from (targets_of item cur base) (host w) (host w').
Proof.
  induction item as [n id c|n id children IH] using child_rect'; intros cur w r w'.
  - cbn [createHostFile targets_of child_name]. cbv zeta.
    destruct (negb _).
    { unfold console_error, modify. intros [= <- <-]. apply files_from_refl. }
    set (p := join_paths [cur; n]).
    unfold bind at 1. destruct (on_host (writeFile p c) w) as [r1 w1] eqn:E1.
    apply on_host_writeFile in E1 as (_ & _ & E1).
    destruct r1 as [[]|e|]; [| |contradiction].
    + destruct E1 as [E1 _]. intros E2. apply on_host_chmod in E2 as [_ ->].
      intros k c' Hk. rewrite E1 in Hk.
      destruct (decide (k = key_of p)) as [->|Hne].
      * rewrite lookup_insert_eq in Hk. injection Hk as <-. right. left.
      * rewrite lookup_insert_ne in Hk by congruence. left. exact Hk.
    + intros [= <- <-]. rewrite E1. apply files_from_refl.
  - rewrite createHostFile_folder, targets_of_folder. cbv zeta.
    set (p := join_paths [cur; n]). destruct (negb (startsWith p base)).
    { unfold console_error, modify. intros [= <- <-]. apply files_from_refl. }
    unfold bind at 1, gets at 1. unfold bind at 1.
    match goal with |- context [match ?m w with _ => _ end] =>
      destruct (m w) as [r1 w1] eqn:E1 end.
    apply ensure_dir_files in E1 as [Hr1 H1].
    destruct r1 as [[]|e|]; [| |contradiction].
    2:{ intros [= <- <-]. eapply files_from_weaken; [|exact H1].
        intros x Hx. apply elem_of_nil in Hx. contradiction. }
    intros E2.
    change (targets children p base) with ([] ++ targets children p base)%list.
    eapply files_from_trans; [exact H1|]. clear H1 Hr1 w.
    revert w1 r w' E2. induction IH as [|i rest Hi _ IHrest]; intros w r w'.
    + cbn. intros [= <- <-]. apply files_from_refl.
    + cbn [createHostFilesRecursive targets]. unfold bind at 1.
      destruct (createHostFile i p base w) as [r1 w1] eqn:E1.
      apply Hi in E1. destruct r1 as [[]|e|].
      * intros E2. eapply files_from_trans; [exact E1|]. eapply IHrest; exact E2.
      * intros [= <- <-]. eapply files_from_weaken; [|exact E1].
        intros x Hx. apply elem_of_app. left. exact Hx.
      * intros [= <- <-]. eapply files_from_weaken; [|exact E1].
        intros x Hx. apply elem_of_app. left. exact Hx.
Qed.

Lemma createHostFilesRecursive_files base items : forall cur w r w',
  createHostFilesRecursive items cur base w = (r, w') ->
  files_from (targets items cur base) (host w) (host w').
Proof.
  induction items as [|i rest IH]; intros cur w r w'.
  - cbn. intros [= <- <-]. apply files_from_refl.
  - cbn [createHostFilesRecursive targets]. unfold bind at 1.
    destruct (createHostFile i cur base w) as [r1 w1] eqn:E1.
    apply createHostFile_files in E1. destruct r1 as [[]|e|].
    + intros E2. eapply files_from_trans; [exact E1|]. eapply IH; exact E2.
    + intros [= <- <-]. eapply files_from_weaken; [|exact E1].
      intros x Hx. apply elem_of_app. left. exact Hx.
    + intros [= <- <-]. eapply files_from_weaken; [|exact E1].
      intros x Hx. apply elem_of_app. left. exact Hx.
Qed.

(** The whole pull, however it ends. *)
Lemma syncProjectFromVfsToHost_files fuel userId rootId path w r w' :
  syncProjectFromVfsToHost fuel userId rootId path w = (r, w') ->
  files_from (pull_targets fuel (vfs w) userId rootId path) (host w) (host w').
Proof.
  unfold syncProjectFromVfsToHost, pull_targets.
  destruct rootId as [parentId|].
  2:{ intros [= <- <-]. apply files_from_refl. }
  unfold bind at 1, gets at 1. unfold bind at 1.
  match goal with |- context [match ?m w with _ => _ end] =>
    destruct (m w) as [r1 w1] eqn:E1 end.
  assert (Hv1 : vfs w1 = vfs w).
  { revert E1. destruct (negb _).
    - unfold bind. destruct (on_host (mkdir_recursive path) w) as [r2 w2] eqn:E2.
      apply on_host_mkdir in E2 as (Hr2 & Hv2 & _).
      destruct r2 as [[]|e|]; [| |contradiction].
      + intros E3. apply on_host_chmod in E3 as [_ ->]. exact Hv2.
      + intros [= <- <-]. exact Hv2.
    - intros [= <- <-]. reflexivity. }
  apply ensure_dir_files in E1 as [Hr1 H1].
  assert (Hany : forall ts, files_from ts (host w) (host w1)).
  { intros ts. eapply files_from_weaken; [|exact H1].
    intros x Hx. apply elem_of_nil in Hx. contradiction. }
  destruct r1 as [[]|e|]; [| |contradiction].
  2:{ intros [= <- <-]. apply Hany. }
  unfold bind at 1. rewrite Hv1.
  destruct (getVfsDescendants fuel (vfs w) userId parentId) as [vfsStructure|].
  2:{ intros [= <- <-]. apply Hany. }
  intros E2. apply createHostFilesRecursive_files in E2.
  change (targets vfsStructure path path) with ([] ++ targets vfsStructure path path)%list.
  eapply files_from_trans; [exact H1|exact E2].
Qed.

End PullProvenance.

Section Provenance.
Import JsString NodePath HostFs FileModel CodeExec.

Variable userId : string.
Variable base : string.

(** The names of the host entries, at every level. *)
Fixpoint names_in (e : hentry) : list string :=
  match e with
  | HostDir n es =>
      n :: (fix loop (es : list hentry) : list string :=
              match es with
              | [] => []
              | e' :: rest => (names_in e' ++ loop rest)%list
              end) es
  | HostFile n _ => [n]
  | HostOther n => [n]
  end.

Fixpoint host_names (es : list hentry) : list string :=
  match es with
  | [] => []
  | e :: rest => (names_in e ++ host_names rest)%list
  end.

Lemma names_in_dir n es : names_in (HostDir n es) = n :: host_names es.
Proof.
  cbn [names_in]. f_equal.
Qed.

Lemma settle_file_stays now n content parent c log f :
  ids_ok c -> f ∈ docs c -> name f <> n ->
  f ∈ docs (settle_file userId now n content parent (c, log)).1.
Proof.
  intros Hok Hf Hn. unfold settle_file, drop_mismatch. cbn [fst snd].
  destruct (look c userId parent n) as [d0|] eqn:Hl.
  - destruct (look_owner _ _ _ _ _ Hl) as (Hd0 & _ & Hn0).
    assert (Hne : f <> d0) by congruence.
    case_bool_decide as Hty; cbn [fst snd].
    + case_bool_decide as Hc; cbn [negb fst snd].
      * destruct (1000 <? now - updatedAt d0)%Z; cbn [fst snd]; [|exact Hf].
        apply (save_elem c _ d0); auto.
      * apply (save_elem c _ d0); auto.
    + apply insert_elem. left. apply deleteOne_elem; auto.
  - cbn [fst snd]. apply insert_elem. left. exact Hf.
Qed.

Lemma settle_folder_stays now n parent c log f :
  ids_ok c -> f ∈ docs c -> name f <> n ->
  f ∈ docs (settle_folder userId now n parent (c, log)).2.1.
Proof.
  intros Hok Hf Hn. unfold settle_folder, drop_mismatch. cbn [fst snd].
  destruct (look c userId parent n) as [d0|] eqn:Hl.
  - destruct (look_owner _ _ _ _ _ Hl) as (Hd0 & _ & Hn0).
    assert (Hne : f <> d0) by congruence.
    case_bool_decide as Hty; cbn [fst snd]; [exact Hf|].
    apply insert_elem. left. apply deleteOne_elem; auto.
  - cbn [fst snd]. apply insert_elem. left. exact Hf.
Qed.

Definition entry_stays (f : File) (e : hentry) : Prop :=
  forall now cur parent c log,
    ids_ok c -> f ∈ docs c -> name f ∉ names_in e ->
    f ∈ docs (scanEntry userId now e cur parent base (c, log)).1.

Lemma list_stays f es :
  Forall (entry_stays f) es ->
  forall now cur parent c log,
    ids_ok c -> f ∈ docs c -> name f ∉ host_names es ->
    f ∈ docs (recursivelyScanHostAndUploadToVFS userId now es cur parent base
                (c, log)).1.
Proof.
  intros Hall. induction Hall as [|e rest He _ IH];
    intros now cur parent c log Hok Hf Hn; [exact Hf|].
  cbn [recursivelyScanHostAndUploadToVFS]. cbn [host_names] in Hn.
  pose proof (He now cur parent c log Hok Hf
                ltac:(intros H; apply Hn, elem_of_app; left; exact H)) as H1.
  pose proof (every_entry_keeps userId base e now cur parent c log Hok) as (Hok1 & _).
  destruct (scanEntry userId now e cur parent base (c, log)) as [c1 log1].
  cbn [fst] in *. apply IH; [exact Hok1|exact H1|].
  intros H. apply Hn, elem_of_app. right. exact H.
Qed.

Lemma every_entry_stays f : forall e, entry_stays f e.
Proof.
  induction e as [n content|n es IH|n] using hentry_rect';
    intros now cur parent c log Hok Hf Hn.
  - destruct (visited base (HostFile n content) cur) eqn:Hv.
    2:{ rewrite scanEntry_skipped by exact Hv. exact Hf. }
    rewrite scanEntry_file by exact Hv. apply settle_file_stays; [assumption..|].
    intros E. apply Hn. cbn. rewrite E. left.
  - destruct (visited base (HostDir n es) cur) eqn:Hv.
    2:{ rewrite scanEntry_skipped by exact Hv. exact Hf. }
    rewrite scanEntry_dir by exact Hv. rewrite names_in_dir in Hn.
    assert (Hne : name f <> n) by (intros E; apply Hn; rewrite E; left).
    pose proof (settle_folder_stays now n parent c log f Hok Hf Hne) as H1.
    pose proof (settle_folder_keeps userId now n parent c log Hok
                  (visited_not_ignored base _ _ Hv)) as (Hok1 & _).
    destruct (settle_folder userId now n parent (c, log)) as [d [ca loga]].
    cbn [fst snd] in *. apply (list_stays f es IH); [assumption..|].
    intros H. apply Hn. right. exact H.
  - rewrite scanEntry_other. exact Hf.
Qed.

(** X20: the push does not carry deletions over: a document whose name
    is the name of no host entry, at any level, is in the collection after
    the push as it was before, whoever owns it. *)
Theorem push_keeps_what_host_lacks now es root c f :
  ids_ok c -> f ∈ docs c -> name f ∉ host_names es ->
  f ∈ docs (syncWorkspaceToVfs userId now base (Some es) root c).1.
Proof.
  intros Hok Hf Hn. cbn [syncWorkspaceToVfs].
  apply list_stays; [|assumption..].
  apply Forall_forall. intros e _. apply every_entry_stays.
Qed.

(** X21: [getFileContentFromVfs] answers only with the content of a file
    of the user: a content it returns is that of a document of the
    collection whose owner is [userId] and whose type is [file]. *)
Theorem getFileContentFromVfs_own_file c path s :
  getFileContentFromVfs c userId path = Content s ->
  exists d, d ∈ docs c /\ FileModel.userId d = userId /\ type d = file /\
            content d = s.
Proof.
  assert (Hq : forall n p d,
            findOne (typed_query userId n file p) c = Some d ->
            d ∈ docs c /\ FileModel.userId d = userId /\ type d = file).
  { intros n p d H. unfold findOne in H. apply List.find_some in H as [Hin Hq].
    unfold typed_query in Hq.
    apply andb_true_iff in Hq as [Hq _]. apply andb_true_iff in Hq as [Hq H3].
    apply andb_true_iff in Hq as [H1 _].
    apply bool_decide_eq_true in H1, H3.
    split; [apply list_elem_of_In; exact Hin|auto]. }
  unfold getFileContentFromVfs. cbv zeta.
  destruct (List.last _ None) as [fileName|].
  - destruct (descend c userId _ None) as [part|parentId]; [discriminate|].
    destruct (findOne _ c) as [d|] eqn:E; [|discriminate].
    intros [= <-]. exists d. apply Hq in E. tauto.
  - case_bool_decide; [discriminate|].
    destruct (findOne _ c) as [d|] eqn:E; [|discriminate].
    intros [= <-]. exists d. apply Hq in E. tauto.
Qed.

(** An object of [getVfsDescendants] that stands for a document of the
    user, with what is below it. *)
Inductive from_user (c : collection) : child -> Prop :=
| from_user_file d :
    d ∈ docs c -> FileModel.userId d = userId -> type d = file ->
    from_user c (FileChild (name d) (FileModel._id d) (content d))
| from_user_folder d children :
    d ∈ docs c -> FileModel.userId d = userId -> type d = folder ->
    Forall (from_user c) children ->
    from_user c (FolderChild (name d) (FileModel._id d) children).

Lemma getVfsDescendants_from_user c : forall fuel parent l,
  getVfsDescendants fuel c userId parent = Some l -> Forall (from_user c) l.
Proof.
  induction fuel as [|fuel IH]; intros parent l; [discriminate|].
  cbn [getVfsDescendants].
  assert (Hitems : forall f, In f (findMany (children_query userId parent) c) ->
                     f ∈ docs c /\ FileModel.userId f = userId).
  { intros f Hin. apply List.filter_In in Hin as [Hin Hq].
    apply children_query_spec in Hq as [Hq _]. split; [|exact Hq].
    apply list_elem_of_In. exact Hin. }
  revert l. induction (findMany (children_query userId parent) c) as [|item rest IHrest];
    intros l.
  - intros [= <-]. constructor.
  - destruct (Hitems item (or_introl eq_refl)) as [Hin Hu].
    destruct (type item) eqn:Hty.
    + match goal with |- context [option_map _ ?e] => destruct e as [l'|] eqn:El end;
        [|discriminate].
      cbn. intros [= <-]. constructor.
      * apply from_user_file; assumption.
      * apply IHrest; [|reflexivity]. intros f Hf. apply Hitems. right. exact Hf.
    + destruct (getVfsDescendants fuel c userId (Some (FileModel._id item)))
        as [ch|] eqn:Ech; [|discriminate]. cbn [option_map].
      match goal with |- context [option_map _ ?e] => destruct e as [l'|] eqn:El end;
        [|discriminate].
      cbn. intros [= <-]. constructor.
      * apply from_user_folder; [assumption..|]. eapply IH. exact Ech.
      * apply IHrest; [|reflexivity]. intros f Hf. apply Hitems. right. exact Hf.
Qed.

Lemma targets_from_user c : forall item cur t,
  from_user c item -> t ∈ targets_of item cur base ->
  exists d, d ∈ docs c /\ FileModel.userId d = userId /\ type d = file /\
            content d = t.2.
Proof.
  induction item as [n id s|n id children IH] using child_rect'; intros cur t Hu Ht.
  - cbn [targets_of child_name] in Ht. cbv zeta in Ht.
    destruct (negb _); [apply elem_of_nil in Ht; contradiction|].
    apply list_elem_of_singleton in Ht as ->. cbn [snd].
    inversion Hu as [d Hd Hud Hty|]; subst. eauto.
  - rewrite targets_of_folder in Ht.
    destruct (negb _); [apply elem_of_nil in Ht; contradiction|].
    inversion Hu as [|d ch Hd Hud Hty Hch]; subst. clear Hu.
    revert Ht. generalize (join_paths [cur; name d]). intros cur'.
    induction IH as [|i rest Hi _ IHrest]; cbn [targets]; intros Ht.
    + apply elem_of_nil in Ht. contradiction.
    + apply Forall_cons in Hch as [Hi' Hrest].
      apply elem_of_app in Ht as [Ht|Ht]; [eapply Hi; eassumption|auto].
Qed.

Lemma pull_targets_from_user fuel c rootId k s :
  (k, s) ∈ pull_targets fuel c userId rootId base ->
  exists d, d ∈ docs c /\ FileModel.userId d = userId /\ type d = file /\
            content d = s.
Proof.
  unfold pull_targets. destruct rootId as [parent|];
    [|intros H; apply elem_of_nil in H; contradiction].
  destruct (getVfsDescendants fuel c userId parent) as [l|] eqn:El;
    [|intros H; apply elem_of_nil in H; contradiction].
  apply getVfsDescendants_from_user in El. generalize base at 1. intros cur.
  induction El as [|i rest Hi _ IH]; cbn [targets]; intros Ht.
  - apply elem_of_nil in Ht. contradiction.
  - apply elem_of_app in Ht as [Ht|Ht]; [|auto].
    apply (targets_from_user c i cur (k, s) Hi Ht).
Qed.

(** X22: the pull writes the user's files only: however the call ends, a
    regular file that is on the host after it, and was not there with that
    content before, holds the content of a document of the collection
    whose owner is [userId] and whose type is [file]. *)
Theorem pull_writes_own_files fuel rootId w r w' k s :
  syncProjectFromVfsToHost fuel userId rootId base w = (r, w') ->
  host w' !! k = Some (HFile s) ->
  host w !! k <> Some (HFile s) ->
  exists d, d ∈ docs (vfs w) /\ FileModel.userId d = userId /\ type d = file /\
            content d = s.
Proof.
  intros Hrun Hafter Hbefore.
  apply syncProjectFromVfsToHost_files in Hrun.
  destruct (Hrun k s Hafter) as [H|H]; [contradiction|].
  eapply pull_targets_from_user. exact H.
Qed.

End Provenance.

Section ProvenanceScenario.
Import JsString NodePath HostFs FileModel CodeExec.

Lemma demo_vfs_ids_ok : ids_ok demo_vfs.
Proof. apply demo_vfs_tidy. Defined.

Lemma push_keeps_what_host_lacks_witness :
  owned 2 "src" folder EmptyString (Some 1)
  ∈ docs (syncWorkspaceToVfs "u1" 500 demo_path (Some [HostFile "README.md" "hi"])
            (Some 1) demo_vfs).1.
Proof.
  apply push_keeps_what_host_lacks.
  - exact demo_vfs_ids_ok.
  - right. left.
  - cbn. intros H. apply list_elem_of_singleton in H. discriminate H.
Defined.

Lemma getFileContentFromVfs_own_file_witness :
  exists d, d ∈ docs demo_vfs /\ FileModel.userId d = "u1" /\ type d = file /\
            content d = "console.log(1)".
Proof.
  apply (getFileContentFromVfs_own_file "u1" demo_vfs "/demo/src/app.js").
  vm_compute. reflexivity.
Defined.

Lemma pull_writes_own_files_witness :
  exists d, d ∈ docs demo_vfs /\ FileModel.userId d = "u1" /\ type d = file /\
            content d = "console.log(1)".
Proof.
  apply (pull_writes_own_files "u1" demo_path 5 (Some (Some 1)) before_pull
           (Ok tt) after_pull
           ["srv"; "app"; "projects"; "u1"; "demo"; "src"; "app.js"]
           "console.log(1)" pull_scenario_runs).
  - vm_compute. reflexivity.
  - vm_compute. discriminate.
Defined.

End ProvenanceScenario.

(** ** A second pull *)

Section PullTwice.
Import JsString NodePath HostFs FileModel CodeExec.

Variable base : string.

(** [m'] has the nodes of [m], each of the same kind. *)
Definition ahead (m m' : fs) : Prop :=
  forall k,
    match m !! k with
    | Some HDir => m' !! k = Some HDir
    | Some (HFile _) => exists c, m' !! k = Some (HFile c)
    | None => True
    end.

Lemma ahead_refl m : ahead m m.
Proof. intros k. destruct (m !! k) as [[c|]|]; eauto. Qed.

Lemma ahead_trans m1 m2 m3 : ahead m1 m2 -> ahead m2 m3 -> ahead m1 m3.
Proof.
  intros H1 H2 k. specialize (H1 k). specialize (H2 k).
  destruct (m1 !! k) as [[c|]|]; [| |exact I].
  - destruct H1 as [c' H1]. rewrite H1 in H2. exact H2.
  - rewrite H1 in H2. exact H2.
Qed.

Lemma evolves_ahead T m m' : evolves T m m' -> ahead m m'.
Proof.
  intros He k. destruct (He k) as [E|[[E1 E2]|(_ & E1 & c & E2)]].
  - rewrite E. destruct (m !! k) as [[c|]|]; eauto.
  - rewrite E1. exact I.
  - destruct (m !! k) as [[c'|]|]; [eauto|contradiction|exact I].
Qed.

Lemma existsSync_ahead m m' p :
  ahead m m' -> existsSync m p = true -> existsSync m' p = true.
Proof.
  unfold existsSync. destruct (locate p) as [k t]. intros Ha.
  destruct k as [|seg k]; [auto|]. cbn [node_at]. specialize (Ha (seg :: k)).
  destruct (m !! (seg :: k)) as [[c|]|]; [| |discriminate].
  - destruct Ha as [c' ->]. auto.
  - rewrite Ha. auto.
Qed.

(** The writes of a walk, made one after the other. *)
Fixpoint written (ts : list (list string * string)) (m : fs) : fs :=
  match ts with
  | [] => m
  | (k, c) :: rest => written rest (<[k := HFile c]> m)
  end.

Lemma written_app ts1 ts2 m : written (ts1 ++ ts2) m = written ts2 (written ts1 m).
Proof.
  revert m. induction ts1 as [|[k c] ts1 IH]; intros m; [reflexivity|]. cbn. apply IH.
Qed.

Lemma written_lookup ts : forall m k,
  written ts m !! k =
  match last_write ts k with
  | Some c => Some (HFile c)
  | None => m !! k
  end.
Proof.
  induction ts as [|[k' c] ts IH]; intros m k; [reflexivity|].
  cbn [written last_write]. rewrite IH.
  destruct (last_write ts k) as [c'|]; [reflexivity|].
  destruct (decide (k' = k)) as [->|Hne].
  - apply lookup_insert_eq.
  - apply lookup_insert_ne. exact Hne.
Qed.

Lemma written_same ts m :
  (forall k c, last_write ts k = Some c -> m !! k = Some (HFile c)) ->
  written ts m = m.
Proof.
  intros H. apply map_eq. intros k. rewrite written_lookup.
  destruct (last_write ts k) as [c|] eqn:E; [|reflexivity].
  symmetry. apply H. exact E.
Qed.

(** What a second run of a walk does, on a host that is ahead of the
    host the first run left: it comes to the same end, and only makes the
    writes again. *)
Definition replays (ts : list (list string * string)) (m1 : fs)
    (run : M world unit) : Prop :=
  forall w', ahead m1 (host w') ->
    exists w'', run w' = (Ok tt, w'') /\ vfs w'' = vfs w' /\
                host w'' = written ts (host w') /\ ahead (host w') (host w'').

Definition item_replays (item : child) : Prop :=
  forall cur w w1,
    createHostFile item cur base w = (Ok tt, w1) ->
    replays (targets_of item cur base) (host w1) (createHostFile item cur base).

Definition list_replays (items : list child) : Prop :=
  forall cur w w1,
    createHostFilesRecursive items cur base w = (Ok tt, w1) ->
    replays (targets items cur base) (host w1)
      (createHostFilesRecursive items cur base).

Lemma list_replays_of items : Forall item_replays items -> list_replays items.
Proof.
  induction 1 as [|i rest Hi _ IH]; intros cur w w1 Hrun w' Ha.
  - exists w'. cbn. repeat split; [apply ahead_refl].
  - cbn [createHostFilesRecursive] in Hrun. unfold bind in Hrun.
    destruct (createHostFile i cur base w) as [[[]|e|] wi] eqn:E1; try discriminate Hrun.
    pose proof (createHostFilesRecursive_spec _ _ _ _ _ _ Hrun) as (_ & _ & He & _).
    destruct (Hi cur w wi E1 w') as (wi' & Ei' & Hv' & Hh' & Ha').
    { eapply ahead_trans; [eapply evolves_ahead; exact He|exact Ha]. }
    destruct (IH cur wi w1 Hrun wi') as (w'' & E'' & Hv'' & Hh'' & Ha'').
    { eapply ahead_trans; [exact Ha|exact Ha']. }
    exists w''. cbn [createHostFilesRecursive targets]. unfold bind. rewrite Ei'.
    split; [exact E''|]. split; [congruence|].
    split; [rewrite written_app, <- Hh'; exact Hh''|].
    eapply ahead_trans; eassumption.
Qed.

Lemma every_item_replays : forall item, item_replays item.
Proof.
  induction item as [n id c|n id children IH] using child_rect';
    intros cur w w1 Hrun w' Ha.
  - cbn [createHostFile targets_of child_name] in *. cbv zeta in *.
    destruct (negb (startsWith (join_paths [cur; n]) base)).
    { unfold console_error, modify in *. injection Hrun as <-.
      eexists. split; [reflexivity|]. cbn. repeat split. apply ahead_refl. }
    set (p := join_paths [cur; n]) in *.
    apply bind_inv_ok in Hrun as ([] & w2 & Hw & Hc).
    apply on_host_inv in Hw as (m2 & Hw & ->).
    apply on_host_inv in Hc as (m3 & Hc & ->). apply chmod_ok in Hc as [-> _].
    cbn [host with_host] in Ha.
    unfold writeFile in Hw. destruct (locate p) as [k t] eqn:Hl.
    destruct k as [|seg k]; [discriminate Hw|].
    destruct (node_at (host w) (parent_of (seg :: k))) as [[c'|]|] eqn:Hparent;
      try discriminate Hw.
    assert (Hm2 : m2 = <[seg :: k := HFile c]> (host w) /\ t = false).
    { destruct (host w !! (seg :: k)) as [[c'|]|]; try discriminate Hw;
        destruct t; try discriminate Hw; injection Hw as <-; auto. }
    destruct Hm2 as [-> ->]. clear Hw.
    assert (Hfile : exists c', host w' !! (seg :: k) = Some (HFile c')).
    { specialize (Ha (seg :: k)). rewrite lookup_insert_eq in Ha. exact Ha. }
    destruct Hfile as [c' Hfile].
    assert (Hpar : node_at (host w') (parent_of (seg :: k)) = Some HDir).
    { destruct (parent_of (seg :: k)) as [|s0 k0] eqn:Hpk; [reflexivity|].
      cbn [node_at] in *. specialize (Ha (s0 :: k0)).
      rewrite lookup_insert_ne in Ha.
      - rewrite Hparent in Ha. exact Ha.
      - intros E. rewrite <- E in Hpk. unfold parent_of in Hpk.
        apply (f_equal length) in Hpk.
        rewrite List.removelast_firstn_len, length_firstn in Hpk.
        cbn [length Nat.pred] in Hpk. lia. }
    assert (Hw' : writeFile p c (host w') = (Ok tt, <[seg :: k := HFile c]> (host w'))).
    { unfold writeFile. rewrite Hl, Hpar, Hfile. reflexivity. }
    eexists. unfold bind, on_host, zoom. rewrite Hw'. cbn [host with_host].
    assert (Hex : existsSync (<[seg :: k := HFile c]> (host w')) p = true).
    { unfold existsSync. rewrite Hl. cbn [node_at]. rewrite lookup_insert_eq.
      reflexivity. }
    assert (Hk : key_of p = seg :: k) by (unfold key_of; rewrite Hl; reflexivity).
    unfold chmod. rewrite Hex. split; [reflexivity|]. cbn [vfs host with_host snd].
    split; [reflexivity|]. split; [cbn [written]; rewrite Hk; reflexivity|].
    intros k0. destruct (decide (k0 = seg :: k)) as [->|Hne].
    + rewrite Hfile, lookup_insert_eq. eauto.
    + rewrite lookup_insert_ne by congruence.
      destruct (host w' !! k0) as [[c0|]|]; eauto.
  - rewrite createHostFile_folder in *. rewrite targets_of_folder. cbv zeta in *.
    set (p := join_paths [cur; n]) in *.
    destruct (negb (startsWith p base)).
    { unfold console_error, modify in *. injection Hrun as <-.
      eexists. split; [reflexivity|]. cbn. repeat split. apply ahead_refl. }
    unfold bind at 1, gets at 1 in Hrun. unfold bind at 1 in Hrun.
    match type of Hrun with context [match ?m w with _ => _ end] =>
      destruct (m w) as [[[]|e|] wa] eqn:E1 end; try discriminate Hrun.
    apply ensure_dir in E1 as (_ & _ & Hnew & Hold).
    assert (Hp : existsSync (host wa) p = true).
    { destruct (existsSync (host w) p) eqn:Hpresent; [|auto].
      rewrite (Hold eq_refl). exact Hpresent. }
    pose proof (createHostFilesRecursive_spec _ _ _ _ _ _ Hrun) as (_ & _ & He & _).
    assert (Hp' : existsSync (host w') p = true).
    { eapply existsSync_ahead; [exact Ha|].
      eapply existsSync_ahead; [eapply evolves_ahead; exact He|exact Hp]. }
    destruct (list_replays_of children IH p wa w1 Hrun w' Ha)
      as (w'' & E'' & Hv'' & Hh'' & Ha'').
    exists w''. unfold bind at 1, gets at 1. rewrite Hp'. cbn [negb].
    unfold bind at 1, ret at 1. auto.
Qed.

(** X23: a second pull changes nothing on the host: after a pull that
    completes, the same pull completes again and leaves the host, and the
    VFS, as the first one left them. *)
Theorem pull_twice_same_host fuel userId root (w w1 : world) :
  syncProjectFromVfsToHost fuel userId (Some root) base w = (Ok tt, w1) ->
  exists w2,
    syncProjectFromVfsToHost fuel userId (Some root) base w1 = (Ok tt, w2) /\
    host w2 = host w1 /\ vfs w2 = vfs w1.
Proof.
  unfold syncProjectFromVfsToHost. intros Hrun.
  unfold bind at 1, gets at 1 in Hrun. unfold bind at 1 in Hrun.
  match type of Hrun with context [match ?m w with _ => _ end] =>
    destruct (m w) as [[[]|e|] wa] eqn:E1 end; try discriminate Hrun.
  apply ensure_dir in E1 as (Hv & _ & Hnew & Hold).
  assert (Hp : existsSync (host wa) base = true).
  { destruct (existsSync (host w) base) eqn:Hpresent; [|auto].
    rewrite (Hold eq_refl). exact Hpresent. }
  unfold bind at 1 in Hrun. rewrite Hv in Hrun.
  destruct (getVfsDescendants fuel (vfs w) userId root) as [l|] eqn:El;
    [|discriminate Hrun].
  pose proof (createHostFilesRecursive_spec _ _ _ _ _ _ Hrun) as (_ & Hv1 & He & Hlast).
  destruct (Hlast eq_refl) as [_ Hlast'].
  assert (Hp1 : existsSync (host w1) base = true).
  { eapply existsSync_ahead; [eapply evolves_ahead; exact He|exact Hp]. }
  assert (Hall : Forall item_replays l)
    by (apply Forall_forall; intros item _; apply every_item_replays).
  destruct (list_replays_of l Hall base wa w1 Hrun w1 (ahead_refl _))
    as (w2 & E2 & Hv2 & Hh2 & _).
  exists w2. unfold bind at 1, gets at 1. rewrite Hp1. cbn [negb].
  unfold bind at 1, ret at 1. unfold bind at 1.
  rewrite Hv1, Hv, El. split; [exact E2|]. split; [|congruence].
  rewrite Hh2. apply written_same. exact Hlast'.
Qed.

End PullTwice.

Section PullTwiceScenario.
Import JsString NodePath HostFs FileModel CodeExec.

Lemma pull_twice_same_host_witness :
  host (syncProjectFromVfsToHost 5 "u1" (Some (Some 1)) demo_path after_pull).2
  = host after_pull.
Proof.
  destruct (pull_twice_same_host demo_path 5 "u1" (Some 1) before_pull after_pull
              pull_scenario_runs) as (w2 & Hrun & Hhost & _).
  rewrite Hrun. exact Hhost.
Defined.

End PullTwiceScenario.

(** ** Other owners and other sessions *)

Section Isolation.
Import JsString NodePath HostFs FileModel CodeExec FileCtl DockerCtl.

Lemma findById_elem id c f :
  findById id c = Some f -> f ∈ docs c /\ FileModel._id f = id.
Proof.
  intros H. split; [|eapply findById_id; exact H].
  unfold findById, findOne in H. apply List.find_some in H as [H _].
  apply list_elem_of_In. exact H.
Qed.

Lemma others_save requester c f f' :
  NoDup (FileModel._id <$> docs c) -> f ∈ docs c ->
  FileModel.userId f = requester -> FileModel._id f' = FileModel._id f ->
  FileModel.userId f' = requester ->
  others requester (docs (save f' c)) = others requester (docs c).
Proof.
  intros Hnd Hf Hu Hid Hu'. rewrite save_docs. apply others_map. intros x Hx.
  rewrite (replace_by_other f' f (docs c)) by assumption.
  destruct (decide (x = f)) as [->|]; split; auto; congruence.
Qed.

Lemma others_deleteOne requester c f :
  NoDup (FileModel._id <$> docs c) -> f ∈ docs c ->
  FileModel.userId f = requester ->
  others requester (docs (deleteOne (FileModel._id f) c)) = others requester (docs c).
Proof.
  intros Hnd Hf Hu. cbn. apply others_remove_first. intros x Hx Hq.
  apply bool_decide_eq_true in Hq.
  assert (x = f) as -> by (eapply same_id_same_doc; eassumption). exact Hu.
Qed.

(** X24: through the file API a user changes documents of his own only:
    whatever [updateFile], [moveFile] or [deleteFile] is asked by
    [requester], and whatever it answers, the documents of the other
    owners are the same, in the same order, after the call. *)
Theorem file_api_leaves_other_owners requester c :
  NoDup (FileModel._id <$> docs c) ->
  (forall id name content,
     others requester (docs (updateFile id requester name content c).2)
     = others requester (docs c)) /\
  (forall draggedId targetId now,
     others requester (docs (moveFile draggedId targetId requester now c).2)
     = others requester (docs c)) /\
  (forall id,
     others requester (docs (deleteFile id requester c).2)
     = others requester (docs c)).
Proof.
  intros Hnd. repeat split.
  - intros id name content. unfold updateFile.
    destruct (findById id c) as [f|] eqn:Hf; [|reflexivity].
    apply findById_elem in Hf as [Hf _].
    case_bool_decide as Hu; cbn [negb snd]; [|reflexivity].
    apply (others_save requester c f); auto.
  - intros draggedId targetId now. unfold moveFile.
    destruct (findById draggedId c) as [f|] eqn:Hf; [|reflexivity].
    apply findById_elem in Hf as [Hf _].
    case_bool_decide as Hu; cbn [negb snd]; [|reflexivity].
    apply (others_save requester c f); auto; case_bool_decide; auto.
  - intros id. unfold deleteFile.
    destruct (findById id c) as [f|] eqn:Hf; [|reflexivity].
    apply findById_elem in Hf as [Hf _].
    case_bool_decide as Hu; cbn [negb snd]; [|reflexivity].
    apply others_deleteOne; assumption.
Qed.

Variable cwd : string.
Variable d : daemon.

(** The [try] of [createDockerContainer] leaves the registry as it is, or
    sets the entry of the session. *)
Lemma createDockerContainer_try_registry userId terminalId language slug vfsId s r s1 :
  createDockerContainer_try cwd d userId terminalId language slug vfsId s = (r, s1) ->
  activeContainers s1 = activeContainers s \/
  exists info,
    activeContainers s1 = <[session_key userId terminalId := info]> (activeContainers s).
Proof.
  unfold createDockerContainer_try.
  destruct (negb (truthy userId) || negb (truthy terminalId)).
  { intros [= <- <-]. left. reflexivity. }
  cbv zeta. intros H.
  destruct (bind_quiet _ _ _ _ _ (reuse_existing_quiet d _ _) H)
    as [(reused & s2 & Hreuse & H')|(e & Hreuse & ->)]; clear H; [rename H' into H|].
  2:{ apply reuse_existing_quiet in Hreuse as (_ & Hreg & _). left. exact Hreg. }
  pose proof (reuse_existing_quiet d _ _ _ _ _ Hreuse) as (_ & Hreg2 & _).
  destruct reused as [c|]; [injection H as <- <-; left; exact Hreg2|].
  destruct (bind_quiet _ _ _ _ _ (ensure_workspace_quiet _) H)
    as [([] & s3 & Hws & H')|(e & Hws & ->)]; clear H; [rename H' into H|].
  2:{ apply ensure_workspace_quiet in Hws as (_ & Hreg & _). left. congruence. }
  pose proof (ensure_workspace_quiet _ _ _ _ Hws) as (_ & Hreg3 & _).
  destruct (bind_quiet _ _ _ _ _ (ensure_image_quiet d _) H)
    as [([] & s4 & Him & H')|(e & Him & ->)]; clear H; [rename H' into H|].
  2:{ apply ensure_image_quiet in Him as (_ & Hreg & _). left. congruence. }
  pose proof (ensure_image_quiet d _ _ _ _ Him) as (_ & Hreg4 & _).
  apply create_start_register_spec in H.
  destruct r as [c|e|]; [| |contradiction].
  - destruct H as (_ & _ & Hreg & _). right. eexists. rewrite Hreg.
    rewrite Hreg4, Hreg3, Hreg2. reflexivity.
  - destruct H as (Hreg & _). left. congruence.
Qed.

(** X25: a call of [createDockerContainer] for one session, however it
    ends, leaves the entries of the other sessions in the registry as they
    are. *)
Theorem createDockerContainer_other_sessions
    userId terminalId language slug vfsId s key :
  key <> session_key userId terminalId ->
  activeContainers
    (createDockerContainer cwd d userId terminalId language slug vfsId s).2 !! key
  = activeContainers s !! key.
Proof.
  intros Hne. unfold createDockerContainer, try_catch.
  destruct (createDockerContainer_try _ _ _ _ _ _ _ s) as [r s1] eqn:E.
  apply createDockerContainer_try_registry in E.
  assert (Hs1 : activeContainers s1 !! key = activeContainers s !! key).
  { destruct E as [->|[info ->]]; [reflexivity|].
    apply lookup_insert_ne. congruence. }
  destruct r as [c|e|]; cbn [snd]; [exact Hs1| |exact Hs1].
  run. cbn. rewrite lookup_delete_ne by congruence. exact Hs1.
Qed.

End Isolation.

Section IsolationScenario.
Import JsString NodePath HostFs FileModel CodeExec FileCtl DockerCtl.

Lemma file_api_leaves_other_owners_witness :
  others "u1" (docs (deleteFile 1 "u1" shared_vfs).2)
  = [mkFile 2 "a.txt" file "theirs" (Some 1) "u2" false [] 0].
Proof.
  destruct (file_api_leaves_other_owners "u1" shared_vfs) as (_ & _ & H).
  - apply shared_vfs_ids_ok.
  - rewrite H. reflexivity.
Defined.

Lemma createDockerContainer_other_sessions_witness :
  activeContainers
    (createDockerContainer "/srv/app" willing_daemon "u1" "t1" "node" (Some "demo")
       None fresh_server).2 !! "u2-t9"
  = None.
Proof.
  rewrite createDockerContainer_other_sessions.
  - reflexivity.
  - discriminate.
Defined.

End IsolationScenario.

(** ** The pull writes every file of the project *)

Section PullComplete.
Import JsString NodePath HostFs FileModel CodeExec.

Variable userId : string.
Variable base : string.

(** The folder [q] is walked by a pull from [root], with the host path
    [cur]: the folders from [root] down to it are folders of the user, and
    none of them is skipped. *)
Inductive placed (c : collection) (root : option nat) : option nat -> string -> Prop :=
| placed_root : placed c root root base
| placed_below d q cur :
    placed c root q cur -> d ∈ docs c -> FileModel.userId d = userId ->
    type d = folder -> parentId d = q ->
    startsWith (join_paths [cur; name d]) base = true ->
    placed c root (Some (FileModel._id d)) (join_paths [cur; name d]).

(** What [getVfsDescendants] returns for a parent holds every document of
    the user below that parent. *)
Lemma getVfsDescendants_items c fuel q l d :
  getVfsDescendants (S fuel) c userId q = Some l ->
  d ∈ docs c -> FileModel.userId d = userId -> parentId d = q ->
  match type d with
  | file => FileChild (name d) (FileModel._id d) (content d) ∈ l
  | folder =>
      exists children,
        FolderChild (name d) (FileModel._id d) children ∈ l /\
        getVfsDescendants fuel c userId (Some (FileModel._id d)) = Some children
  end.
Proof.
  intros Hl Hd Hu Hp.
  assert (Hin : d ∈ findMany (children_query userId q) c).
  { apply list_elem_of_In, List.filter_In. split; [apply list_elem_of_In; exact Hd|].
    unfold children_query. rewrite !bool_decide_eq_true_2 by assumption. reflexivity. }
  cbn [getVfsDescendants] in Hl. revert l Hl.
  induction (findMany (children_query userId q) c) as [|item rest IH]; intros l Hl.
  - apply elem_of_nil in Hin. contradiction.
  - destruct (match type item with
              | file => _
              | folder => _
              end) as [ch|] eqn:Eitem; [|discriminate Hl].
    match type of Hl with context [option_map _ ?e] =>
      destruct e as [l'|] eqn:El end; [|discriminate Hl].
    cbn in Hl. injection Hl as <-.
    apply elem_of_cons in Hin as [<-|Hin].
    + destruct (type d).
      * injection Eitem as <-. left.
      * destruct (getVfsDescendants fuel c userId (Some (FileModel._id d)))
          as [children|]; [|discriminate Eitem].
        cbn in Eitem. injection Eitem as <-. exists children. split; [left|reflexivity].
    + specialize (IH Hin l' eq_refl). destruct (type d).
      * right. exact IH.
      * destruct IH as (children & Hc & Hg). exists children. split; [right|]; assumption.
Qed.

(** A folder that is walked has its own part of the structure, and what
    is reached there is reached from the root. *)
Lemma placed_structure c root fuel l q cur :
  getVfsDescendants fuel c userId root = Some l ->
  placed c root q cur ->
  exists fuel' items,
    getVfsDescendants fuel' c userId q = Some items /\
    forall item p, reaches base items cur item p -> reaches base l base item p.
Proof.
  intros Hl. induction 1 as [|d q cur _ IH Hd Hu Hty Hp Hs].
  - exists fuel, l. auto.
  - destruct IH as (fuel' & items & Hitems & Hlift).
    destruct fuel' as [|fuel']; [discriminate Hitems|].
    pose proof (getVfsDescendants_items c fuel' q items d Hitems Hd Hu Hp) as H.
    rewrite Hty in H. destruct H as (children & Hin & Hch).
    exists fuel', children. split; [exact Hch|].
    intros item p Hr. apply Hlift. eapply reaches_below; eassumption.
Qed.

(** X26: after a pull that completes, every file of the user in a folder
    that the pull walks, and that is not skipped itself, is on the host at
    the path of the folder joined with its name; it holds the content of
    the document when no two files written share a path. *)
Theorem pull_writes_every_file fuel root (w w' : world) f q cur :
  syncProjectFromVfsToHost fuel userId (Some root) base w = (Ok tt, w') ->
  placed (vfs w) root q cur ->
  f ∈ docs (vfs w) -> FileModel.userId f = userId -> type f = file ->
  parentId f = q -> startsWith (join_paths [cur; name f]) base = true ->
  exists written,
    host w' !! key_of (join_paths [cur; name f]) = Some (HFile written) /\
    (NoDup (pull_targets fuel (vfs w) userId (Some root) base).*1 ->
     written = content f).
Proof.
  unfold syncProjectFromVfsToHost, pull_targets. intros Hrun Hq Hf Hu Hty Hp Hs.
  unfold bind at 1, gets at 1 in Hrun. unfold bind at 1 in Hrun.
  match type of Hrun with context [match ?m w with _ => _ end] =>
    destruct (m w) as [[[]|e|] wa] eqn:E1 end; try discriminate Hrun.
  apply ensure_dir in E1 as (Hv & _).
  unfold bind at 1 in Hrun. rewrite Hv in Hrun.
  destruct (getVfsDescendants fuel (vfs w) userId root) as [l|] eqn:El;
    [|discriminate Hrun].
  apply createHostFilesRecursive_spec in Hrun as (_ & _ & _ & Hlast).
  destruct (Hlast eq_refl) as [_ Hlast'].
  destruct (placed_structure _ _ _ _ _ _ El Hq) as (fuel' & items & Hitems & Hlift).
  destruct fuel' as [|fuel']; [discriminate Hitems|].
  pose proof (getVfsDescendants_items _ fuel' q items f Hitems Hf Hu Hp) as Hin.
  rewrite Hty in Hin.
  assert (Hreach : reaches base l base (FileChild (name f) (FileModel._id f) (content f))
                     (join_paths [cur; name f])).
  { apply Hlift.
    apply (reaches_here base items cur
             (FileChild (name f) (FileModel._id f) (content f)) Hin Hs). }
  apply reaches_target in Hreach.
  destruct (last_write_some (targets l base base) (key_of (join_paths [cur; name f])))
    as [written Hw].
  { apply list_elem_of_fmap. eexists. split; [|exact Hreach]. reflexivity. }
  exists written. split; [apply Hlast'; exact Hw|].
  intros Hnd. pose proof (last_write_nodup _ _ _ Hnd Hreach) as E. congruence.
Qed.

End PullComplete.

Section PullCompleteScenario.
Import JsString NodePath HostFs FileModel CodeExec.

Lemma pull_writes_every_file_witness :
  exists written,
    host after_pull !! ["srv"; "app"; "projects"; "u1"; "demo"; "src"; "app.js"]
    = Some (HFile written).
Proof.
  destruct (pull_writes_every_file "u1" demo_path 5 (Some 1) before_pull after_pull
              (owned 3 "app.js" file "console.log(1)" (Some 2)) (Some 2)
              "/srv/app/projects/u1/demo/src" pull_scenario_runs)
    as (written & Hw & _).
  - apply (placed_below "u1" demo_path demo_vfs (Some 1)
             (owned 2 "src" folder EmptyString (Some 1)) (Some 1) demo_path).
    + apply placed_root.
    + right. left.
    + reflexivity.
    + reflexivity.
    + reflexivity.
    + vm_compute. reflexivity.
  - right. right. left.
  - reflexivity.
  - reflexivity.
  - reflexivity.
  - vm_compute. reflexivity.
  - exists written. exact Hw.
Defined.

End PullCompleteScenario.

(** ** Renaming on the working copy *)

Section Renaming.
Import JsString NodePath HostFs FileModel AuthUtils WorkspaceFs.

Variable cwd : string.

Lemma rekey_same ko kn : rekey ko kn ko = kn.
Proof. unfold rekey. rewrite drop_all. apply app_nil_r. Qed.

Lemma rekey_inj ko kn k1 k2 :
  ko `prefix_of` k1 -> ko `prefix_of` k2 ->
  rekey ko kn k1 = rekey ko kn k2 -> k1 = k2.
Proof.
  intros [s1 ->] [s2 ->]. unfold rekey. rewrite !drop_app_length.
  intros H. apply app_inv_head in H. congruence.
Qed.

(** The entries below [ko], under their new keys. *)
Definition carried (ko kn : list string) (m : fs) : list (list string * hnode) :=
  omap (fun '(k, n) =>
          if decide (ko `prefix_of` k) then Some (rekey ko kn k, n) else None)
       (map_to_list m).

Lemma carried_elem ko kn m k' v :
  (k', v) ∈ carried ko kn m <->
  exists k, m !! k = Some v /\ ko `prefix_of` k /\ k' = rekey ko kn k.
Proof.
  unfold carried. rewrite list_elem_of_omap. split.
  - intros ([k n] & Hin & Hf). apply elem_of_map_to_list in Hin.
    destruct (decide (ko `prefix_of` k)); [|discriminate Hf].
    injection Hf as <- <-. eauto.
  - intros (k & Hk & Hp & ->). exists (k, v). split; [apply elem_of_map_to_list; exact Hk|].
    rewrite decide_True by exact Hp. reflexivity.
Qed.

Lemma carried_NoDup ko kn m : NoDup (carried ko kn m).*1.
Proof.
  unfold carried. pose proof (NoDup_fst_map_to_list m) as Hnd.
  induction (map_to_list m) as [|[k n] l IH]; [constructor|].
  cbn in Hnd. apply NoDup_cons in Hnd as [Hk Hnd]. cbn [omap list_omap].
  destruct (decide (ko `prefix_of` k)) as [Hp|Hp]; [|apply IH; exact Hnd].
  cbn. apply NoDup_cons. split; [|apply IH; exact Hnd].
  intros Hx. apply list_elem_of_fmap in Hx as ([k' n'] & E & Hx). cbn in E.
  apply list_elem_of_omap in Hx as ([k0 n0] & Hin0 & Hf).
  destruct (decide (ko `prefix_of` k0)) as [Hp0|]; [|discriminate Hf].
  injection Hf as <- <-. apply rekey_inj in E; [|assumption..]. subst k0.
  apply Hk. apply list_elem_of_fmap. exists (k, n0). split; [reflexivity|exact Hin0].
Qed.

(** What a [rename] that succeeds onto a path that did not exist has
    done. *)
Lemma rename_ok old new m m' :
  rename old new m = (Ok tt, m') -> existsSync m new = false ->
  exists src tn,
    key_of old <> [] /\ locate new = (key_of new, tn) /\ key_of new <> [] /\
    m !! key_of old = Some src /\ m' !! key_of new = Some src /\
    (forall c, src = HFile c -> tn = false /\ (locate old).2 = false) /\
    (~ key_of new `prefix_of` key_of old -> m' !! key_of old = None).
Proof.
  unfold rename, existsSync, key_of.
  destruct (locate old) as [ko to]. destruct (locate new) as [kn tn]. cbn [fst snd].
  intros H Hnew.
  destruct ko as [|so ko]; [destruct (node_at m []); discriminate H|].
  cbn [node_at] in H. destruct (m !! (so :: ko)) as [src|] eqn:Hsrc; [|discriminate H].
  assert (Hkind : forall c, src = HFile c -> tn = false /\ to = false).
  { intros c ->. destruct to, tn; cbn in H; try discriminate H; auto. }
  assert (Hthrow : forall (X : result unit * fs) msg,
            X = (Throw msg, m) -> X <> (Ok tt, m')) by (intros X msg ->; discriminate).
  destruct kn as [|sn kn];
    [destruct src as [c|]; [destruct (to || tn)|]; discriminate H|].
  cbn [node_at] in Hnew.
  destruct (node_at m (parent_of (sn :: kn))) as [[c|]|];
    [destruct src as [c'|]; [destruct (to || tn)|]; discriminate H| |
     destruct src as [c'|]; [destruct (to || tn)|]; discriminate H].
  destruct (decide (so :: ko = sn :: kn)) as [E|Hne].
  { exfalso. rewrite <- E, Hsrc in Hnew. destruct src as [c|]; [|discriminate Hnew].
    destruct (Hkind c eq_refl) as [-> _]. discriminate Hnew. }
  destruct (decide ((so :: ko) `prefix_of` (sn :: kn)));
    [destruct src as [c'|]; [destruct (to || tn)|]; discriminate H|].
  cbv zeta in H.
  assert (Hnone : m !! (sn :: kn) = None).
  { destruct (m !! (sn :: kn)) as [[c|]|] eqn:E; [|discriminate Hnew|reflexivity].
    destruct tn; [|discriminate Hnew].
    destruct src as [c'|]; [destruct (Hkind c' eq_refl); discriminate|].
    discriminate H. }
  rewrite Hnone in H.
  assert (Hm' : m' = list_to_map (carried (so :: ko) (sn :: kn) m)
                     ∪ filter (fun kv => ~ ((so :: ko) `prefix_of` kv.1) /\
                                         ~ ((sn :: kn) `prefix_of` kv.1)) m).
  { unfold carried.
    destruct src as [c|]; [destruct (to || tn); [discriminate H|]|];
      injection H as <-; reflexivity. }
  clear H Hthrow.
  exists src, tn. split; [discriminate|]. split; [reflexivity|].
  split; [discriminate|]. split; [reflexivity|]. split; [|split; [exact Hkind|]].
  - rewrite Hm'. apply lookup_union_Some_l.
    apply elem_of_list_to_map_1; [apply carried_NoDup|].
    apply carried_elem. exists (so :: ko). split; [exact Hsrc|].
    split; [reflexivity|]. symmetry. apply rekey_same.
  - intros Hpre. rewrite Hm'. apply lookup_union_None. split.
    + apply not_elem_of_list_to_map_1. intros Hin.
      apply list_elem_of_fmap in Hin as ([k' v] & E & Hin). cbn in E. subst k'.
      apply carried_elem in Hin as (k & _ & _ & E). apply Hpre.
      rewrite E. unfold rekey. apply prefix_app_r. reflexivity.
    + apply map_lookup_filter_None. right. intros x _ [Hn _]. apply Hn. reflexivity.
Qed.

Lemma rename_moves old new m m' :
  rename old new m = (Ok tt, m') -> existsSync m new = false ->
  existsSync m' new = true /\
  (forall c, readFile old m = (Ok c, m) -> readFile new m' = (Ok c, m')) /\
  (~ key_of new `prefix_of` key_of old -> existsSync m' old = false).
Proof.
  intros Hrn Htaken.
  apply rename_ok in Hrn as (src & tn & Hko & Hln & Hkn & Hsrc & Hdst & Hkind & Hgone);
    [|exact Htaken].
  assert (Hnode : forall (m : fs) k, k <> [] -> node_at m k = m !! k).
  { intros m0 k Hk. destruct k; [contradiction|reflexivity]. }
  split; [|split].
  - unfold existsSync. rewrite Hln, (Hnode _ _ Hkn), Hdst.
    destruct src as [c|]; [|reflexivity]. destruct (Hkind c eq_refl) as [-> _].
    reflexivity.
  - intros c. unfold readFile. rewrite Hln, (Hnode _ _ Hkn), Hdst.
    destruct (locate old) as [ko to] eqn:Hlo. unfold key_of in Hsrc, Hko.
    rewrite Hlo in Hsrc, Hko. cbn [fst] in Hsrc, Hko.
    rewrite (Hnode _ _ Hko), Hsrc.
    destruct src as [c0|]; [|discriminate].
    destruct (Hkind c0 eq_refl) as [-> _]. destruct to; [discriminate|].
    intros [= ->]. reflexivity.
  - intros Hpre. specialize (Hgone Hpre). unfold existsSync.
    destruct (locate old) as [ko to] eqn:Hlo. unfold key_of in Hgone, Hko.
    rewrite Hlo in Hgone, Hko. cbn [fst] in Hgone, Hko.
    rewrite (Hnode _ _ Hko), Hgone. reflexivity.
Qed.

(** X27: [renameItem] moves the item: after a call that answered 200,
    the new path, which is the directory of the old one joined with the
    new name trimmed of the white space at its ends, exists, a file is
    read there with the content it had at the old path, and the old path
    is gone unless the new path is above it. *)
Theorem renameItem_moves req w w' b old :
  renameItem cwd req w = (Ok (mkRes 200 b), w') ->
  resolveUserProjectPath cwd (str (q_userId req)) (str (q_projectSlug req))
    (b_oldPath req) = Ok old ->
  let new := join_paths [dirname old; trim (str (b_newName req))] in
  existsSync (host w') new = true /\
  (forall c, readFile old (host w) = (Ok c, host w) ->
             readFile new (host w') = (Ok c, host w')) /\
  (~ key_of new `prefix_of` key_of old -> existsSync (host w') old = false).
Proof.
  unfold renameItem. intros H Hres. cbv zeta.
  apply try_catch_on_error_inv in H; [|discriminate..].
  destruct (negb (truthy_opt (q_userId req)) || negb (truthy_opt (q_projectSlug req))
            || negb (truthy_opt (q_path req))); [discriminate H|].
  apply bind_inv_ok in H as (allowed & w0 & Hperm & H).
  destruct allowed; [|discriminate H]. cbn [negb] in H.
  apply checkPermission_allowed in Hperm as [Hperm ->].
  destruct (negb (truthy_opt (b_oldPath req)) || negb (truthy_opt (b_newName req)));
    [discriminate H|].
  cbv zeta in H.
  destruct (includes _ "/" || includes _ "\" || includes _ ".."); [discriminate H|].
  apply bind_inv_ok in H as (old' & w0 & Hres' & H).
  unfold lift_result in Hres'. injection Hres' as Hres' <-.
  assert (old' = old) as -> by congruence.
  apply bind_inv_ok in H as (present & w0 & Hpresent & H).
  unfold gets in Hpresent. injection Hpresent as Hpresent <-.
  destruct present; [|discriminate H]. cbn [negb] in H.
  set (new := join_paths [dirname old; trim (str (b_newName req))]) in *.
  destruct (negb (startsWith new _)); [discriminate H|].
  apply bind_inv_ok in H as (taken & w0 & Htaken & H).
  unfold gets in Htaken. injection Htaken as Htaken <-.
  destruct taken; [discriminate H|].
  apply bind_inv_ok in H as ([] & w1 & Hrn & H).
  unfold ret in H. injection H as _ <-.
  apply on_host_inv in Hrn as (m1 & Hrn & ->). cbn [host with_host].
  apply rename_moves; assumption.
Qed.

(** X28: [moveItem] moves the item when the directory of the new path is
    there already: after a call that answered 200, the new path exists, a
    file is read there with the content it had at the old path, and the
    old path is gone unless the new path is above it. *)
Theorem moveItem_moves req w w' b old new :
  moveItem cwd req w = (Ok (mkRes 200 b), w') ->
  resolveUserProjectPath cwd (str (q_userId req)) (str (q_projectSlug req))
    (b_oldPath req) = Ok old ->
  resolveUserProjectPath cwd (str (q_userId req)) (str (q_projectSlug req))
    (b_newPath req) = Ok new ->
  existsSync (host w) (dirname new) = true ->
  existsSync (host w') new = true /\
  (forall c, readFile old (host w) = (Ok c, host w) ->
             readFile new (host w') = (Ok c, host w')) /\
  (~ key_of new `prefix_of` key_of old -> existsSync (host w') old = false).
Proof.
  unfold moveItem. intros H Hold Hnew Hdir.
  apply try_catch_on_error_inv in H; [|discriminate..].
  destruct (negb (truthy_opt (q_userId req)) || negb (truthy_opt (q_projectSlug req))
            || negb (truthy_opt (q_path req))); [discriminate H|].
  apply bind_inv_ok in H as (allowed & w0 & Hperm & H).
  destruct allowed; [|discriminate H]. cbn [negb] in H.
  apply checkPermission_allowed in Hperm as [Hperm ->].
  destruct (negb (truthy_opt (b_oldPath req)) || negb (truthy_opt (b_newPath req)));
    [discriminate H|].
  apply bind_inv_ok in H as (old' & w0 & Hold' & H).
  unfold lift_result in Hold'. injection Hold' as Hold' <-.
  assert (old' = old) as -> by congruence.
  apply bind_inv_ok in H as (new' & w0 & Hnew' & H).
  unfold lift_result in Hnew'. injection Hnew' as Hnew' <-.
  assert (new' = new) as -> by congruence.
  apply bind_inv_ok in H as (present & w0 & Hpresent & H).
  unfold gets in Hpresent. injection Hpresent as Hpresent <-.
  destruct present; [|discriminate H]. cbn [negb] in H.
  apply bind_inv_ok in H as (taken & w0 & Htaken & H).
  unfold gets in Htaken. injection Htaken as Htaken <-.
  destruct taken; [discriminate H|]. cbv zeta in H.
  apply bind_inv_ok in H as (parentPresent & w0 & Hpp & H).
  unfold gets in Hpp. injection Hpp as Hpp <-.
  rewrite Hdir in Hpp. subst parentPresent. cbn [negb] in H.
  apply bind_inv_ok in H as ([] & w0 & Hskip & H).
  unfold ret in Hskip. injection Hskip as <-.
  apply bind_inv_ok in H as ([] & w1 & Hrn & H).
  unfold ret in H. injection H as _ <-.
  apply on_host_inv in Hrn as (m1 & Hrn & ->). cbn [host with_host].
  apply rename_moves; assumption.
Qed.

End Renaming.

Section RenamingScenario.
Import JsString NodePath HostFs FileModel AuthUtils WorkspaceFs.

(** The new name comes with a byte order mark before it and a no-break
    space and a space after it. *)
Definition rename_app_js : request :=
  mkReq "u1" (Some "u1") (Some "demo") (Some "app.js") None None None None
    (Some "app.js")
    (Some (utf8 [239; 187; 191] ++ "main.js" ++ utf8 [194; 160; 32])) None.

Lemma renameItem_moves_witness :
  existsSync (host (renameItem "/srv/app" rename_app_js demo_world).2)
    "/srv/app/projects/u1/demo/main.js" = true.
Proof.
  destruct (renameItem_moves "/srv/app" rename_app_js demo_world
              (renameItem "/srv/app" rename_app_js demo_world).2
              (Message "Item renamed successfully.")
              "/srv/app/projects/u1/demo/app.js") as (Hthere & _ & _).
  - vm_compute. reflexivity.
  - vm_compute. reflexivity.
  - exact Hthere.
Defined.

Definition move_app_js : request :=
  mkReq "u1" (Some "u1") (Some "demo") (Some "app.js") None None None None
    (Some "app.js") None (Some "moved.js").

Lemma moveItem_moves_witness :
  existsSync (host (moveItem "/srv/app" move_app_js demo_world).2)
    "/srv/app/projects/u1/demo/moved.js" = true.
Proof.
  destruct (moveItem_moves "/srv/app" move_app_js demo_world
              (moveItem "/srv/app" move_app_js demo_world).2
              (Message "Item moved successfully.")
              "/srv/app/projects/u1/demo/app.js"
              "/srv/app/projects/u1/demo/moved.js") as (Hthere & _ & _).
  - vm_compute. reflexivity.
  - vm_compute. reflexivity.
  - vm_compute. reflexivity.
  - vm_compute. reflexivity.
  - exact Hthere.
Defined.

End RenamingScenario.
